(** * The endless-runner game loop: a shallow embedding and its properties

    Two implementations of the same game live in the repository:
    - [Basic]: the single-file game of [src/client/main.ts];
    - [Enhanced]: the class [EnhancedRunnerGame] of
      [src/client/three/game/enhanced-runner-game.ts].

    Modelling conventions.
    - A JavaScript number that holds a time, a coordinate or a speed is a
      rational [Q]: arithmetic is exact, the round-off of IEEE doubles is
      left out.  Counters ([score], [lives], lane indices) are [Z].  Where
      round-off decides, the accumulation of the spawn timer over several
      frames, module [Double] computes in binary64.
    - [Math.random()] and [Date.now()] are inputs of a frame: the frame
      receives the successive values these calls return to it.
    - Objects of the rendering library are reduced to what the game logic
      reads back: [mesh.position] and the velocity.  A call of [dispose()]
      is recorded in a log of disposed entities.
    - A [TypeError] raised by reading a property of [undefined] is the
      [Throw] completion; it carries the state at the time of the throw. *)

From Stdlib Require Import ZArith QArith Qround Qabs Bool Lia Lqa String.
From Stdlib Require Import Floats.
From stdpp Require Import base list.

Open Scope Q_scope.

(** A decimal literal of binary64 denotes the nearest binary64 value, as in
    the program. *)
Set Warnings "-inexact-float".

(** ** Numbers and comparisons *)

(** [x < y], [x > y] and [x >= y] on numbers, as booleans. *)
Definition Qltb (x y : Q) : bool := negb (Qle_bool y x).
Definition Qgtb (x y : Q) : bool := Qltb y x.
Definition Qgeb (x y : Q) : bool := Qle_bool y x.

(** ** Completions *)

Inductive Completion (S : Type) : Type :=
| Normal (s : S)
| Throw (s : S).
Arguments Normal {S} s.
Arguments Throw {S} s.

Definition stateOf {S : Type} (c : Completion S) : S :=
  match c with Normal s => s | Throw s => s end.

Definition threw {S : Type} (c : Completion S) : bool :=
  match c with Normal _ => false | Throw _ => true end.

(** ** Arrays *)

(** [Array.prototype.splice(start, 1)]: the index where the deletion
    starts, for an array of [len] elements. *)
Definition spliceStart (len : nat) (start : Z) : nat :=
  if (start <? 0)%Z
  then Z.to_nat (Z.max (Z.of_nat len + start) 0)
  else Z.to_nat (Z.min start (Z.of_nat len)).

(** [l.splice(start, 1)[0]] together with what is left of [l]; the first
    component is [None] ([undefined]) when nothing was removed. *)
Definition spliceOne {A : Type} (start : Z) (l : list A) : option A * list A :=
  let s := spliceStart (length l) start in (l !! s, delete s l).

(** The lane coordinates [[-2, 0, 2]] and the read [lanes[lane]], which is
    [undefined] outside the array and for an [undefined] index. *)
Definition laneCoords : list Q := [-2; 0; 2].

Definition laneCoord (lane : option Z) : option Q :=
  match lane with
  | Some i => if (i <? 0)%Z then None else laneCoords !! Z.to_nat i
  | None => None
  end.

(** ** Positions and distances *)

Record Vector3 : Type := mkVector3 { vx : Q; vy : Q; vz : Q }.

(** The position of an obstacle or collectible: its [x] is [undefined]
    ([None]) when the constructor was given no lane. *)
Record Position : Type := mkPosition { posx : option Q; posy : Q; posz : Q }.

Definition sq (a : Q) : Q := a * a.

(** [p.distanceTo(q) < r] for a radius [r >= 0], decided on the squares:
    [sqrt d2 < r] iff [d2 < r * r].  With an [undefined] coordinate the
    distance is [NaN] and the comparison is false. *)
Definition closerThan (r : Q) (p : Vector3) (q : Position) : bool :=
  match posx q with
  | Some x => Qltb (sq (vx p - x) + sq (vy p - posy q) + sq (vz p - posz q)) (r * r)
  | None => false
  end.

(** ** Traversals that remove elements *)

Section Cull.
Context {A : Type}.
(** [upd i a]: the element after its [update(deltaTime)], called at index [i]. *)
Variable upd : nat -> A -> A.
(** [zof a]: [a.mesh.position.z]. *)
Variable zof : A -> Q.

(** [arr.forEach((a, index) => { a.update(dt); if (a.z > 10) { a.dispose();
    arr.splice(index, 1) } })].  [forEach] visits the indices [0 .. len-1]
    for the length [len] read before the first call and skips an index
    that is no longer in the array.  The result is the array and the
    log of disposed elements. *)
Fixpoint forEachCull (fuel k : nat) (arr log : list A) : list A * list A :=
  match fuel with
  | O => (arr, log)
  | S fuel' =>
      match arr !! k with
      | None => forEachCull fuel' (S k) arr log
      | Some a =>
          let a' := upd k a in
          if Qgtb (zof a') 10
          then forEachCull fuel' (S k) (delete k arr) (log ++ [a'])
          else forEachCull fuel' (S k) (<[k := a']> arr) log
      end
  end.

(** [for (let i = arr.length - 1; i >= 0; i--) { const a = arr[i]!;
    a.update(dt); if (a.z > 10) { a.dispose(); arr.splice(i, 1) } }],
    entered with [i + 1 = n].  Reading [arr[i]] outside the array gives
    [undefined], and the call [a.update] then throws. *)
Fixpoint reverseCull (n : nat) (arr log : list A) : Completion (list A * list A) :=
  match n with
  | O => Normal (arr, log)
  | S i =>
      match arr !! i with
      | None => Throw (arr, log)
      | Some a =>
          let a' := upd i a in
          if Qgtb (zof a') 10
          then reverseCull i (delete i arr) (log ++ [a'])
          else reverseCull i (<[i := a']> arr) log
      end
  end.
End Cull.

(** * The game of [src/client/main.ts] *)

Module Basic.

(** ** State *)

Record GameState : Type := mkGameState {
  isPlaying : bool;
  isPaused : bool;
  score : Z;
  speed : Q;
  lives : Z;
  gameOver : bool
}.

(** The health bar component ([HealthBar]): the hearts it shows and whether
    its element is displayed. *)
Record HealthBar : Type := mkHealthBar {
  maxHealth : Z;
  currentHealth : Z;
  displayed : bool
}.

Record Player : Type := mkPlayer {
  position : Vector3;      (* mesh.position *)
  velocityY : Q;           (* velocity.y *)
  currentLane : Z;
  targetX : Q;
  isGrounded : bool
}.

Record Obstacle : Type := mkObstacle {
  omesh : Position;        (* mesh.position *)
  ovelocity : Q
}.

Record Collectible : Type := mkCollectible {
  cmesh : Position;        (* mesh.position *)
  cvelocity : Q
}.

Record World : Type := mkWorld {
  gameState : GameState;
  player : Player;
  obstacles : list Obstacle;
  collectibles : list Collectible;
  healthBar : HealthBar;
  spawnTimer : Q;
  lastTime : Q;
  disposedObstacles : list Obstacle;       (* log of obstacle.dispose() *)
  disposedCollectibles : list Collectible  (* log of collectible.dispose() *)
}.

Definition spawnInterval : Q := 2.5.

Definition setGameState (g : GameState) (w : World) : World :=
  mkWorld g (player w) (obstacles w) (collectibles w) (healthBar w)
          (spawnTimer w) (lastTime w) (disposedObstacles w) (disposedCollectibles w).

Definition setPlayer (p : Player) (w : World) : World :=
  mkWorld (gameState w) p (obstacles w) (collectibles w) (healthBar w)
          (spawnTimer w) (lastTime w) (disposedObstacles w) (disposedCollectibles w).

Definition setObstacles (os dis : list Obstacle) (w : World) : World :=
  mkWorld (gameState w) (player w) os (collectibles w) (healthBar w)
          (spawnTimer w) (lastTime w) dis (disposedCollectibles w).

Definition setCollectibles (cs dis : list Collectible) (w : World) : World :=
  mkWorld (gameState w) (player w) (obstacles w) cs (healthBar w)
          (spawnTimer w) (lastTime w) (disposedObstacles w) dis.

Definition setHealthBar (h : HealthBar) (w : World) : World :=
  mkWorld (gameState w) (player w) (obstacles w) (collectibles w) h
          (spawnTimer w) (lastTime w) (disposedObstacles w) (disposedCollectibles w).

Definition setSpawnTimer (t : Q) (w : World) : World :=
  mkWorld (gameState w) (player w) (obstacles w) (collectibles w) (healthBar w)
          t (lastTime w) (disposedObstacles w) (disposedCollectibles w).

Definition setLastTime (t : Q) (w : World) : World :=
  mkWorld (gameState w) (player w) (obstacles w) (collectibles w) (healthBar w)
          (spawnTimer w) t (disposedObstacles w) (disposedCollectibles w).

(** ** The player *)

(** [this.lanes[lane]] for the assignment to [targetX].  The read is inside
    the array for [0 <= lane <= 2]; the guards of [moveLeft] and
    [moveRight] keep the lane there (see [basic_moves_ok]). *)
Definition laneTarget (lane : Z) : Q := default 0 (laneCoord (Some lane)).

Definition newPlayer : Player :=
  mkPlayer (mkVector3 0 0.6 0) 0 1 0 true.

Definition jump (p : Player) : Player :=
  if isGrounded p
  then mkPlayer (position p) 15 (currentLane p) (targetX p) false
  else p.

Definition moveLeft (p : Player) : Player :=
  if (currentLane p >? 0)%Z
  then let lane := (currentLane p - 1)%Z in
       mkPlayer (position p) (velocityY p) lane (laneTarget lane) (isGrounded p)
  else p.

Definition moveRight (p : Player) : Player :=
  if (currentLane p <? Z.of_nat (length laneCoords) - 1)%Z
  then let lane := (currentLane p + 1)%Z in
       mkPlayer (position p) (velocityY p) lane (laneTarget lane) (isGrounded p)
  else p.

Definition playerUpdate (deltaTime : Q) (p : Player) : Player :=
  let pos := position p in
  (* Lane switching *)
  let dx := targetX p - vx pos in
  let x := if Qgtb (Qabs dx) 0.1 then vx pos + dx * 8 * deltaTime else vx pos in
  (* Jumping and gravity *)
  if negb (isGrounded p)
  then let v := velocityY p - 50 * deltaTime in
       let y := vy pos + v * deltaTime in
       if Qle_bool y 0.6
       then mkPlayer (mkVector3 x 0.6 (vz pos)) 0 (currentLane p) (targetX p) true
       else mkPlayer (mkVector3 x y (vz pos)) v (currentLane p) (targetX p) false
  else mkPlayer (mkVector3 x (vy pos) (vz pos)) (velocityY p) (currentLane p) (targetX p) true.

(** ** Obstacles and collectibles *)

Definition newObstacle (lane : option Z) (z : Q) (w : World) : Obstacle :=
  mkObstacle (mkPosition (laneCoord lane) 0.75 z) (speed (gameState w)).

Definition obstacleUpdate (deltaTime : Q) (o : Obstacle) : Obstacle :=
  let m := omesh o in
  mkObstacle (mkPosition (posx m) (posy m) (posz m + ovelocity o * deltaTime)) (ovelocity o).

Definition newCollectible (lane : option Z) (z : Q) (w : World) : Collectible :=
  mkCollectible (mkPosition (laneCoord lane) 1 z) (speed (gameState w)).

Definition collectibleUpdate (deltaTime : Q) (c : Collectible) : Collectible :=
  let m := cmesh c in
  mkCollectible (mkPosition (posx m) (posy m) (posz m + cvelocity c * deltaTime)) (cvelocity c).

(** ** The health bar *)

Definition setHealth (health : Z) (h : HealthBar) : HealthBar :=
  mkHealthBar (maxHealth h) (Z.max 0 (Z.min health (maxHealth h))) (displayed h).

Definition takeDamage (amount : Z) (h : HealthBar) : HealthBar :=
  setHealth (currentHealth h - amount) h.

Definition showBar (b : bool) (h : HealthBar) : HealthBar :=
  mkHealthBar (maxHealth h) (currentHealth h) b.

(** ** Starting and ending a game *)

Definition startGame (w : World) : World :=
  let g := mkGameState true (isPaused (gameState w)) 0 10 3 false in
  mkWorld g (player w) [] [] (showBar true (setHealth 3 (healthBar w)))
          0 (lastTime w)
          (disposedObstacles w ++ obstacles w)
          (disposedCollectibles w ++ collectibles w).

Definition doGameOver (w : World) : World :=
  let g := gameState w in
  setHealthBar (showBar false (healthBar w))
    (setGameState (mkGameState false (isPaused g) (score g) (speed g) (lives g) true) w).

(** ** Spawning *)

(** What one call of [spawnObjects] creates, in creation order.  The lane
    of an obstacle is [undefined] when [splice] removed nothing. *)
Inductive Spawn : Type :=
| SpawnObstacle (lane : option Z)
| SpawnCollectible (lane : Z).

(** [availableLanes.forEach(lane => { if (Math.random() < 0.6) ... })];
    [k] counts the calls of [Math.random()] made so far. *)
Fixpoint collectibleDecisions (rnd : nat -> Q) (k : nat) (availableLanes : list Z)
  : list Spawn :=
  match availableLanes with
  | [] => []
  | lane :: rest =>
      if Qltb (rnd k) 0.6
      then SpawnCollectible lane :: collectibleDecisions rnd (S k) rest
      else collectibleDecisions rnd (S k) rest
  end.

(** The decisions of [spawnObjects]; [rnd k] is the value of the [k]-th call
    of [Math.random()] of this invocation. *)
Definition spawnDecisions (rnd : nat -> Q) : list Spawn :=
  let lanes := [0; 1; 2]%Z in
  let availableLanes := lanes in
  (* Spawn obstacle *)
  if Qltb (rnd 0%nat) 0.7
  then
    let index := Qfloor (rnd 1%nat * inject_Z (Z.of_nat (length availableLanes))) in
    let '(lane, availableLanes) := spliceOne index availableLanes in
    SpawnObstacle lane :: collectibleDecisions rnd 2 availableLanes
  else
    (* Spawn collectibles *)
    collectibleDecisions rnd 1 availableLanes.

Definition create (w : World) (s : Spawn) : World :=
  match s with
  | SpawnObstacle lane =>
      setObstacles (obstacles w ++ [newObstacle lane (-50) w]) (disposedObstacles w) w
  | SpawnCollectible lane =>
      setCollectibles (collectibles w ++ [newCollectible (Some lane) (-50) w])
                      (disposedCollectibles w) w
  end.

Definition spawnObjects (rnd : nat -> Q) (w : World) : World :=
  fold_left create (spawnDecisions rnd) w.

(** ** Collisions *)

(** How the obstacle loop of [checkCollisions] ends: it runs to its end,
    the function returns from inside it, or a read of [undefined] throws. *)
Inductive Scan : Type :=
| Finished (w : World)
| Returned (w : World)
| Threw (w : World).

Definition loseLife (i : nat) (obstacle : Obstacle) (w : World) : World :=
  let g := gameState w in
  let w := setGameState
             (mkGameState (isPlaying g) (isPaused g) (score g) (speed g)
                          (lives g - 1) (gameOver g)) w in
  let w := setHealthBar (takeDamage 1 (healthBar w)) w in
  setObstacles (delete i (obstacles w)) (disposedObstacles w ++ [obstacle]) w.

(** [for (let i = obstacles.length - 1; i >= 0; i--) ...], entered with
    [i + 1 = n]. *)
Fixpoint checkObstacles (n : nat) (w : World) : Scan :=
  match n with
  | O => Finished w
  | S i =>
      match obstacles w !! i with
      | None => Threw w
      | Some obstacle =>
          if closerThan 1.0 (position (player w)) (omesh obstacle)
          then
            let w := loseLife i obstacle w in
            if (lives (gameState w) <=? 0)%Z
            then Returned (doGameOver w)
            else checkObstacles i w
          else checkObstacles i w
      end
  end.

Definition pickUp (i : nat) (collectible : Collectible) (w : World) : World :=
  let g := gameState w in
  let w := setGameState
             (mkGameState (isPlaying g) (isPaused g) (score g + 10) (speed g)
                          (lives g) (gameOver g)) w in
  setCollectibles (delete i (collectibles w)) (disposedCollectibles w ++ [collectible]) w.

Fixpoint checkCollectibles (n : nat) (w : World) : Completion World :=
  match n with
  | O => Normal w
  | S i =>
      match collectibles w !! i with
      | None => Throw w
      | Some collectible =>
          if closerThan 0.8 (position (player w)) (cmesh collectible)
          then checkCollectibles i (pickUp i collectible w)
          else checkCollectibles i w
      end
  end.

Definition checkCollisions (w : World) : Completion World :=
  match checkObstacles (length (obstacles w)) w with
  | Finished w => checkCollectibles (length (collectibles w)) w
  | Returned w => Normal w
  | Threw w => Throw w
  end.

(** ** The game loop *)

Definition cullObstacles (deltaTime : Q) (w : World) : World :=
  let '(os, dis) :=
    forEachCull (fun _ => obstacleUpdate deltaTime) (fun o => posz (omesh o))
                (length (obstacles w)) 0 (obstacles w) (disposedObstacles w) in
  setObstacles os dis w.

Definition cullCollectibles (deltaTime : Q) (w : World) : World :=
  let '(cs, dis) :=
    forEachCull (fun _ => collectibleUpdate deltaTime) (fun c => posz (cmesh c))
                (length (collectibles w)) 0 (collectibles w) (disposedCollectibles w) in
  setCollectibles cs dis w.

Definition addSpeed (d : Q) (w : World) : World :=
  let g := gameState w in
  setGameState (mkGameState (isPlaying g) (isPaused g) (score g) (speed g + d)
                            (lives g) (gameOver g)) w.

Definition addScore (d : Z) (w : World) : World :=
  let g := gameState w in
  setGameState (mkGameState (isPlaying g) (isPaused g) (score g + d) (speed g)
                            (lives g) (gameOver g)) w.

(** The block [spawnTimer += deltaTime; if (spawnTimer >= spawnInterval) ...]. *)
Definition spawnPhase (deltaTime : Q) (rnd : nat -> Q) (w : World) : World :=
  let w := setSpawnTimer (spawnTimer w + deltaTime) w in
  if Qgeb (spawnTimer w) spawnInterval
  then addSpeed 0.1 (setSpawnTimer 0 (spawnObjects rnd w))
  else w.

Definition playing (w : World) : bool :=
  isPlaying (gameState w) && negb (gameOver (gameState w)).

(** The body of [animate] once [deltaTime] is known. *)
Definition frame (deltaTime : Q) (rnd : nat -> Q) (w : World) : Completion World :=
  if playing w
  then
    let w := setPlayer (playerUpdate deltaTime (player w)) w in
    let w := cullObstacles deltaTime w in
    let w := cullCollectibles deltaTime w in
    let w := spawnPhase deltaTime rnd w in
    match checkCollisions w with
    | Normal w => Normal (addScore (Qfloor (deltaTime * 5)) w)
    | Throw w => Throw w
    end
  else Normal w.

Definition animate (currentTime : Q) (rnd : nat -> Q) (w : World) : Completion World :=
  let deltaTime := (currentTime - lastTime w) / 1000 in
  frame deltaTime rnd (setLastTime currentTime w).

(** ** Input and runs *)

Inductive Command : Type :=
| Start                                   (* click on the start or restart button *)
| Jump | Left | Right                     (* a key or a swipe, as decoded by the listeners *)
| Frame (currentTime : Q) (rnd : nat -> Q).

(** The listeners of [setupControls] ignore input unless a game is running. *)
Definition control (f : Player -> Player) (w : World) : World :=
  if negb (isPlaying (gameState w)) || gameOver (gameState w)
  then w
  else setPlayer (f (player w)) w.

Definition step (w : World) (c : Command) : World :=
  match c with
  | Start => startGame w
  | Jump => control jump w
  | Left => control moveLeft w
  | Right => control moveRight w
  | Frame currentTime rnd => stateOf (animate currentTime rnd w)
  end.

(** The state after [init]: nothing is running yet. *)
Definition initial : World :=
  mkWorld (mkGameState false false 0 10 3 false) newPlayer [] []
          (mkHealthBar 3 3 false) 0 0 [] [].

Definition run (cs : list Command) : World := fold_left step cs initial.

Definition reachable (w : World) : Prop := exists cs, w = run cs.

End Basic.

(** * The game of [src/client/three/game/enhanced-runner-game.ts] *)

Module Enhanced.

(** ** State *)

Record GameState : Type := mkGameState {
  isPlaying : bool;
  isPaused : bool;
  score : Z;
  speed : Q;
  lives : Z;
  gameOver : bool;
  theme : string
}.

Record EnhancedPlayer : Type := mkPlayer {
  position : Vector3;      (* mesh.position *)
  velocityY : Q;           (* velocity.y *)
  isGrounded : bool;
  currentLane : Z;
  targetX : Q
}.

Definition jumpForce : Q := 15.
Definition gravity : Q := -50.
Definition groundY : Q := 0.
Definition moveSpeed : Q := 8.

Inductive CollectibleType : Type := coin | diya | phooljhadi | rangoli.

Record DiwaliObstacle : Type := mkObstacle {
  omesh : Position;        (* mesh.position *)
  ovelocity : Q            (* velocity.z *)
}.

Record DiwaliCollectible : Type := mkCollectible {
  cmesh : Position;        (* mesh.position *)
  cvelocity : Q;           (* velocity.z *)
  ctype : option CollectibleType   (* type; None is undefined *)
}.

Record World : Type := mkWorld {
  player : EnhancedPlayer;
  obstacles : list DiwaliObstacle;
  collectibles : list DiwaliCollectible;
  gameState : GameState;
  spawnTimer : Q;
  spawnInterval : Q;
  disposedObstacles : list DiwaliObstacle;       (* log of obstacle.dispose() *)
  disposedCollectibles : list DiwaliCollectible  (* log of collectible.dispose() *)
}.

Definition setPlayer (p : EnhancedPlayer) (w : World) : World :=
  mkWorld p (obstacles w) (collectibles w) (gameState w) (spawnTimer w)
          (spawnInterval w) (disposedObstacles w) (disposedCollectibles w).

Definition setObstacles (os dis : list DiwaliObstacle) (w : World) : World :=
  mkWorld (player w) os (collectibles w) (gameState w) (spawnTimer w)
          (spawnInterval w) dis (disposedCollectibles w).

Definition setCollectibles (cs dis : list DiwaliCollectible) (w : World) : World :=
  mkWorld (player w) (obstacles w) cs (gameState w) (spawnTimer w)
          (spawnInterval w) (disposedObstacles w) dis.

Definition setGameState (g : GameState) (w : World) : World :=
  mkWorld (player w) (obstacles w) (collectibles w) g (spawnTimer w)
          (spawnInterval w) (disposedObstacles w) (disposedCollectibles w).

Definition setSpawnTimer (t : Q) (w : World) : World :=
  mkWorld (player w) (obstacles w) (collectibles w) (gameState w) t
          (spawnInterval w) (disposedObstacles w) (disposedCollectibles w).

Definition setSpawnInterval (t : Q) (w : World) : World :=
  mkWorld (player w) (obstacles w) (collectibles w) (gameState w) (spawnTimer w)
          t (disposedObstacles w) (disposedCollectibles w).

(** ** The player *)

(** [this.lanes[lane]!] for the assignment to [targetX]; inside the array
    for [0 <= lane <= 2] (see [enhanced_moves_ok]). *)
Definition laneTarget (lane : Z) : Q := default 0 (laneCoord (Some lane)).

Definition newPlayer : EnhancedPlayer :=
  mkPlayer (mkVector3 0 1 0) 0 true 1 0.

Definition jump (p : EnhancedPlayer) : EnhancedPlayer :=
  if isGrounded p
  then mkPlayer (position p) jumpForce false (currentLane p) (targetX p)
  else p.

Definition moveLeft (p : EnhancedPlayer) : EnhancedPlayer :=
  if (currentLane p >? 0)%Z
  then let lane := (currentLane p - 1)%Z in
       mkPlayer (position p) (velocityY p) (isGrounded p) lane (laneTarget lane)
  else p.

Definition moveRight (p : EnhancedPlayer) : EnhancedPlayer :=
  if (currentLane p <? Z.of_nat (length laneCoords) - 1)%Z
  then let lane := (currentLane p + 1)%Z in
       mkPlayer (position p) (velocityY p) (isGrounded p) lane (laneTarget lane)
  else p.

Definition playerUpdate (deltaTime : Q) (p : EnhancedPlayer) : EnhancedPlayer :=
  let pos := position p in
  (* Handle lane switching *)
  let dx := targetX p - vx pos in
  let x := if Qgtb (Qabs dx) 0.1 then vx pos + dx * moveSpeed * deltaTime
           else targetX p in
  (* Handle jumping and gravity *)
  if negb (isGrounded p)
  then let v := velocityY p + gravity * deltaTime in
       let y := vy pos + v * deltaTime in
       if Qle_bool y (groundY + 0.6)
       then mkPlayer (mkVector3 x (groundY + 0.6) (vz pos)) 0 true (currentLane p) (targetX p)
       else mkPlayer (mkVector3 x y (vz pos)) v false (currentLane p) (targetX p)
  else mkPlayer (mkVector3 x (vy pos) (vz pos)) (velocityY p) true (currentLane p) (targetX p).

(** ** Obstacles and collectibles *)

Definition obstacleUpdate (deltaTime : Q) (o : DiwaliObstacle) : DiwaliObstacle :=
  let m := omesh o in
  mkObstacle (mkPosition (posx m) (posy m) (posz m + ovelocity o * deltaTime)) (ovelocity o).

(** [sine] is the value of [Math.sin(Date.now() * 0.005 + z)] at this call. *)
Definition collectibleUpdate (deltaTime sine : Q) (c : DiwaliCollectible)
  : DiwaliCollectible :=
  let m := cmesh c in
  mkCollectible (mkPosition (posx m) (1 + sine * 0.2) (posz m + cvelocity c * deltaTime))
                (cvelocity c) (ctype c).

Definition getValue (c : DiwaliCollectible) : Z :=
  match ctype c with
  | Some coin => 10
  | Some diya => 25
  | Some phooljhadi => 15
  | Some rangoli => 30
  | None => 10
  end.

(** ** Starting, pausing and stopping *)

Definition clearGameObjects (w : World) : World :=
  mkWorld (player w) [] [] (gameState w) (spawnTimer w) (spawnInterval w)
          (disposedObstacles w ++ obstacles w)
          (disposedCollectibles w ++ collectibles w).

Definition startGame (w : World) : World :=
  let g := mkGameState true false 0 10 3 false (theme (gameState w)) in
  clearGameObjects (setSpawnTimer 0 (setGameState g w)).

Definition pauseGame (w : World) : World :=
  let g := gameState w in
  setGameState (mkGameState (isPlaying g) (negb (isPaused g)) (score g) (speed g)
                            (lives g) (gameOver g) (theme g)) w.

Definition stopGame (w : World) : World :=
  let g := gameState w in
  clearGameObjects
    (setGameState (mkGameState false (isPaused g) (score g) (speed g) (lives g)
                               true (theme g)) w).

(** ** Spawning *)

Inductive Spawn : Type :=
| SpawnObstacle (lane : option Z)
| SpawnCollectible (lane : Z) (type : option CollectibleType).

Definition types : list CollectibleType := [coin; diya; phooljhadi; rangoli].

(** [types[Math.floor(r * types.length)]]. *)
Definition pickType (r : Q) : option CollectibleType :=
  let i := Qfloor (r * inject_Z (Z.of_nat (length types))) in
  if (i <? 0)%Z then None else types !! Z.to_nat i.

(** [for (let i = 0; i < obstacleCount && availableLanes.length > 0; i++)],
    with [count] iterations left; [k] counts the calls of [Math.random()].
    The result is the obstacles created, the lanes left and the counter. *)
Fixpoint obstacleDecisions (rnd : nat -> Q) (k count : nat) (availableLanes : list Z)
  : list Spawn * list Z * nat :=
  match count with
  | O => ([], availableLanes, k)
  | S count' =>
      if (0 <? length availableLanes)%nat
      then
        let laneIndex := Qfloor (rnd k * inject_Z (Z.of_nat (length availableLanes))) in
        let '(lane, rest) := spliceOne laneIndex availableLanes in
        let '(ds, remaining, k') := obstacleDecisions rnd (S k) count' rest in
        (SpawnObstacle lane :: ds, remaining, k')
      else ([], availableLanes, k)
  end.

(** [availableLanes.forEach(lane => { if (Math.random() < 0.7) ... })].  The
    constructor of [DiwaliCollectible] draws a type of its own when the one
    it is given is [undefined]. *)
Fixpoint collectibleDecisions (rnd : nat -> Q) (k : nat) (availableLanes : list Z)
  : list Spawn :=
  match availableLanes with
  | [] => []
  | lane :: rest =>
      if Qltb (rnd k) 0.7
      then
        match pickType (rnd (S k)) with
        | Some t => SpawnCollectible lane (Some t) :: collectibleDecisions rnd (S (S k)) rest
        | None =>
            SpawnCollectible lane (pickType (rnd (S (S k))))
              :: collectibleDecisions rnd (S (S (S k))) rest
        end
      else collectibleDecisions rnd (S k) rest
  end.

Definition spawnDecisions (rnd : nat -> Q) : list Spawn :=
  let lanes := [0; 1; 2]%Z in
  let availableLanes := lanes in
  (* Spawn 1-2 obstacles *)
  let obstacleCount := if Qltb (rnd 0%nat) 0.6 then 1%nat else 2%nat in
  let '(ds, availableLanes, k) := obstacleDecisions rnd 1 obstacleCount availableLanes in
  (* Spawn Diwali collectibles in remaining lanes *)
  ds ++ collectibleDecisions rnd k availableLanes.

Definition create (w : World) (s : Spawn) : World :=
  match s with
  | SpawnObstacle lane =>
      let obstacle := mkObstacle (mkPosition (laneCoord lane) 0.75 (-50))
                                 (speed (gameState w)) in
      setObstacles (obstacles w ++ [obstacle]) (disposedObstacles w) w
  | SpawnCollectible lane type =>
      let collectible := mkCollectible (mkPosition (laneCoord (Some lane)) 1 (-50))
                                       (speed (gameState w)) type in
      setCollectibles (collectibles w ++ [collectible]) (disposedCollectibles w) w
  end.

Definition spawnObjects (rnd : nat -> Q) (w : World) : World :=
  fold_left create (spawnDecisions rnd) w.

(** ** Collisions *)

Definition loseLife (i : nat) (obstacle : DiwaliObstacle) (w : World) : World :=
  let g := gameState w in
  let w := setGameState
             (mkGameState (isPlaying g) (isPaused g) (score g) (speed g)
                          (lives g - 1) (gameOver g) (theme g)) w in
  setObstacles (delete i (obstacles w)) (disposedObstacles w ++ [obstacle]) w.

(** [for (let i = this.obstacles.length - 1; i >= 0; i--) ...], entered
    with [i + 1 = n].  The loop goes on after [stopGame()]; [this.obstacles]
    is read anew at each iteration. *)
Fixpoint checkObstacles (n : nat) (w : World) : Completion World :=
  match n with
  | O => Normal w
  | S i =>
      match obstacles w !! i with
      | None => Throw w
      | Some obstacle =>
          if closerThan 1 (position (player w)) (omesh obstacle)
          then
            (* Collision detected *)
            let w := loseLife i obstacle w in
            let w := if (lives (gameState w) <=? 0)%Z then stopGame w else w in
            checkObstacles i w
          else checkObstacles i w
      end
  end.

Definition pickUp (i : nat) (collectible : DiwaliCollectible) (w : World) : World :=
  let g := gameState w in
  let value := getValue collectible in
  let w := setGameState
             (mkGameState (isPlaying g) (isPaused g) (score g + value) (speed g)
                          (lives g) (gameOver g) (theme g)) w in
  setCollectibles (delete i (collectibles w)) (disposedCollectibles w ++ [collectible]) w.

Fixpoint checkCollectibles (n : nat) (w : World) : Completion World :=
  match n with
  | O => Normal w
  | S i =>
      match collectibles w !! i with
      | None => Throw w
      | Some collectible =>
          if closerThan 0.8 (position (player w)) (cmesh collectible)
          then checkCollectibles i (pickUp i collectible w)
          else checkCollectibles i w
      end
  end.

Definition checkCollisions (w : World) : Completion World :=
  match checkObstacles (length (obstacles w)) w with
  | Normal w => checkCollectibles (length (collectibles w)) w
  | Throw w => Throw w
  end.

(** ** The per-frame update *)

Definition cullObstacles (deltaTime : Q) (w : World) : Completion World :=
  match reverseCull (fun _ => obstacleUpdate deltaTime) (fun o => posz (omesh o))
                    (length (obstacles w)) (obstacles w) (disposedObstacles w) with
  | Normal (os, dis) => Normal (setObstacles os dis w)
  | Throw (os, dis) => Throw (setObstacles os dis w)
  end.

(** [sine i] is the value of [Math.sin(Date.now() * 0.005 + z)] in the
    update of the collectible at index [i]. *)
Definition cullCollectibles (deltaTime : Q) (sine : nat -> Q) (w : World)
  : Completion World :=
  match reverseCull (fun i => collectibleUpdate deltaTime (sine i))
                    (fun c => posz (cmesh c))
                    (length (collectibles w)) (collectibles w) (disposedCollectibles w) with
  | Normal (cs, dis) => Normal (setCollectibles cs dis w)
  | Throw (cs, dis) => Throw (setCollectibles cs dis w)
  end.

Definition addSpeed (d : Q) (w : World) : World :=
  let g := gameState w in
  setGameState (mkGameState (isPlaying g) (isPaused g) (score g) (speed g + d)
                            (lives g) (gameOver g) (theme g)) w.

Definition addScore (d : Z) (w : World) : World :=
  let g := gameState w in
  setGameState (mkGameState (isPlaying g) (isPaused g) (score g + d) (speed g)
                            (lives g) (gameOver g) (theme g)) w.

(** [Math.max(a, b)]. *)
Definition max (a b : Q) : Q := if Qle_bool a b then b else a.

(** The block [this.spawnTimer += deltaTime; if (this.spawnTimer >=
    this.spawnInterval) ...]. *)
Definition spawnPhase (deltaTime : Q) (rnd : nat -> Q) (w : World) : World :=
  let w := setSpawnTimer (spawnTimer w + deltaTime) w in
  if Qgeb (spawnTimer w) (spawnInterval w)
  then
    let w := setSpawnTimer 0 (spawnObjects rnd w) in
    (* Gradually increase speed and decrease spawn interval *)
    let w := addSpeed 0.1 w in
    setSpawnInterval (max 1.2 (spawnInterval w - 0.02)) w
  else w.

(** [c >>= f]: go on with [f] unless [c] threw. *)
Definition andThen (c : Completion World) (f : World -> Completion World)
  : Completion World :=
  match c with
  | Normal w => f w
  | Throw w => Throw w
  end.

Definition update (deltaTime : Q) (rnd sine : nat -> Q) (w : World)
  : Completion World :=
  if negb (isPlaying (gameState w)) || isPaused (gameState w)
  then Normal w
  else
    (* Update player *)
    let w := setPlayer (playerUpdate deltaTime (player w)) w in
    andThen (cullObstacles deltaTime w) (fun w =>
    andThen (cullCollectibles deltaTime sine w) (fun w =>
    (* Spawn new objects *)
    let w := spawnPhase deltaTime rnd w in
    (* Check collisions *)
    andThen (checkCollisions w) (fun w =>
    (* Update score based on time survived *)
    Normal (addScore (Qfloor (deltaTime * 5)) w)))).

(** ** Input and runs *)

Inductive Command : Type :=
| Start | Pause | Stop | Dispose          (* the public methods *)
| Jump | Left | Right                     (* a key or a touch, as decoded by the listeners *)
| Update (deltaTime : Q) (rnd sine : nat -> Q).

(** The listeners of [setupControls] ignore input unless a game is running
    and not paused. *)
Definition control (f : EnhancedPlayer -> EnhancedPlayer) (w : World) : World :=
  if negb (isPlaying (gameState w)) || isPaused (gameState w)
  then w
  else setPlayer (f (player w)) w.

Definition step (w : World) (c : Command) : World :=
  match c with
  | Start => startGame w
  | Pause => pauseGame w
  | Stop => stopGame w
  | Dispose => clearGameObjects w
  | Jump => control jump w
  | Left => control moveLeft w
  | Right => control moveRight w
  | Update deltaTime rnd sine => stateOf (update deltaTime rnd sine w)
  end.

(** The state of a game object: the field initialisers and the assignments
    of the constructor.  (As written the constructor calls [setupScene()],
    which reads [this.player.mesh], before it assigns [this.player]: see
    [newGame] below.  The runs of this model start from the fields as the
    class declares them.) *)
Definition initial : World :=
  mkWorld newPlayer [] [] (mkGameState false false 0 10 3 false "diwali-night")
          0 2 [] [].

Definition run (cs : list Command) : World := fold_left step cs initial.

Definition reachable (w : World) : Prop := exists cs, w = run cs.

(** ** The constructor as written *)




End Enhanced.

(** * The spawn timer of the basic game in binary64 *)

(** The clock and the spawn block of [animate] in a running game in which
    nothing collides, with the numbers the program has: IEEE 754 binary64.
    [cycles] counts the calls of [spawnObjects()]. *)
Module Double.

Record Clock : Type := mkClock {
  lastTime : float;
  spawnTimer : float;
  speed : float;
  cycles : nat
}.

Definition spawnInterval : float := 2.5%float.

(** The state after [startGame()], the frame loop having last run at
    [lastTime]. *)
Definition startGame (lastTime : float) : Clock :=
  mkClock lastTime 0%float 10%float 0.

Definition animate (c : Clock) (currentTime : float) : Clock :=
  let deltaTime := PrimFloat.div (PrimFloat.sub currentTime (lastTime c)) 1000%float in
  (* Spawn objects *)
  let spawnTimer := PrimFloat.add (spawnTimer c) deltaTime in
  if PrimFloat.leb spawnInterval spawnTimer
  then mkClock currentTime 0%float (PrimFloat.add (speed c) 0.1%float) (S (cycles c))
  else mkClock currentTime spawnTimer (speed c) (cycles c).

End Double.

(** * Auxiliary definitions for the statements *)

(** ** Sequences of lane changes *)

Inductive Move : Type := MoveLeft | MoveRight.

Definition basicMove (p : Basic.Player) (m : Move) : Basic.Player :=
  match m with
  | MoveLeft => Basic.moveLeft p
  | MoveRight => Basic.moveRight p
  end.

Definition enhancedMove (p : Enhanced.EnhancedPlayer) (m : Move)
  : Enhanced.EnhancedPlayer :=
  match m with
  | MoveLeft => Enhanced.moveLeft p
  | MoveRight => Enhanced.moveRight p
  end.

(** The lane is a valid index and [targetX] is the coordinate of the lane. *)
Definition basicLaneOk (p : Basic.Player) : Prop :=
  (0 <= Basic.currentLane p <= Z.of_nat (length laneCoords) - 1)%Z
  /\ laneCoord (Some (Basic.currentLane p)) = Some (Basic.targetX p).

Definition enhancedLaneOk (p : Enhanced.EnhancedPlayer) : Prop :=
  (0 <= Enhanced.currentLane p <= Z.of_nat (length laneCoords) - 1)%Z
  /\ laneCoord (Some (Enhanced.currentLane p)) = Some (Enhanced.targetX p).

(** ** Sample states *)

Definition idleBasic : Basic.World :=
  Basic.mkWorld (Basic.mkGameState false false 7 10.3 0 true) Basic.newPlayer
                [Basic.mkObstacle (mkPosition (Some 2) 0.75 (-20)) 10.2] []
                (Basic.mkHealthBar 3 0 false) 1.5 4000 [] [].

Definition pausedEnhanced : Enhanced.World :=
  Enhanced.mkWorld Enhanced.newPlayer
                   [Enhanced.mkObstacle (mkPosition (Some 0) 0.75 (-3)) 10] []
                   (Enhanced.mkGameState true true 5 10 2 false "diwali-night")
                   0.5 2 [] [].


(** ** Entities in play *)

(** An entity is in play when its [z] is not beyond the despawn threshold:
    the test [position.z > 10] of the culling loops fails for it. *)
Definition inPlay (z : Q) : bool := negb (Qgtb z 10).

(** ** What a collision scan of the basic game leaves alone *)

(** [w'] differs from [w] at most by lives lost, the health shown, the
    obstacles removed and their disposal, and the flags. *)
Definition basicScanFrame (w w' : Basic.World) : Prop :=
  Basic.player w' = Basic.player w
  /\ Basic.collectibles w' = Basic.collectibles w
  /\ Basic.disposedCollectibles w' = Basic.disposedCollectibles w
  /\ Basic.spawnTimer w' = Basic.spawnTimer w
  /\ Basic.lastTime w' = Basic.lastTime w
  /\ Basic.score (Basic.gameState w') = Basic.score (Basic.gameState w)
  /\ Basic.speed (Basic.gameState w') = Basic.speed (Basic.gameState w)
  /\ Basic.isPaused (Basic.gameState w') = Basic.isPaused (Basic.gameState w)
  /\ (Basic.lives (Basic.gameState w') <= Basic.lives (Basic.gameState w))%Z
  /\ (forall o, In o (Basic.obstacles w') -> In o (Basic.obstacles w)).

(** The health bar shows the lives, which are between 0 and 3. *)
Definition basicHealthOk (w : Basic.World) : Prop :=
  Basic.maxHealth (Basic.healthBar w) = 3%Z
  /\ Basic.currentHealth (Basic.healthBar w) = Basic.lives (Basic.gameState w)
  /\ (0 <= Basic.lives (Basic.gameState w) <= 3)%Z.

(** [w'] differs from [w] at most by score gained and the collectibles
    removed and their disposal. *)
Definition basicPickFrame (w w' : Basic.World) : Prop :=
  Basic.player w' = Basic.player w
  /\ Basic.obstacles w' = Basic.obstacles w
  /\ Basic.disposedObstacles w' = Basic.disposedObstacles w
  /\ Basic.healthBar w' = Basic.healthBar w
  /\ Basic.spawnTimer w' = Basic.spawnTimer w
  /\ Basic.lastTime w' = Basic.lastTime w
  /\ Basic.isPlaying (Basic.gameState w') = Basic.isPlaying (Basic.gameState w)
  /\ Basic.gameOver (Basic.gameState w') = Basic.gameOver (Basic.gameState w)
  /\ Basic.isPaused (Basic.gameState w') = Basic.isPaused (Basic.gameState w)
  /\ Basic.speed (Basic.gameState w') = Basic.speed (Basic.gameState w)
  /\ Basic.lives (Basic.gameState w') = Basic.lives (Basic.gameState w)
  /\ (Basic.score (Basic.gameState w) <= Basic.score (Basic.gameState w'))%Z
  /\ (forall c, In c (Basic.collectibles w') -> In c (Basic.collectibles w)).

(** ** The entities a spawn tick creates *)

Definition basicNewObstacles (speed : Q) (ds : list Basic.Spawn) : list Basic.Obstacle :=
  flat_map (fun s => match s with
                     | Basic.SpawnObstacle lane =>
                         [Basic.mkObstacle (mkPosition (laneCoord lane) 0.75 (-50)) speed]
                     | Basic.SpawnCollectible _ => []
                     end) ds.

Definition basicNewCollectibles (speed : Q) (ds : list Basic.Spawn)
  : list Basic.Collectible :=
  flat_map (fun s => match s with
                     | Basic.SpawnObstacle _ => []
                     | Basic.SpawnCollectible lane =>
                         [Basic.mkCollectible (mkPosition (laneCoord (Some lane)) 1 (-50))
                                              speed]
                     end) ds.

Definition enhancedNewObstacles (speed : Q) (ds : list Enhanced.Spawn)
  : list Enhanced.DiwaliObstacle :=
  flat_map (fun s => match s with
                     | Enhanced.SpawnObstacle lane =>
                         [Enhanced.mkObstacle (mkPosition (laneCoord lane) 0.75 (-50)) speed]
                     | Enhanced.SpawnCollectible _ _ => []
                     end) ds.

Definition enhancedNewCollectibles (speed : Q) (ds : list Enhanced.Spawn)
  : list Enhanced.DiwaliCollectible :=
  flat_map (fun s => match s with
                     | Enhanced.SpawnObstacle _ => []
                     | Enhanced.SpawnCollectible lane type =>
                         [Enhanced.mkCollectible
                            (mkPosition (laneCoord (Some lane)) 1 (-50)) speed type]
                     end) ds.

(** ** Invariants of the reachable states *)

Definition basicInv (w : Basic.World) : Prop :=
  basicHealthOk w
  /\ (Basic.playing w = true -> (1 <= Basic.lives (Basic.gameState w))%Z)
  /\ vz (Basic.position (Basic.player w)) = 0
  /\ basicLaneOk (Basic.player w)
  /\ Forall (fun o => inPlay (posz (Basic.omesh o)) = true) (Basic.obstacles w)
  /\ Forall (fun c => inPlay (posz (Basic.cmesh c)) = true) (Basic.collectibles w).

(** The state of a basic frame when [checkCollisions] is called. *)
Definition basicBeforeCollisions (deltaTime : Q) (rnd : nat -> Q) (w : Basic.World)
  : Basic.World :=
  Basic.spawnPhase deltaTime rnd
    (Basic.cullCollectibles deltaTime
       (Basic.cullObstacles deltaTime
          (Basic.setPlayer (Basic.playerUpdate deltaTime (Basic.player w)) w))).

(** ** The outcome of a traversal that visits every element once *)

(** Every element updated once, with the index it had on entry. *)
Definition allUpdated {A : Type} (upd : nat -> A -> A) (arr : list A) : list A :=
  imap upd arr.

(** Of the updated elements, those still in play and those past the
    threshold. *)
Definition kept {A : Type} (zof : A -> Q) (arr : list A) : list A :=
  List.filter (fun a => inPlay (zof a)) arr.

Definition culled {A : Type} (zof : A -> Q) (arr : list A) : list A :=
  List.filter (fun a => Qgtb (zof a) 10) arr.

(** ** What the collision scans of the enhanced game leave alone *)

Definition enhancedScanFrame (w w' : Enhanced.World) : Prop :=
  Enhanced.player w' = Enhanced.player w
  /\ Enhanced.spawnTimer w' = Enhanced.spawnTimer w
  /\ Enhanced.spawnInterval w' = Enhanced.spawnInterval w
  /\ Enhanced.score (Enhanced.gameState w') = Enhanced.score (Enhanced.gameState w)
  /\ Enhanced.speed (Enhanced.gameState w') = Enhanced.speed (Enhanced.gameState w)
  /\ Enhanced.isPaused (Enhanced.gameState w') = Enhanced.isPaused (Enhanced.gameState w)
  /\ Enhanced.theme (Enhanced.gameState w') = Enhanced.theme (Enhanced.gameState w)
  /\ (Enhanced.lives (Enhanced.gameState w') <= Enhanced.lives (Enhanced.gameState w))%Z
  /\ (forall o, In o (Enhanced.obstacles w') -> In o (Enhanced.obstacles w))
  /\ (forall c, In c (Enhanced.collectibles w') -> In c (Enhanced.collectibles w)).

(** During the obstacle loop the game is either running with a life left, or
    it has just been stopped: no life left and both collections cleared. *)
Definition enhancedScanOk (w : Enhanced.World) : Prop :=
  (Enhanced.isPlaying (Enhanced.gameState w) = true
   /\ (1 <= Enhanced.lives (Enhanced.gameState w))%Z)
  \/ (Enhanced.isPlaying (Enhanced.gameState w) = false
      /\ Enhanced.gameOver (Enhanced.gameState w) = true
      /\ Enhanced.lives (Enhanced.gameState w) = 0%Z
      /\ Enhanced.obstacles w = []
      /\ Enhanced.collectibles w = []).

Definition enhancedPickFrame (w w' : Enhanced.World) : Prop :=
  Enhanced.player w' = Enhanced.player w
  /\ Enhanced.obstacles w' = Enhanced.obstacles w
  /\ Enhanced.disposedObstacles w' = Enhanced.disposedObstacles w
  /\ Enhanced.spawnTimer w' = Enhanced.spawnTimer w
  /\ Enhanced.spawnInterval w' = Enhanced.spawnInterval w
  /\ Enhanced.isPlaying (Enhanced.gameState w') = Enhanced.isPlaying (Enhanced.gameState w)
  /\ Enhanced.gameOver (Enhanced.gameState w') = Enhanced.gameOver (Enhanced.gameState w)
  /\ Enhanced.isPaused (Enhanced.gameState w') = Enhanced.isPaused (Enhanced.gameState w)
  /\ Enhanced.speed (Enhanced.gameState w') = Enhanced.speed (Enhanced.gameState w)
  /\ Enhanced.lives (Enhanced.gameState w') = Enhanced.lives (Enhanced.gameState w)
  /\ (Enhanced.score (Enhanced.gameState w) <= Enhanced.score (Enhanced.gameState w'))%Z
  /\ (forall c, In c (Enhanced.collectibles w') -> In c (Enhanced.collectibles w)).

Definition enhancedInv (w : Enhanced.World) : Prop :=
  (0 <= Enhanced.lives (Enhanced.gameState w) <= 3)%Z
  /\ (Enhanced.isPlaying (Enhanced.gameState w) = true ->
      (1 <= Enhanced.lives (Enhanced.gameState w))%Z
      /\ Enhanced.gameOver (Enhanced.gameState w) = false)
  /\ vz (Enhanced.position (Enhanced.player w)) = 0
  /\ enhancedLaneOk (Enhanced.player w)
  /\ Forall (fun o => inPlay (posz (Enhanced.omesh o)) = true) (Enhanced.obstacles w)
  /\ Forall (fun c => inPlay (posz (Enhanced.cmesh c)) = true) (Enhanced.collectibles w).

(** The state of an enhanced [update] when [checkCollisions] is called:
    every obstacle and collectible has been updated once, the ones past the
    threshold are disposed, and the spawn block has run. *)
Definition enhancedBeforeCollisions (deltaTime : Q) (rnd sine : nat -> Q)
           (w : Enhanced.World) : Enhanced.World :=
  let os := allUpdated (fun _ => Enhanced.obstacleUpdate deltaTime) (Enhanced.obstacles w) in
  let cs := allUpdated (fun i => Enhanced.collectibleUpdate deltaTime (sine i))
                       (Enhanced.collectibles w) in
  Enhanced.spawnPhase deltaTime rnd
    (Enhanced.mkWorld
       (Enhanced.playerUpdate deltaTime (Enhanced.player w))
       (kept (fun o => posz (Enhanced.omesh o)) os)
       (kept (fun c => posz (Enhanced.cmesh c)) cs)
       (Enhanced.gameState w) (Enhanced.spawnTimer w) (Enhanced.spawnInterval w)
       (Enhanced.disposedObstacles w ++ rev (culled (fun o => posz (Enhanced.omesh o)) os))
       (Enhanced.disposedCollectibles w
          ++ rev (culled (fun c => posz (Enhanced.cmesh c)) cs))).

(** ** Lives across a frame *)

(** From [b] to [b'], in the basic game: no life is gained, the lives and
    the hearts shown are not negative, and if the game was running and no
    longer is, it is over with exactly 0 lives. *)
Definition basicLivesStep (b b' : Basic.World) : Prop :=
  (Basic.lives (Basic.gameState b') <= Basic.lives (Basic.gameState b))%Z
  /\ (0 <= Basic.lives (Basic.gameState b'))%Z
  /\ (0 <= Basic.currentHealth (Basic.healthBar b'))%Z
  /\ (Basic.playing b = true -> Basic.playing b' = false ->
      Basic.lives (Basic.gameState b') = 0%Z
      /\ Basic.isPlaying (Basic.gameState b') = false
      /\ Basic.gameOver (Basic.gameState b') = true).

(** The same from [e] to [e'] in the enhanced game, where a running game is
    one with [isPlaying] set. *)
Definition enhancedLivesStep (e e' : Enhanced.World) : Prop :=
  (Enhanced.lives (Enhanced.gameState e') <= Enhanced.lives (Enhanced.gameState e))%Z
  /\ (0 <= Enhanced.lives (Enhanced.gameState e'))%Z
  /\ (Enhanced.isPlaying (Enhanced.gameState e) = true ->
      Enhanced.isPlaying (Enhanced.gameState e') = false ->
      Enhanced.lives (Enhanced.gameState e') = 0%Z
      /\ Enhanced.gameOver (Enhanced.gameState e') = true).

(** Runs in which no game is started or restarted. *)
Definition basicNoStart (cs : list Basic.Command) : bool :=
  forallb (fun c => match c with Basic.Start => false | _ => true end) cs.

Definition enhancedNoStart (cs : list Enhanced.Command) : bool :=
  forallb (fun c => match c with Enhanced.Start => false | _ => true end) cs.

(** ** A basic run in which the forward traversal removes an obstacle *)

(** The values of [Math.random()] in each spawn tick of the run: an obstacle
    in lane 0 and no collectible. *)
Definition obstacleInLaneZero (k : nat) : Q :=
  match k with
  | 0%nat => 0      (* < 0.7: an obstacle *)
  | 1%nat => 0      (* Math.floor(0 * 3) = 0: lane 0 *)
  | _ => 0.9        (* >= 0.6: no collectible *)
  end.

(** [n] frames, 100 ms apart. *)
Definition tenFramesPerSecond (n : nat) : list Basic.Command :=
  map (fun i => Basic.Frame (100 * inject_Z (Z.of_nat i)) obstacleInLaneZero) (seq 1 n).

(** 8.5 s into a game: three obstacles, the oldest one just short of the
    despawn threshold. *)
Definition beforeFirstCull : Basic.World :=
  Basic.run (Basic.Start :: tenFramesPerSecond 85).

(** ** An enhanced run that ends on the last life *)

(** The values of [Math.random()] in each spawn tick of the run: two
    obstacles, in lanes 0 and 1, and no collectible in lane 2. *)
Definition obstaclesInLanesZeroOne (k : nat) : Q :=
  match k with
  | 0%nat => 0.9    (* >= 0.6: two obstacles *)
  | 1%nat => 0      (* Math.floor(0 * 3) = 0: lane 0 of [0, 1, 2] *)
  | 2%nat => 0      (* Math.floor(0 * 2) = 0: lane 1 of [1, 2] *)
  | _ => 0.9        (* >= 0.7: no collectible *)
  end.

Definition noSine (i : nat) : Q := 0.

(** 10.8 s into a game played without a move, in frames of 100 ms: the
    player has been hit twice and the next pair of obstacles arrives. *)
Definition onLastLife : Enhanced.World :=
  Enhanced.run
    (Enhanced.Start :: repeat (Enhanced.Update 0.1 obstaclesInLanesZeroOne noSine) 108).

(** ** A basic run that ends on the last life *)

(** The values of [Math.random()] in each spawn tick of the run: one
    obstacle, in the middle lane, and no collectible. *)
Definition obstacleInLaneOne (k : nat) : Q :=
  match k with
  | 0%nat => 0      (* < 0.7: an obstacle *)
  | 1%nat => 0.4    (* Math.floor(0.4 * 3) = 1: lane 1 *)
  | _ => 0.9        (* >= 0.6: no collectible *)
  end.

(** 12.3 s into a game played without a move, in frames of 100 ms: the
    player has been hit twice and the third obstacle arrives. *)
Definition basicOnLastLife : Basic.World :=
  Basic.run
    (Basic.Start
       :: map (fun i => Basic.Frame (100 * inject_Z (Z.of_nat i)) obstacleInLaneOne)
              (seq 1 123)).

(** ** The hit that takes the last life *)

(** The obstacle loop of [checkCollisions], started in [w], has come down
    to index [i] in state [v]: the obstacles at the indices up to [i] are
    still those of [w], and the obstacle [o] at index [i] is within reach
    of a player on the last life. *)
Definition basicFatalHit (w : Basic.World) (i : nat) (o : Basic.Obstacle)
           (v : Basic.World) : Prop :=
  Basic.obstacles v !! i = Some o
  /\ closerThan 1.0 (Basic.position (Basic.player v)) (Basic.omesh o) = true
  /\ (Basic.lives (Basic.gameState v) <= 1)%Z
  /\ take (S i) (Basic.obstacles v) = take (S i) (Basic.obstacles w)
  /\ basicScanFrame w v.

Definition enhancedFatalHit (w : Enhanced.World) (i : nat) (o : Enhanced.DiwaliObstacle)
           (v : Enhanced.World) : Prop :=
  Enhanced.obstacles v !! i = Some o
  /\ closerThan 1 (Enhanced.position (Enhanced.player v)) (Enhanced.omesh o) = true
  /\ (Enhanced.lives (Enhanced.gameState v) <= 1)%Z
  /\ take (S i) (Enhanced.obstacles v) = take (S i) (Enhanced.obstacles w)
  /\ Enhanced.collectibles v = Enhanced.collectibles w
  /\ Enhanced.disposedCollectibles v = Enhanced.disposedCollectibles w
  /\ enhancedScanFrame w v.

(** ** The spawn block in the order the specification gives *)

(** The specification's wording of the spawn block of the basic game:
    accumulate [deltaTime]; when the timer has reached the interval, reset
    the timer to 0 and increase the speed by the increment, then create
    the tick's entities. *)
Definition basicSpawnPhaseAsSpecified (deltaTime : Q) (rnd : nat -> Q) (w : Basic.World)
  : Basic.World :=
  let w := Basic.setSpawnTimer (Basic.spawnTimer w + deltaTime) w in
  if Qgeb (Basic.spawnTimer w) Basic.spawnInterval
  then Basic.spawnObjects rnd (Basic.addSpeed 0.1 (Basic.setSpawnTimer 0 w))
  else w.

(** The same wording for the spawn block of the enhanced game. *)
Definition enhancedSpawnPhaseAsSpecified (deltaTime : Q) (rnd : nat -> Q)
           (w : Enhanced.World) : Enhanced.World :=
  let w := Enhanced.setSpawnTimer (Enhanced.spawnTimer w + deltaTime) w in
  if Qgeb (Enhanced.spawnTimer w) (Enhanced.spawnInterval w)
  then
    let w := Enhanced.addSpeed 0.1 (Enhanced.setSpawnTimer 0 w) in
    let w := Enhanced.setSpawnInterval
               (Enhanced.max 1.2 (Enhanced.spawnInterval w - 0.02)) w in
    Enhanced.spawnObjects rnd w
  else w.

(** ** Sequences of frames *)

Definition total (dts : list Q) : Q := fold_right Qplus 0 dts.

(** A game that has just been started and has spawned nothing yet; [t] is
    the time accumulated in the spawn timer. *)
Definition basicFresh (t : Q) (w : Basic.World) : Prop :=
  Basic.playing w = true
  /\ Basic.lives (Basic.gameState w) = 3%Z
  /\ Basic.speed (Basic.gameState w) = 10
  /\ Basic.obstacles w = []
  /\ Basic.collectibles w = []
  /\ vz (Basic.position (Basic.player w)) = 0
  /\ Basic.spawnTimer w == t.

(** The spawn interval of the enhanced game stays between 1.2 s and the
    2 s it starts with. *)
Definition enhancedIntervalOk (w : Enhanced.World) : Prop :=
  1.2 <= Enhanced.spawnInterval w /\ Enhanced.spawnInterval w <= 2.

(** What the spawn block of a frame does to the timer, the speed and the
    collections, from [w] to [w']: either the tick's entities are created,
    at the speed of [w], the timer is reset and the speed raised, or the
    timer only accumulates [d]. *)
Definition basicSpawnBlock (d : Q) (rnd : nat -> Q) (w w' : Basic.World) : Prop :=
  let ds := Basic.spawnDecisions rnd in
  let v := Basic.speed (Basic.gameState w) in
  if Qgeb (Basic.spawnTimer w + d) Basic.spawnInterval
  then Basic.spawnTimer w' = 0
       /\ Basic.speed (Basic.gameState w') = v + 0.1
       /\ Basic.obstacles w' = Basic.obstacles w ++ basicNewObstacles v ds
       /\ Basic.collectibles w' = Basic.collectibles w ++ basicNewCollectibles v ds
  else Basic.spawnTimer w' = Basic.spawnTimer w + d
       /\ Basic.speed (Basic.gameState w') = v
       /\ Basic.obstacles w' = Basic.obstacles w
       /\ Basic.collectibles w' = Basic.collectibles w.

Definition enhancedSpawnBlock (d : Q) (rnd : nat -> Q) (w w' : Enhanced.World) : Prop :=
  let ds := Enhanced.spawnDecisions rnd in
  let v := Enhanced.speed (Enhanced.gameState w) in
  if Qgeb (Enhanced.spawnTimer w + d) (Enhanced.spawnInterval w)
  then Enhanced.spawnTimer w' = 0
       /\ Enhanced.speed (Enhanced.gameState w') = v + 0.1
       /\ Enhanced.spawnInterval w' = Enhanced.max 1.2 (Enhanced.spawnInterval w - 0.02)
       /\ Enhanced.obstacles w' = Enhanced.obstacles w ++ enhancedNewObstacles v ds
       /\ Enhanced.collectibles w'
          = Enhanced.collectibles w ++ enhancedNewCollectibles v ds
  else Enhanced.spawnTimer w' = Enhanced.spawnTimer w + d
       /\ Enhanced.speed (Enhanced.gameState w') = v
       /\ Enhanced.spawnInterval w' = Enhanced.spawnInterval w
       /\ Enhanced.obstacles w' = Enhanced.obstacles w
       /\ Enhanced.collectibles w' = Enhanced.collectibles w.

(** A game after exactly one spawn tick from its start, the tick drawn
    with [rnd]: the entities of that tick, moving at the base speed, the
    speed raised once, the timer back at 0, no life lost. *)
Definition basicAfterOneTick (rnd : nat -> Q) (w : Basic.World) : Prop :=
  Basic.speed (Basic.gameState w) = 10 + 0.1
  /\ Basic.spawnTimer w = 0
  /\ Basic.lives (Basic.gameState w) = 3%Z
  /\ Basic.playing w = true
  /\ Basic.obstacles w = basicNewObstacles 10 (Basic.spawnDecisions rnd)
  /\ Basic.collectibles w = basicNewCollectibles 10 (Basic.spawnDecisions rnd).

Definition enhancedAfterOneTick (rnd : nat -> Q) (w : Enhanced.World) : Prop :=
  Enhanced.speed (Enhanced.gameState w) = 10 + 0.1
  /\ Enhanced.spawnTimer w = 0
  /\ Enhanced.lives (Enhanced.gameState w) = 3%Z
  /\ Enhanced.isPlaying (Enhanced.gameState w) = true
  /\ Enhanced.obstacles w = enhancedNewObstacles 10 (Enhanced.spawnDecisions rnd)
  /\ Enhanced.collectibles w = enhancedNewCollectibles 10 (Enhanced.spawnDecisions rnd).

(** * Auxiliary definitions for the further properties *)

(** ** Sample states of running games *)

Definition runningBasic : Basic.World :=
  Basic.mkWorld (Basic.mkGameState true false 40 10.2 2 false)
                (Basic.mkPlayer (mkVector3 0 0.6 0) 0 1 0 true)
                [Basic.mkObstacle (mkPosition (Some 2) 0.75 (-20)) 10.2;
                 Basic.mkObstacle (mkPosition (Some 0) 0.75 0.25) 10.1]
                [Basic.mkCollectible (mkPosition (Some 0) 1 0.5) 10.1;
                 Basic.mkCollectible (mkPosition (Some (-2)) 1 0) 10.1]
                (Basic.mkHealthBar 3 2 true) 0.4 9000 [] [].

Definition runningEnhanced : Enhanced.World :=
  Enhanced.mkWorld (Enhanced.mkPlayer (mkVector3 0 0.6 0) 0 true 1 0)
                   [Enhanced.mkObstacle (mkPosition (Some 2) 0.75 (-20)) 10.2;
                    Enhanced.mkObstacle (mkPosition (Some 0) 0.75 0.25) 10.1]
                   [Enhanced.mkCollectible (mkPosition (Some 0) 1 0.5) 10.1 (Some Enhanced.diya);
                    Enhanced.mkCollectible (mkPosition (Some (-2)) 1 0) 10.1
                                           (Some Enhanced.rangoli)]
                   (Enhanced.mkGameState true false 40 10.2 2 false "diwali-night")
                   0.4 1.96 [] [].

(** ** The outcome of the collision scans *)

(** The basic game after the obstacles [hits] (in the order they were hit)
    have each cost a life and been disposed, [kept] being the obstacles
    left. *)
Definition basicAfterHits (hits kept : list Basic.Obstacle) (w : Basic.World)
  : Basic.World :=
  let g := Basic.gameState w in
  Basic.mkWorld
    (Basic.mkGameState (Basic.isPlaying g) (Basic.isPaused g) (Basic.score g) (Basic.speed g)
                       (Basic.lives g - Z.of_nat (length hits)) (Basic.gameOver g))
    (Basic.player w) kept (Basic.collectibles w)
    (Nat.iter (length hits) (Basic.takeDamage 1) (Basic.healthBar w))
    (Basic.spawnTimer w) (Basic.lastTime w)
    (Basic.disposedObstacles w ++ hits) (Basic.disposedCollectibles w).

(** The basic game after the collectibles [picked] (in the order they were
    picked) have each added 10 to the score and been disposed. *)
Definition basicAfterPickups (picked kept : list Basic.Collectible) (w : Basic.World)
  : Basic.World :=
  let g := Basic.gameState w in
  Basic.mkWorld
    (Basic.mkGameState (Basic.isPlaying g) (Basic.isPaused g)
                       (Basic.score g + 10 * Z.of_nat (length picked)) (Basic.speed g)
                       (Basic.lives g) (Basic.gameOver g))
    (Basic.player w) (Basic.obstacles w) kept (Basic.healthBar w)
    (Basic.spawnTimer w) (Basic.lastTime w)
    (Basic.disposedObstacles w) (Basic.disposedCollectibles w ++ picked).

Definition enhancedAfterHits (hits kept : list Enhanced.DiwaliObstacle) (w : Enhanced.World)
  : Enhanced.World :=
  let g := Enhanced.gameState w in
  Enhanced.mkWorld
    (Enhanced.player w) kept (Enhanced.collectibles w)
    (Enhanced.mkGameState (Enhanced.isPlaying g) (Enhanced.isPaused g) (Enhanced.score g)
                          (Enhanced.speed g) (Enhanced.lives g - Z.of_nat (length hits))
                          (Enhanced.gameOver g) (Enhanced.theme g))
    (Enhanced.spawnTimer w) (Enhanced.spawnInterval w)
    (Enhanced.disposedObstacles w ++ hits) (Enhanced.disposedCollectibles w).

(** The sum of the values of collectibles. *)
Definition totalValue (cs : list Enhanced.DiwaliCollectible) : Z :=
  fold_right (fun c s => (Enhanced.getValue c + s)%Z) 0%Z cs.

Definition enhancedAfterPickups (picked kept : list Enhanced.DiwaliCollectible)
           (w : Enhanced.World) : Enhanced.World :=
  let g := Enhanced.gameState w in
  Enhanced.mkWorld
    (Enhanced.player w) (Enhanced.obstacles w) kept
    (Enhanced.mkGameState (Enhanced.isPlaying g) (Enhanced.isPaused g)
                          (Enhanced.score g + totalValue picked) (Enhanced.speed g)
                          (Enhanced.lives g) (Enhanced.gameOver g) (Enhanced.theme g))
    (Enhanced.spawnTimer w) (Enhanced.spawnInterval w)
    (Enhanced.disposedObstacles w) (Enhanced.disposedCollectibles w ++ picked).

(** The elements of an array within and out of a radius of the player. *)
Definition within {A : Type} (r : Q) (p : Vector3) (mesh : A -> Position) (l : list A)
  : list A :=
  List.filter (fun a => closerThan r p (mesh a)) l.

Definition beyond {A : Type} (r : Q) (p : Vector3) (mesh : A -> Position) (l : list A)
  : list A :=
  List.filter (fun a => negb (closerThan r p (mesh a))) l.

(** ** Entities accounted for *)

(** The entities of a kind that are active or have been disposed. *)
Definition basicObstacleCount (w : Basic.World) : nat :=
  (length (Basic.obstacles w) + length (Basic.disposedObstacles w))%nat.

Definition basicCollectibleCount (w : Basic.World) : nat :=
  (length (Basic.collectibles w) + length (Basic.disposedCollectibles w))%nat.

Definition enhancedObstacleCount (w : Enhanced.World) : nat :=
  (length (Enhanced.obstacles w) + length (Enhanced.disposedObstacles w))%nat.

Definition enhancedCollectibleCount (w : Enhanced.World) : nat :=
  (length (Enhanced.collectibles w) + length (Enhanced.disposedCollectibles w))%nat.

(** What a command makes [spawnObjects] create: the decisions of the spawn
    tick when the command is a frame of a running game that fills the
    spawn timer, nothing otherwise. *)
Definition basicSpawns (w : Basic.World) (c : Basic.Command) : list Basic.Spawn :=
  match c with
  | Basic.Frame currentTime rnd =>
      if Basic.playing w
         && Qgeb (Basic.spawnTimer w + (currentTime - Basic.lastTime w) / 1000)
                 Basic.spawnInterval
      then Basic.spawnDecisions rnd
      else []
  | _ => []
  end.

Definition enhancedSpawns (w : Enhanced.World) (c : Enhanced.Command)
  : list Enhanced.Spawn :=
  match c with
  | Enhanced.Update deltaTime rnd _ =>
      if Enhanced.isPlaying (Enhanced.gameState w)
         && negb (Enhanced.isPaused (Enhanced.gameState w))
         && Qgeb (Enhanced.spawnTimer w + deltaTime) (Enhanced.spawnInterval w)
      then Enhanced.spawnDecisions rnd
      else []
  | _ => []
  end.

(** ** The player on the ground *)

(** Not below the ground height 0.6; when grounded, at rest vertically and
    at one of the heights [rest]. *)
Definition basicGroundOk (p : Basic.Player) : Prop :=
  0.6 <= vy (Basic.position p)
  /\ (Basic.isGrounded p = true ->
      Basic.velocityY p = 0 /\ vy (Basic.position p) = 0.6).

(** The enhanced player is created at height 1 and lands at
    [groundY + 0.6]. *)
Definition enhancedGroundOk (p : Enhanced.EnhancedPlayer) : Prop :=
  0.6 <= vy (Enhanced.position p)
  /\ (Enhanced.isGrounded p = true ->
      Enhanced.velocityY p = 0
      /\ (vy (Enhanced.position p) = 1
          \/ vy (Enhanced.position p) = Enhanced.groundY + 0.6)).

(** ** What the forward traversal of the basic game does to an array *)

(** The array left and the elements disposed when every element is
    updated by [u] and tested in turn, except that the element following
    a removed one is passed over: it is neither updated nor tested. *)
Fixpoint forEachOutcome {A : Type} (u : A -> A) (zof : A -> Q) (l : list A)
  : list A * list A :=
  match l with
  | [] => ([], [])
  | a :: rest =>
      let a' := u a in
      if Qgtb (zof a') 10
      then match rest with
           | [] => ([], [a'])
           | b :: rest' =>
               let '(ks, ds) := forEachOutcome u zof rest' in (b :: ks, a' :: ds)
           end
      else let '(ks, ds) := forEachOutcome u zof rest in (a' :: ks, ds)
  end.

(** ** What the page shows of a basic game *)

(** The hearts are the lives, the bar is on the page exactly while a game
    is running, and the game is over exactly when no life is left. *)
Definition basicStatusOk (w : Basic.World) : Prop :=
  Basic.maxHealth (Basic.healthBar w) = 3%Z
  /\ Basic.currentHealth (Basic.healthBar w) = Basic.lives (Basic.gameState w)
  /\ Basic.displayed (Basic.healthBar w) = Basic.isPlaying (Basic.gameState w)
  /\ Basic.gameOver (Basic.gameState w) = (Basic.lives (Basic.gameState w) =? 0)%Z
  /\ Basic.isPlaying (Basic.gameState w) = (1 <=? Basic.lives (Basic.gameState w))%Z
     && Basic.displayed (Basic.healthBar w).

(** ** A stopped enhanced game *)

(** Outside a game the scene holds no obstacle and no collectible; a game
    without a life left is over; a running game is not over and has a life
    left. *)
Definition enhancedStatusOk (w : Enhanced.World) : Prop :=
  (Enhanced.isPlaying (Enhanced.gameState w) = false ->
   Enhanced.obstacles w = [] /\ Enhanced.collectibles w = [])
  /\ (Enhanced.lives (Enhanced.gameState w) = 0%Z ->
      Enhanced.isPlaying (Enhanced.gameState w) = false
      /\ Enhanced.gameOver (Enhanced.gameState w) = true)
  /\ (Enhanced.isPlaying (Enhanced.gameState w) = true ->
      Enhanced.gameOver (Enhanced.gameState w) = false
      /\ (1 <= Enhanced.lives (Enhanced.gameState w) <= 3)%Z).

(** ** The rest of the health bar component *)

Module Bar.




Definition heal (amount : Z) (h : Basic.HealthBar) : Basic.HealthBar :=
  Basic.setHealth (Basic.currentHealth h + amount) h.

Definition getHealth (h : Basic.HealthBar) : Z := Basic.currentHealth h.

Definition isAlive (h : Basic.HealthBar) : bool := (0 <? Basic.currentHealth h)%Z.


End Bar.


Definition healthInRange (h : Basic.HealthBar) : Prop :=
  (0 <= Basic.currentHealth h <= Basic.maxHealth h)%Z.

(** ** Pausing the enhanced game *)

(** The commands that reach the game through a listener or the frame
    loop, as opposed to the public methods that start, pause, stop or
    dispose. *)
Definition duringPlay (c : Enhanced.Command) : bool :=
  match c with
  | Enhanced.Jump | Enhanced.Left | Enhanced.Right | Enhanced.Update _ _ _ => true
  | _ => false
  end.

(** ** Velocities *)

(** An entity moves toward the player, no slower than the base speed and
    no faster than the game now runs. *)
Definition velocityOk (speed v : Q) : Prop := 10 <= v /\ v <= speed.

Definition basicVelocitiesOk (w : Basic.World) : Prop :=
  10 <= Basic.speed (Basic.gameState w)
  /\ Forall (fun o => velocityOk (Basic.speed (Basic.gameState w)) (Basic.ovelocity o))
            (Basic.obstacles w)
  /\ Forall (fun c => velocityOk (Basic.speed (Basic.gameState w)) (Basic.cvelocity c))
            (Basic.collectibles w).

Definition enhancedVelocitiesOk (w : Enhanced.World) : Prop :=
  10 <= Enhanced.speed (Enhanced.gameState w)
  /\ Forall (fun o => velocityOk (Enhanced.speed (Enhanced.gameState w))
                                 (Enhanced.ovelocity o))
            (Enhanced.obstacles w)
  /\ Forall (fun c => velocityOk (Enhanced.speed (Enhanced.gameState w))
                                 (Enhanced.cvelocity c))
            (Enhanced.collectibles w).

(** ** Jumps *)

(** The frames [dts] applied to a player. *)
Definition basicPlayerFrames (dts : list Q) (p : Basic.Player) : Basic.Player :=
  fold_left (fun q dt => Basic.playerUpdate dt q) dts p.

Definition enhancedPlayerFrames (dts : list Q) (p : Enhanced.EnhancedPlayer)
  : Enhanced.EnhancedPlayer :=
  fold_left (fun q dt => Enhanced.playerUpdate dt q) dts p.

(** An airborne player that took off from height [y0] with the jump
    impulse, [T] seconds of frames ago: its velocity, and a bound on its
    height. *)
Definition basicInFlight (y0 T : Q) (p : Basic.Player) : Prop :=
  Basic.velocityY p == 15 - 50 * T
  /\ vy (Basic.position p) <= y0 + 15 * T - 25 * T * T
  /\ (0.6 < vy (Basic.position p) \/ T <= 0).

Definition enhancedInFlight (y0 T : Q) (p : Enhanced.EnhancedPlayer) : Prop :=
  Enhanced.velocityY p == 15 - 50 * T
  /\ vy (Enhanced.position p) <= y0 + 15 * T - 25 * T * T
  /\ (0.6 < vy (Enhanced.position p) \/ T <= 0).

(** The same from below, when no frame is longer than [d]. *)
Definition basicStillUp (d T : Q) (p : Basic.Player) : Prop :=
  Basic.isGrounded p = false
  /\ Basic.velocityY p == 15 - 50 * T
  /\ 0.6 + T * (15 - 25 * T - 25 * d) <= vy (Basic.position p).

Definition enhancedStillUp (d T : Q) (p : Enhanced.EnhancedPlayer) : Prop :=
  Enhanced.isGrounded p = false
  /\ Enhanced.velocityY p == 15 - 50 * T
  /\ 0.6 + T * (15 - 25 * T - 25 * d) <= vy (Enhanced.position p).

(** ** Heights *)

(** Obstacles stand at height 0.75; the collectibles of the basic game
    float at height 1 (those of the enhanced game bob around it). *)
Definition basicHeightsOk (w : Basic.World) : Prop :=
  Forall (fun o => posy (Basic.omesh o) = 0.75) (Basic.obstacles w)
  /\ Forall (fun c => posy (Basic.cmesh c) = 1) (Basic.collectibles w).

Definition enhancedHeightsOk (w : Enhanced.World) : Prop :=
  Forall (fun o => posy (Enhanced.omesh o) = 0.75) (Enhanced.obstacles w).

(** ** Touch input *)

(** What a listener asks of the player. *)
Inductive Action : Type := ActJump | ActLeft | ActRight.

Definition mirror (a : option Action) : option Action :=
  match a with
  | Some ActLeft => Some ActRight
  | Some ActRight => Some ActLeft
  | other => other
  end.

(** The [touchend] listener of the basic game, for a touch that started at
    [(touchStartX, touchStartY)] and ended at [(touchEndX, touchEndY)];
    [None] when no method of the player is called. *)
Definition touchEnd (touchStartX touchStartY touchEndX touchEndY : Q) : option Action :=
  let deltaX := touchEndX - touchStartX in
  let deltaY := touchEndY - touchStartY in
  let minSwipeDistance := 30 in
  (* Determine if it's a swipe or tap *)
  if Qgtb (Qabs deltaX) minSwipeDistance || Qgtb (Qabs deltaY) minSwipeDistance
  then
    if Qgtb (Qabs deltaX) (Qabs deltaY)
    then (* Horizontal swipe *)
      if Qgtb deltaX 0 then Some ActRight else Some ActLeft
    else (* Vertical swipe *)
      if Qltb deltaY 0 then Some ActJump else None
  else (* Tap gesture - jump *)
    Some ActJump.

(** [handleTouch] of the enhanced game, for a touch at [(clientX, clientY)]
    on a target whose rectangle starts at [(left, top)]. *)
Definition handleTouch (clientX clientY left top width height : Q) : Action :=
  let x := clientX - left in
  let y := clientY - top in
  let centerX := width / 2 in
  let centerY := height / 2 in
  if Qltb y centerY
  then ActJump
  else if Qltb x centerX then ActLeft else ActRight.

Definition basicAct (a : option Action) (w : Basic.World) : Basic.World :=
  match a with
  | Some ActJump => Basic.step w Basic.Jump
  | Some ActLeft => Basic.step w Basic.Left
  | Some ActRight => Basic.step w Basic.Right
  | None => w
  end.
(** * Properties *)

(** ** Boolean comparisons *)

Lemma Qltb_lt (x y : Q) : Qltb x y = true <-> x < y.
Proof.
  unfold Qltb. rewrite negb_true_iff, <- not_true_iff_false, Qle_bool_iff.
  split; [apply Qnot_le_lt | apply Qlt_not_le].
Qed.

Lemma Qltb_ge (x y : Q) : Qltb x y = false <-> y <= x.
Proof.
  unfold Qltb. rewrite negb_false_iff. apply Qle_bool_iff.
Qed.

Lemma Qgtb_le (x y : Q) : Qgtb x y = false <-> x <= y.
Proof. unfold Qgtb. apply Qltb_ge. Qed.

Lemma Qgeb_ge (x y : Q) : Qgeb x y = true <-> y <= x.
Proof. unfold Qgeb. apply Qle_bool_iff. Qed.

Lemma Qgeb_lt (x y : Q) : Qgeb x y = false <-> x < y.
Proof.
  unfold Qgeb. rewrite <- not_true_iff_false, Qle_bool_iff.
  split; [apply Qnot_le_lt | apply Qlt_not_le].
Qed.

(** ** Lane changes and jumps *)

Lemma laneCoord_defined (lane : Z) :
  (0 <= lane <= 2)%Z -> laneCoord (Some lane) = Some (default 0 (laneCoord (Some lane))).
Proof.
  intros H.
  assert (lane = 0 \/ lane = 1 \/ lane = 2)%Z as [-> | [-> | ->]] by lia; reflexivity.
Qed.

Lemma basic_moveLeft_ok (p : Basic.Player) : basicLaneOk p -> basicLaneOk (Basic.moveLeft p).
Proof.
  unfold basicLaneOk, Basic.moveLeft. cbn [length laneCoords]. intros [Hr Ht].
  destruct (Z.gtb_spec (Basic.currentLane p) 0); cbn; [| auto].
  split; [lia |]. unfold Basic.laneTarget. apply laneCoord_defined. lia.
Qed.

Lemma basic_moveRight_ok (p : Basic.Player) : basicLaneOk p -> basicLaneOk (Basic.moveRight p).
Proof.
  unfold basicLaneOk, Basic.moveRight. cbn [length laneCoords]. intros [Hr Ht].
  destruct (Z.ltb_spec (Basic.currentLane p) (Z.of_nat 3 - 1)); cbn; [| auto].
  split; [lia |]. unfold Basic.laneTarget. apply laneCoord_defined. lia.
Qed.

Lemma enhanced_moveLeft_ok (p : Enhanced.EnhancedPlayer) :
  enhancedLaneOk p -> enhancedLaneOk (Enhanced.moveLeft p).
Proof.
  unfold enhancedLaneOk, Enhanced.moveLeft. cbn [length laneCoords]. intros [Hr Ht].
  destruct (Z.gtb_spec (Enhanced.currentLane p) 0); cbn; [| auto].
  split; [lia |]. unfold Enhanced.laneTarget. apply laneCoord_defined. lia.
Qed.

Lemma enhanced_moveRight_ok (p : Enhanced.EnhancedPlayer) :
  enhancedLaneOk p -> enhancedLaneOk (Enhanced.moveRight p).
Proof.
  unfold enhancedLaneOk, Enhanced.moveRight. cbn [length laneCoords]. intros [Hr Ht].
  destruct (Z.ltb_spec (Enhanced.currentLane p) (Z.of_nat 3 - 1)); cbn; [| auto].
  split; [lia |]. unfold Enhanced.laneTarget. apply laneCoord_defined. lia.
Qed.

Lemma basic_moves_ok (ms : list Move) (p : Basic.Player) :
  basicLaneOk p -> basicLaneOk (fold_left basicMove ms p).
Proof.
  revert p. induction ms as [| m ms IH]; intros p Hp; cbn; [exact Hp |].
  apply IH. destruct m; [apply basic_moveLeft_ok | apply basic_moveRight_ok]; exact Hp.
Qed.

Lemma enhanced_moves_ok (ms : list Move) (p : Enhanced.EnhancedPlayer) :
  enhancedLaneOk p -> enhancedLaneOk (fold_left enhancedMove ms p).
Proof.
  revert p. induction ms as [| m ms IH]; intros p Hp; cbn; [exact Hp |].
  apply IH. destruct m; [apply enhanced_moveLeft_ok | apply enhanced_moveRight_ok]; exact Hp.
Qed.

(** C7.  Whatever sequence of [moveLeft]/[moveRight] calls is made from the
    initial centre lane, in either game, the lane index stays within
    [0 .. laneCount - 1] (and [targetX] is that lane's coordinate); a
    [moveLeft] in lane 0 and a [moveRight] in the last lane return the player
    unchanged. *)
Theorem lane_in_range :
  forall ms : list Move,
    let b := fold_left basicMove ms Basic.newPlayer in
    let e := fold_left enhancedMove ms Enhanced.newPlayer in
    let last := (Z.of_nat (length laneCoords) - 1)%Z in
    (0 <= Basic.currentLane b <= last)%Z
    /\ (0 <= Enhanced.currentLane e <= last)%Z
    /\ laneCoord (Some (Basic.currentLane b)) = Some (Basic.targetX b)
    /\ laneCoord (Some (Enhanced.currentLane e)) = Some (Enhanced.targetX e)
    /\ (forall pos v t g, Basic.moveLeft (Basic.mkPlayer pos v 0 t g)
                          = Basic.mkPlayer pos v 0 t g)
    /\ (forall pos v t g, Basic.moveRight (Basic.mkPlayer pos v last t g)
                          = Basic.mkPlayer pos v last t g)
    /\ (forall pos v t g, Enhanced.moveLeft (Enhanced.mkPlayer pos v g 0 t)
                          = Enhanced.mkPlayer pos v g 0 t)
    /\ (forall pos v t g, Enhanced.moveRight (Enhanced.mkPlayer pos v g last t)
                          = Enhanced.mkPlayer pos v g last t).
Proof.
  intros ms b e last.
  assert (Hb : basicLaneOk b).
  { apply basic_moves_ok. split; [cbn; lia | reflexivity]. }
  assert (He : enhancedLaneOk e).
  { apply enhanced_moves_ok. split; [cbn; lia | reflexivity]. }
  destruct Hb as [Hb1 Hb2], He as [He1 He2].
  repeat split; try assumption; try apply Hb1; try apply He1; reflexivity.
Qed.

(** C8.  In either game, [jump()] on a grounded player sets the vertical
    velocity to the jump impulse (15) and clears the grounded flag, and
    changes nothing else; [jump()] on an airborne player changes nothing.
    Hence a second [jump()] has no effect, also after any number of
    [update] calls, until one of them has landed the player. *)
Theorem jump_once :
  (forall pos v lane t,
      Basic.jump (Basic.mkPlayer pos v lane t true) = Basic.mkPlayer pos 15 lane t false)
  /\ (forall pos v lane t,
      Basic.jump (Basic.mkPlayer pos v lane t false) = Basic.mkPlayer pos v lane t false)
  /\ (forall p, Basic.jump (Basic.jump p) = Basic.jump p)
  /\ (forall p dts,
      let p' := fold_left (fun q dt => Basic.playerUpdate dt q) dts (Basic.jump p) in
      Basic.isGrounded p' = true \/ Basic.jump p' = p')
  /\ (forall pos v lane t,
      Enhanced.jump (Enhanced.mkPlayer pos v true lane t)
      = Enhanced.mkPlayer pos Enhanced.jumpForce false lane t)
  /\ (forall pos v lane t,
      Enhanced.jump (Enhanced.mkPlayer pos v false lane t)
      = Enhanced.mkPlayer pos v false lane t)
  /\ (forall p, Enhanced.jump (Enhanced.jump p) = Enhanced.jump p)
  /\ (forall p dts,
      let p' := fold_left (fun q dt => Enhanced.playerUpdate dt q) dts (Enhanced.jump p) in
      Enhanced.isGrounded p' = true \/ Enhanced.jump p' = p').
Proof.
  repeat split; try reflexivity.
  - intros [pos v lane t []]; reflexivity.
  - intros p dts p'. clearbody p'. unfold Basic.jump.
    destruct (Basic.isGrounded p'); [left | right]; reflexivity.
  - intros [pos v [] lane t]; reflexivity.
  - intros p dts p'. clearbody p'. unfold Enhanced.jump.
    destruct (Enhanced.isGrounded p'); [left | right]; reflexivity.
Qed.

(** ** Starting a game *)

(** C5.  In either game and from every state, [startGame()] leaves a running
    game with score 0, 3 lives, the base speed (the initial speed, 10) and
    spawn timer 0; both active collections are empty, and every entity
    that was in them has been disposed (appended to the disposal log). *)
Theorem start_resets :
  (forall w : Basic.World,
      let w' := Basic.startGame w in
      let g := Basic.gameState w' in
      Basic.isPlaying g = true /\ Basic.gameOver g = false
      /\ Basic.score g = 0%Z /\ Basic.lives g = 3%Z
      /\ Basic.speed g = Basic.speed (Basic.gameState Basic.initial)
      /\ Basic.speed g = 10
      /\ Basic.spawnTimer w' = 0
      /\ Basic.obstacles w' = [] /\ Basic.collectibles w' = []
      /\ (length (Basic.obstacles w') + length (Basic.collectibles w') = 0)%nat
      /\ Basic.disposedObstacles w' = Basic.disposedObstacles w ++ Basic.obstacles w
      /\ Basic.disposedCollectibles w'
         = Basic.disposedCollectibles w ++ Basic.collectibles w)
  /\ (forall w : Enhanced.World,
      let w' := Enhanced.startGame w in
      let g := Enhanced.gameState w' in
      Enhanced.isPlaying g = true /\ Enhanced.isPaused g = false
      /\ Enhanced.gameOver g = false
      /\ Enhanced.score g = 0%Z /\ Enhanced.lives g = 3%Z
      /\ Enhanced.speed g = Enhanced.speed (Enhanced.gameState Enhanced.initial)
      /\ Enhanced.speed g = 10
      /\ Enhanced.spawnTimer w' = 0
      /\ Enhanced.obstacles w' = [] /\ Enhanced.collectibles w' = []
      /\ (length (Enhanced.obstacles w') + length (Enhanced.collectibles w') = 0)%nat
      /\ Enhanced.disposedObstacles w'
         = Enhanced.disposedObstacles w ++ Enhanced.obstacles w
      /\ Enhanced.disposedCollectibles w'
         = Enhanced.disposedCollectibles w ++ Enhanced.collectibles w).
Proof.
  split; intros w; cbn; repeat split; reflexivity.
Qed.

(** ** Frames outside a running game *)

(** C10.  A frame of the basic game in a state where [isPlaying] is false,
    and an [update] of the enhanced game in a state where [isPlaying] is false
    or [isPaused] is true, complete normally and leave the whole state as
    it was: session state, player, collections and disposal logs.  (In the
    basic game [animate] computes [deltaTime] from its clock argument and
    records that argument in [lastTime]; nothing else changes.) *)
Theorem idle_frame_unchanged :
  forall (b : Basic.World) (e : Enhanced.World)
         (deltaTime currentTime : Q) (rnd sine : nat -> Q),
    Basic.isPlaying (Basic.gameState b) = false ->
    Enhanced.isPlaying (Enhanced.gameState e) = false
    \/ Enhanced.isPaused (Enhanced.gameState e) = true ->
    Basic.frame deltaTime rnd b = Normal b
    /\ Basic.animate currentTime rnd b = Normal (Basic.setLastTime currentTime b)
    /\ Enhanced.update deltaTime rnd sine e = Normal e.
Proof.
  intros b e deltaTime currentTime rnd sine Hb He.
  unfold Basic.animate, Basic.frame, Basic.playing, Enhanced.update. cbn.
  rewrite Hb. cbn. repeat split.
  destruct He as [-> | ->]; [reflexivity |].
  rewrite orb_true_r. reflexivity.
Qed.

Lemma idle_frame_unchanged_witness :
  Basic.frame 0.016 (fun _ => 0) idleBasic = Normal idleBasic
  /\ Basic.animate 4016 (fun _ => 0) idleBasic
     = Normal (Basic.setLastTime 4016 idleBasic)
  /\ Enhanced.update 0.016 (fun _ => 0) (fun _ => 0) pausedEnhanced
     = Normal pausedEnhanced.
Proof.
  apply (idle_frame_unchanged idleBasic pausedEnhanced 0.016 4016
                              (fun _ => 0) (fun _ => 0)).
  - reflexivity.
  - right. reflexivity.
Defined.

(** ** Spawning: obstacles and collectibles never share a lane *)

Lemma delete_split {A : Type} (l : list A) (s : nat) (x : A) :
  l !! s = Some x ->
  l = take s l ++ x :: drop (S s) l /\ delete s l = take s l ++ drop (S s) l.
Proof.
  intros H. split.
  - symmetry. apply take_drop_middle. exact H.
  - apply delete_take_drop.
Qed.

Lemma delete_outside {A : Type} (l : list A) (s : nat) :
  (length l <= s)%nat -> delete s l = l.
Proof.
  intros H. rewrite delete_take_drop, take_ge, drop_ge by lia. apply app_nil_r.
Qed.

Lemma delete_In {A : Type} (l : list A) (s : nat) (y : A) :
  In y (delete s l) -> In y l.
Proof.
  rewrite delete_take_drop. rewrite in_app_iff. intros [H | H].
  - rewrite <- (take_drop s l). apply in_or_app. left. exact H.
  - rewrite <- (take_drop (S s) l). apply in_or_app. right. exact H.
Qed.

Lemma delete_NoDup {A : Type} (l : list A) (s : nat) :
  List.NoDup l -> List.NoDup (delete s l).
Proof.
  intros H. destruct (l !! s) as [x |] eqn:E.
  - destruct (delete_split l s x E) as [Hl ->].
    rewrite Hl in H. apply List.NoDup_remove_1 in H. exact H.
  - rewrite delete_outside; [exact H |]. apply lookup_ge_None. exact E.
Qed.

Lemma delete_removes {A : Type} (l : list A) (s : nat) (x : A) :
  List.NoDup l -> l !! s = Some x -> ~ In x (delete s l).
Proof.
  intros H E. destruct (delete_split l s x E) as [Hl ->].
  rewrite Hl in H. apply List.NoDup_remove_2 in H. exact H.
Qed.

Lemma delete_length_ge {A : Type} (l : list A) (s : nat) :
  (length l <= S (length (delete s l)))%nat.
Proof.
  destruct (l !! s) as [x |] eqn:E.
  - apply lookup_lt_Some in E. rewrite length_delete by (eapply lookup_lt_is_Some_2; lia).
    lia.
  - rewrite delete_outside; [lia |]. apply lookup_ge_None. exact E.
Qed.

(** What [splice(index, 1)[0]] leaves behind, for an array without repeats. *)
Lemma spliceOne_spec {A : Type} (index : Z) (l rest : list A) (lane : option A) :
  spliceOne index l = (lane, rest) ->
  List.NoDup l ->
  List.NoDup rest
  /\ (forall y, In y rest -> In y l)
  /\ (forall x, lane = Some x -> In x l /\ ~ In x rest)
  /\ (length l <= S (length rest))%nat.
Proof.
  unfold spliceOne. intros E H. injection E as <- <-.
  repeat split.
  - apply delete_NoDup. exact H.
  - intros y. apply delete_In.
  - apply list_elem_of_In. eapply list_elem_of_lookup_2. exact H0.
  - apply delete_removes; assumption.
  - apply delete_length_ge.
Qed.

Lemma basic_collectibles_from (rnd : nat -> Q) (lanes : list Z) :
  forall (k : nat) (s : Basic.Spawn),
    In s (Basic.collectibleDecisions rnd k lanes) ->
    exists lane, s = Basic.SpawnCollectible lane /\ In lane lanes.
Proof.
  induction lanes as [| lane rest IH]; intros k s; cbn; [tauto |].
  destruct (Qltb (rnd k) 0.6); cbn.
  - intros [<- | H].
    + exists lane. auto.
    + destruct (IH _ _ H) as (x & -> & Hx). exists x. auto.
  - intros H. destruct (IH _ _ H) as (x & -> & Hx). exists x. auto.
Qed.

Lemma enhanced_collectibles_from (rnd : nat -> Q) (lanes : list Z) :
  forall (k : nat) (s : Enhanced.Spawn),
    In s (Enhanced.collectibleDecisions rnd k lanes) ->
    exists lane type, s = Enhanced.SpawnCollectible lane type /\ In lane lanes.
Proof.
  induction lanes as [| lane rest IH]; intros k s; cbn; [tauto |].
  destruct (Qltb (rnd k) 0.7); cbn.
  - destruct (Enhanced.pickType (rnd (S k))) as [t |]; cbn; intros [<- | H];
      try (eexists _, _; split; [reflexivity | auto]; fail);
      destruct (IH _ _ H) as (x & t' & -> & Hx); exists x, t'; auto.
  - intros H. destruct (IH _ _ H) as (x & t' & -> & Hx). exists x, t'. auto.
Qed.

(** The obstacle loop of the enhanced [spawnObjects]: every lane it gives to
    an obstacle has left the available lanes, and each round takes at most
    one lane. *)
Lemma enhanced_obstacles_from (rnd : nat -> Q) :
  forall (count k k' : nat) (avail remaining : list Z) (ds : list Enhanced.Spawn),
    Enhanced.obstacleDecisions rnd k count avail = (ds, remaining, k') ->
    List.NoDup avail ->
    List.NoDup remaining
    /\ (forall y, In y remaining -> In y avail)
    /\ (forall s, In s ds ->
                  exists lane, s = Enhanced.SpawnObstacle lane
                               /\ forall x, lane = Some x -> ~ In x remaining)
    /\ (length avail <= count + length remaining)%nat.
Proof.
  induction count as [| count IH]; intros k k' avail remaining ds E Hnd.
  - cbn in E. injection E as <- <- <-. repeat split; auto; cbn; try tauto; lia.
  - cbn [Enhanced.obstacleDecisions] in E. destruct (0 <? length avail)%nat.
    + destruct (spliceOne _ avail) as [lane rest] eqn:Es.
      destruct (Enhanced.obstacleDecisions rnd (S k) count rest) as [[ds' rem'] k''] eqn:Er.
      injection E as <- <- <-.
      destruct (spliceOne_spec _ _ _ _ Es Hnd) as (Hnd' & Hsub & Hout & Hlen).
      destruct (IH _ _ _ _ _ Er Hnd') as (Hnd'' & Hsub' & Hds & Hlen').
      repeat split.
      * exact Hnd''.
      * intros y Hy. apply Hsub, Hsub', Hy.
      * intros s [<- | Hs].
        -- exists lane. split; [reflexivity |]. intros x Hx Hin.
           apply (proj2 (Hout x Hx)). apply Hsub'. exact Hin.
        -- apply Hds. exact Hs.
      * lia.
    + injection E as <- <- <-. repeat split; auto; cbn; try tauto; lia.
Qed.

(** ** What a spawn tick adds *)

Lemma basic_create_all (ds : list Basic.Spawn) :
  forall w : Basic.World,
    fold_left Basic.create ds w
    = Basic.mkWorld (Basic.gameState w) (Basic.player w)
        (Basic.obstacles w ++ basicNewObstacles (Basic.speed (Basic.gameState w)) ds)
        (Basic.collectibles w
           ++ basicNewCollectibles (Basic.speed (Basic.gameState w)) ds)
        (Basic.healthBar w) (Basic.spawnTimer w) (Basic.lastTime w)
        (Basic.disposedObstacles w) (Basic.disposedCollectibles w).
Proof.
  induction ds as [| s ds IH]; intros w; cbn [fold_left].
  - cbn. rewrite !app_nil_r. destruct w; reflexivity.
  - rewrite IH. destruct s; cbn; rewrite <- ?app_assoc; reflexivity.
Qed.

Lemma enhanced_create_all (ds : list Enhanced.Spawn) :
  forall w : Enhanced.World,
    fold_left Enhanced.create ds w
    = Enhanced.mkWorld (Enhanced.player w)
        (Enhanced.obstacles w
           ++ enhancedNewObstacles (Enhanced.speed (Enhanced.gameState w)) ds)
        (Enhanced.collectibles w
           ++ enhancedNewCollectibles (Enhanced.speed (Enhanced.gameState w)) ds)
        (Enhanced.gameState w) (Enhanced.spawnTimer w) (Enhanced.spawnInterval w)
        (Enhanced.disposedObstacles w) (Enhanced.disposedCollectibles w).
Proof.
  induction ds as [| s ds IH]; intros w; cbn [fold_left].
  - cbn. rewrite !app_nil_r. destruct w; reflexivity.
  - rewrite IH. destruct s; cbn; rewrite <- ?app_assoc; reflexivity.
Qed.

Lemma basicNewObstacles_spawned (speed : Q) (ds : list Basic.Spawn) (o : Basic.Obstacle) :
  In o (basicNewObstacles speed ds) ->
  posz (Basic.omesh o) = -50 /\ Basic.ovelocity o = speed.
Proof.
  unfold basicNewObstacles. rewrite in_flat_map. intros (s & _ & Hs).
  destruct s; cbn in Hs; [| tauto]. destruct Hs as [<- | []]. split; reflexivity.
Qed.

Lemma basicNewCollectibles_spawned (speed : Q) (ds : list Basic.Spawn)
      (c : Basic.Collectible) :
  In c (basicNewCollectibles speed ds) ->
  posz (Basic.cmesh c) = -50 /\ Basic.cvelocity c = speed.
Proof.
  unfold basicNewCollectibles. rewrite in_flat_map. intros (s & _ & Hs).
  destruct s; cbn in Hs; [tauto |]. destruct Hs as [<- | []]. split; reflexivity.
Qed.

Lemma enhancedNewObstacles_spawned (speed : Q) (ds : list Enhanced.Spawn)
      (o : Enhanced.DiwaliObstacle) :
  In o (enhancedNewObstacles speed ds) ->
  posz (Enhanced.omesh o) = -50 /\ Enhanced.ovelocity o = speed.
Proof.
  unfold enhancedNewObstacles. rewrite in_flat_map. intros (s & _ & Hs).
  destruct s; cbn in Hs; [| tauto]. destruct Hs as [<- | []]. split; reflexivity.
Qed.

Lemma enhancedNewCollectibles_spawned (speed : Q) (ds : list Enhanced.Spawn)
      (c : Enhanced.DiwaliCollectible) :
  In c (enhancedNewCollectibles speed ds) ->
  posz (Enhanced.cmesh c) = -50 /\ Enhanced.cvelocity c = speed.
Proof.
  unfold enhancedNewCollectibles. rewrite in_flat_map. intros (s & _ & Hs).
  destruct s; cbn in Hs; [tauto |]. destruct Hs as [<- | []]. split; reflexivity.
Qed.

(** The lanes of the basic [spawnObjects]: every collectible lane is one of
    the three lanes and differs from the obstacle's lane; at least two
    lanes are left to collectibles. *)
Lemma basic_decisions_exclusive (rnd : nat -> Q) :
  let b := Basic.spawnDecisions rnd in
  (forall lane, In (Basic.SpawnObstacle (Some lane)) b ->
                ~ In (Basic.SpawnCollectible lane) b)
  /\ (forall lane, In (Basic.SpawnCollectible lane) b -> In lane [0; 1; 2]%Z)
  /\ (exists lane, In lane [0; 1; 2]%Z /\ ~ In (Basic.SpawnObstacle (Some lane)) b).
Proof.
  assert (Hnd : List.NoDup [0; 1; 2]%Z).
  { repeat constructor; cbn; intuition lia. }
  cbv zeta. unfold Basic.spawnDecisions.
  destruct (Qltb (rnd 0%nat) 0.7).
  - destruct (spliceOne _ [0; 1; 2]%Z) as [lane rest] eqn:Es.
    destruct (spliceOne_spec _ _ _ _ Es Hnd) as (_ & Hsub & Hout & Hlen).
    split; [| split].
    + intros x [Ho | Ho] [Hc | Hc]; try discriminate.
      * injection Ho as ->.
        destruct (basic_collectibles_from _ _ _ _ Hc) as (y & [= <-] & Hy).
        exact (proj2 (Hout x eq_refl) Hy).
      * destruct (basic_collectibles_from _ _ _ _ Ho) as (y & [=] & _).
    + intros x [Hc | Hc]; [discriminate |].
      destruct (basic_collectibles_from _ _ _ _ Hc) as (y & [= <-] & Hy).
      apply Hsub. exact Hy.
    + destruct rest as [| y rest]; [cbn in Hlen; lia |].
      exists y. split; [apply Hsub; left; reflexivity |].
      intros [Ho | Ho].
      * injection Ho as ->. apply (proj2 (Hout y eq_refl)). left. reflexivity.
      * destruct (basic_collectibles_from _ _ _ _ Ho) as (z & [=] & _).
  - split; [| split].
    + intros x Ho. destruct (basic_collectibles_from _ _ _ _ Ho) as (z & [=] & _).
    + intros x Hc.
      destruct (basic_collectibles_from _ _ _ _ Hc) as (y & [= <-] & Hy). exact Hy.
    + exists 0%Z. split; [left; reflexivity |].
      intros Ho. destruct (basic_collectibles_from _ _ _ _ Ho) as (z & [=] & _).
Qed.

Lemma enhanced_decisions_exclusive (rnd : nat -> Q) :
  let e := Enhanced.spawnDecisions rnd in
  (forall lane type, In (Enhanced.SpawnObstacle (Some lane)) e ->
                     ~ In (Enhanced.SpawnCollectible lane type) e)
  /\ (forall lane type, In (Enhanced.SpawnCollectible lane type) e -> In lane [0; 1; 2]%Z)
  /\ (exists lane, In lane [0; 1; 2]%Z /\ ~ In (Enhanced.SpawnObstacle (Some lane)) e).
Proof.
  assert (Hnd : List.NoDup [0; 1; 2]%Z).
  { repeat constructor; cbn; intuition lia. }
  cbv zeta. unfold Enhanced.spawnDecisions.
  set (count := if Qltb (rnd 0%nat) 0.6 then 1%nat else 2%nat).
  assert (Hcount : (count <= 2)%nat) by (subst count; destruct (Qltb _ _); lia).
  destruct (Enhanced.obstacleDecisions rnd 1 count [0; 1; 2]%Z) as [[ds rest] k] eqn:Eo.
  destruct (enhanced_obstacles_from _ _ _ _ _ _ _ Eo Hnd) as (_ & Hsub & Hds & Hlen).
  split; [| split].
  - intros x t Ho Hc. apply in_app_iff in Ho, Hc.
    destruct Ho as [Ho | Ho].
    + destruct (Hds _ Ho) as (lane & [= <-] & Hout).
      destruct Hc as [Hc | Hc].
      * destruct (Hds _ Hc) as (lane' & [=] & _).
      * destruct (enhanced_collectibles_from _ _ _ _ Hc) as (y & t' & [= <- <-] & Hy).
        exact (Hout x eq_refl Hy).
    + destruct (enhanced_collectibles_from _ _ _ _ Ho) as (y & t' & [=] & _).
  - intros x t Hc. apply in_app_iff in Hc. destruct Hc as [Hc | Hc].
    + destruct (Hds _ Hc) as (lane' & [=] & _).
    + destruct (enhanced_collectibles_from _ _ _ _ Hc) as (y & t' & [= <- <-] & Hy).
      apply Hsub. exact Hy.
  - destruct rest as [| y rest]; [cbn in Hlen; lia |].
    exists y. split; [apply Hsub; left; reflexivity |].
    intros Ho. apply in_app_iff in Ho. destruct Ho as [Ho | Ho].
    + destruct (Hds _ Ho) as (lane & [= <-] & Hout).
      apply (Hout y eq_refl). left. reflexivity.
    + destruct (enhanced_collectibles_from _ _ _ _ Ho) as (z & t' & [=] & _).
Qed.

(** Two lanes with the same coordinate are the same lane. *)
Lemma laneCoord_injective (lane : option Z) (lane' : Z) :
  In lane' [0; 1; 2]%Z -> laneCoord lane = laneCoord (Some lane') -> lane = Some lane'.
Proof.
  intros Hin. destruct lane as [l |].
  2: { cbn in Hin. destruct Hin as [<- | [<- | [<- | []]]]; discriminate. }
  unfold laneCoord at 1. destruct (Z.ltb_spec l 0).
  { cbn in Hin. destruct Hin as [<- | [<- | [<- | []]]]; discriminate. }
  assert (l = 0 \/ l = 1 \/ l = 2 \/ 3 <= l)%Z as [-> | [-> | [-> | Hl]]] by lia;
    cbn in Hin; destruct Hin as [<- | [<- | [<- | []]]]; try discriminate; try reflexivity;
    replace (Z.to_nat l) with (S (S (S (Z.to_nat (l - 3))))) by lia; discriminate.
Qed.

(** C3.  In one call of [spawnObjects], in either game and whatever values
    [Math.random()] returns, no lane is given both to an obstacle and to a
    collectible, and at least one of the three lanes gets no obstacle.  The
    entities the call appends to the collections are those of these
    decisions, so that no new obstacle shares its [x] with a new
    collectible. *)
Theorem lane_exclusive :
  forall rnd : nat -> Q,
    let b := Basic.spawnDecisions rnd in
    let e := Enhanced.spawnDecisions rnd in
    (forall lane, In (Basic.SpawnObstacle (Some lane)) b ->
                  ~ In (Basic.SpawnCollectible lane) b)
    /\ (exists lane, In lane [0; 1; 2]%Z /\ ~ In (Basic.SpawnObstacle (Some lane)) b)
    /\ (forall lane type, In (Enhanced.SpawnObstacle (Some lane)) e ->
                          ~ In (Enhanced.SpawnCollectible lane type) e)
    /\ (exists lane, In lane [0; 1; 2]%Z /\ ~ In (Enhanced.SpawnObstacle (Some lane)) e)
    /\ (forall w,
           let v := Basic.speed (Basic.gameState w) in
           Basic.obstacles (Basic.spawnObjects rnd w)
           = Basic.obstacles w ++ basicNewObstacles v b
           /\ Basic.collectibles (Basic.spawnObjects rnd w)
              = Basic.collectibles w ++ basicNewCollectibles v b
           /\ forall o c, In o (basicNewObstacles v b) ->
                          In c (basicNewCollectibles v b) ->
                          posx (Basic.omesh o) <> posx (Basic.cmesh c))
    /\ (forall w,
           let v := Enhanced.speed (Enhanced.gameState w) in
           Enhanced.obstacles (Enhanced.spawnObjects rnd w)
           = Enhanced.obstacles w ++ enhancedNewObstacles v e
           /\ Enhanced.collectibles (Enhanced.spawnObjects rnd w)
              = Enhanced.collectibles w ++ enhancedNewCollectibles v e
           /\ forall o c, In o (enhancedNewObstacles v e) ->
                          In c (enhancedNewCollectibles v e) ->
                          posx (Enhanced.omesh o) <> posx (Enhanced.cmesh c)).
Proof.
  intros rnd b e.
  destruct (basic_decisions_exclusive rnd) as (Hb1 & Hb2 & Hb3).
  destruct (enhanced_decisions_exclusive rnd) as (He1 & He2 & He3).
  fold b in Hb1, Hb2, Hb3. fold e in He1, He2, He3.
  split; [exact Hb1 |]. split; [exact Hb3 |]. split; [exact He1 |]. split; [exact He3 |].
  split; intros w v.
  - unfold Basic.spawnObjects. rewrite basic_create_all. cbn.
    split; [reflexivity |]. split; [reflexivity |].
    intros o c Ho Hc Hx.
    unfold basicNewObstacles in Ho. unfold basicNewCollectibles in Hc.
    rewrite in_flat_map in Ho, Hc.
    destruct Ho as ([lane | lane] & Hin & Ho); cbn in Ho; [| tauto].
    destruct Hc as ([lane' | lane'] & Hin' & Hc); cbn in Hc; [tauto |].
    destruct Ho as [<- | []]. destruct Hc as [<- | []]. cbn in Hx.
    apply laneCoord_injective in Hx; [| apply Hb2; exact Hin'].
    subst lane. exact (Hb1 _ Hin Hin').
  - unfold Enhanced.spawnObjects. rewrite enhanced_create_all. cbn.
    split; [reflexivity |]. split; [reflexivity |].
    intros o c Ho Hc Hx.
    unfold enhancedNewObstacles in Ho. unfold enhancedNewCollectibles in Hc.
    rewrite in_flat_map in Ho, Hc.
    destruct Ho as ([lane | lane t] & Hin & Ho); cbn in Ho; [| tauto].
    destruct Hc as ([lane' | lane' t'] & Hin' & Hc); cbn in Hc; [tauto |].
    destruct Ho as [<- | []]. destruct Hc as [<- | []]. cbn in Hx.
    apply laneCoord_injective in Hx; [| apply (He2 _ _ Hin')].
    subst lane. exact (He1 _ _ Hin Hin').
Qed.

(** ** The collision scan of the basic game *)

Lemma basicScanFrame_refl (w : Basic.World) : basicScanFrame w w.
Proof. unfold basicScanFrame. repeat split; auto. lia. Qed.

Lemma basicScanFrame_trans (w1 w2 w3 : Basic.World) :
  basicScanFrame w1 w2 -> basicScanFrame w2 w3 -> basicScanFrame w1 w3.
Proof.
  unfold basicScanFrame.
  intros (A1 & A2 & A3 & A4 & A5 & A6 & A7 & A8 & A9 & A10)
         (B1 & B2 & B3 & B4 & B5 & B6 & B7 & B8 & B9 & B10).
  repeat split; try congruence; [lia | auto].
Qed.

Lemma basic_loseLife_frame (i : nat) (o : Basic.Obstacle) (w : Basic.World) :
  basicScanFrame w (Basic.loseLife i o w).
Proof.
  unfold basicScanFrame. cbn. repeat split; try lia. intros x. apply delete_In.
Qed.

Lemma basic_doGameOver_frame (w : Basic.World) : basicScanFrame w (Basic.doGameOver w).
Proof. unfold basicScanFrame. cbn. repeat split; auto. lia. Qed.

Lemma basic_loseLife_health (i : nat) (o : Basic.Obstacle) (w : Basic.World) :
  basicHealthOk w -> (1 <= Basic.lives (Basic.gameState w))%Z ->
  basicHealthOk (Basic.loseLife i o w).
Proof.
  unfold basicHealthOk. cbn. intros (Hm & Hc & Hl) H1. rewrite Hm, Hc. lia.
Qed.

(** The obstacle loop of [checkCollisions] never reads outside the array.
    When it runs to its end no hit was fatal; when it returns, the game is
    over and, if at least one life was left on entry, exactly 0 lives
    remain. *)
Lemma basic_checkObstacles_spec :
  forall (n : nat) (w : Basic.World),
    (n <= length (Basic.obstacles w))%nat ->
    match Basic.checkObstacles n w with
    | Basic.Finished w' =>
        basicScanFrame w w'
        /\ Basic.isPlaying (Basic.gameState w') = Basic.isPlaying (Basic.gameState w)
        /\ Basic.gameOver (Basic.gameState w') = Basic.gameOver (Basic.gameState w)
        /\ ((1 <= Basic.lives (Basic.gameState w))%Z ->
            (1 <= Basic.lives (Basic.gameState w'))%Z
            /\ (basicHealthOk w -> basicHealthOk w'))
    | Basic.Returned w' =>
        basicScanFrame w w'
        /\ Basic.isPlaying (Basic.gameState w') = false
        /\ Basic.gameOver (Basic.gameState w') = true
        /\ ((1 <= Basic.lives (Basic.gameState w))%Z ->
            Basic.lives (Basic.gameState w') = 0%Z
            /\ (basicHealthOk w -> basicHealthOk w'))
    | Basic.Threw _ => False
    end.
Proof.
  induction n as [| i IH]; intros w Hn; cbn [Basic.checkObstacles].
  - split; [apply basicScanFrame_refl |]. auto.
  - destruct (Basic.obstacles w !! i) as [o |] eqn:E.
    2: { apply lookup_ge_None in E. lia. }
    destruct (closerThan 1.0 _ _).
    + pose proof (basic_loseLife_frame i o w) as Hf.
      pose proof (basic_loseLife_health i o w) as Hh.
      assert (Hl : Basic.lives (Basic.gameState (Basic.loseLife i o w))
                   = (Basic.lives (Basic.gameState w) - 1)%Z) by reflexivity.
      assert (Hp : Basic.isPlaying (Basic.gameState (Basic.loseLife i o w))
                   = Basic.isPlaying (Basic.gameState w)) by reflexivity.
      assert (Hg : Basic.gameOver (Basic.gameState (Basic.loseLife i o w))
                   = Basic.gameOver (Basic.gameState w)) by reflexivity.
      assert (Hlen : (i <= length (Basic.obstacles (Basic.loseLife i o w)))%nat).
      { cbn. pose proof (delete_length_ge (Basic.obstacles w) i). lia. }
      destruct (Z.leb_spec (Basic.lives (Basic.gameState (Basic.loseLife i o w))) 0)
        as [Hle | Hgt].
      * split; [eapply basicScanFrame_trans; [exact Hf | apply basic_doGameOver_frame] |].
        split; [reflexivity |]. split; [reflexivity |].
        intros H1. split; [cbn in *; lia |].
        intros Hok. specialize (Hh Hok H1). revert Hh. unfold basicHealthOk. cbn. tauto.
      * specialize (IH _ Hlen). revert IH.
        destruct (Basic.checkObstacles i (Basic.loseLife i o w)) as [w' | w' | w'];
          [| | tauto]; intros (If & Ip & Ig & Il);
          (split; [eapply basicScanFrame_trans; eassumption |]);
          (split; [congruence |]); (split; [congruence |]);
          intros H1; (destruct Il as [Il1 Il2]; [lia |]); auto.
    + apply IH. lia.
Qed.

Lemma basicPickFrame_refl (w : Basic.World) : basicPickFrame w w.
Proof. unfold basicPickFrame. repeat split; auto. lia. Qed.

Lemma basicPickFrame_trans (w1 w2 w3 : Basic.World) :
  basicPickFrame w1 w2 -> basicPickFrame w2 w3 -> basicPickFrame w1 w3.
Proof.
  unfold basicPickFrame.
  intros (A1 & A2 & A3 & A4 & A5 & A6 & A7 & A8 & A9 & A10 & A11 & A12 & A13)
         (B1 & B2 & B3 & B4 & B5 & B6 & B7 & B8 & B9 & B10 & B11 & B12 & B13).
  repeat split; try congruence; [lia | auto].
Qed.

Lemma basic_pickUp_frame (i : nat) (c : Basic.Collectible) (w : Basic.World) :
  basicPickFrame w (Basic.pickUp i c w).
Proof.
  unfold basicPickFrame. cbn. repeat split; try lia. intros x. apply delete_In.
Qed.

(** The collectible loop never reads outside the array either. *)
Lemma basic_checkCollectibles_spec :
  forall (n : nat) (w : Basic.World),
    (n <= length (Basic.collectibles w))%nat ->
    exists w', Basic.checkCollectibles n w = Normal w' /\ basicPickFrame w w'.
Proof.
  induction n as [| i IH]; intros w Hn; cbn [Basic.checkCollectibles].
  - exists w. split; [reflexivity | apply basicPickFrame_refl].
  - destruct (Basic.collectibles w !! i) as [c |] eqn:E.
    2: { apply lookup_ge_None in E. lia. }
    destruct (closerThan 0.8 _ _).
    + destruct (IH (Basic.pickUp i c w)) as (w' & Hw' & Hf).
      { cbn. pose proof (delete_length_ge (Basic.collectibles w) i). lia. }
      exists w'. split; [exact Hw' |].
      eapply basicPickFrame_trans; [apply basic_pickUp_frame | exact Hf].
    + apply IH. lia.
Qed.

(** ** Culling keeps the entities in play *)

Lemma forEachCull_inPlay {A : Type} (upd : nat -> A -> A) (zof : A -> Q) :
  forall (fuel k : nat) (arr log : list A),
    Forall (fun a => inPlay (zof a) = true) arr ->
    Forall (fun a => inPlay (zof a) = true) (fst (forEachCull upd zof fuel k arr log)).
Proof.
  induction fuel as [| fuel IH]; intros k arr log H; cbn [forEachCull]; [exact H |].
  destruct (arr !! k) as [a |] eqn:E; [| apply IH; exact H].
  destruct (Qgtb (zof (upd k a)) 10) eqn:Ez; apply IH.
  - apply Forall_delete. exact H.
  - apply Forall_insert; [exact H |]. unfold inPlay. rewrite Ez. reflexivity.
Qed.

(** ** The phases of a basic frame *)

Lemma basic_cullObstacles_eq (dt : Q) (w : Basic.World) :
  Basic.cullObstacles dt w
  = let p := forEachCull (fun _ => Basic.obstacleUpdate dt) (fun o => posz (Basic.omesh o))
                         (length (Basic.obstacles w)) 0 (Basic.obstacles w)
                         (Basic.disposedObstacles w) in
    Basic.setObstacles (fst p) (snd p) w.
Proof. unfold Basic.cullObstacles. destruct (forEachCull _ _ _ _ _ _). reflexivity. Qed.

Lemma basic_cullCollectibles_eq (dt : Q) (w : Basic.World) :
  Basic.cullCollectibles dt w
  = let p := forEachCull (fun _ => Basic.collectibleUpdate dt)
                         (fun c => posz (Basic.cmesh c))
                         (length (Basic.collectibles w)) 0 (Basic.collectibles w)
                         (Basic.disposedCollectibles w) in
    Basic.setCollectibles (fst p) (snd p) w.
Proof. unfold Basic.cullCollectibles. destruct (forEachCull _ _ _ _ _ _). reflexivity. Qed.

Lemma basic_spawnPhase_eq (dt : Q) (rnd : nat -> Q) (w : Basic.World) :
  Basic.spawnPhase dt rnd w
  = if Qgeb (Basic.spawnTimer w + dt) Basic.spawnInterval
    then
      let g := Basic.gameState w in
      let ds := Basic.spawnDecisions rnd in
      Basic.mkWorld
        (Basic.mkGameState (Basic.isPlaying g) (Basic.isPaused g) (Basic.score g)
                           (Basic.speed g + 0.1) (Basic.lives g) (Basic.gameOver g))
        (Basic.player w)
        (Basic.obstacles w ++ basicNewObstacles (Basic.speed g) ds)
        (Basic.collectibles w ++ basicNewCollectibles (Basic.speed g) ds)
        (Basic.healthBar w) 0 (Basic.lastTime w)
        (Basic.disposedObstacles w) (Basic.disposedCollectibles w)
    else Basic.setSpawnTimer (Basic.spawnTimer w + dt) w.
Proof.
  unfold Basic.spawnPhase, Basic.spawnObjects. rewrite basic_create_all. cbn.
  destruct (Qgeb _ _); reflexivity.
Qed.

Lemma spawned_inPlay : inPlay (-50) = true.
Proof. reflexivity. Qed.

Lemma basic_cullObstacles_frame (dt : Q) (w : Basic.World) :
  let w' := Basic.cullObstacles dt w in
  Basic.gameState w' = Basic.gameState w
  /\ Basic.player w' = Basic.player w
  /\ Basic.collectibles w' = Basic.collectibles w
  /\ Basic.healthBar w' = Basic.healthBar w
  /\ Basic.spawnTimer w' = Basic.spawnTimer w
  /\ Basic.lastTime w' = Basic.lastTime w
  /\ (Forall (fun o => inPlay (posz (Basic.omesh o)) = true) (Basic.obstacles w) ->
      Forall (fun o => inPlay (posz (Basic.omesh o)) = true) (Basic.obstacles w')).
Proof.
  rewrite basic_cullObstacles_eq. cbn. repeat split.
  intros H. apply forEachCull_inPlay. exact H.
Qed.

Lemma basic_cullCollectibles_frame (dt : Q) (w : Basic.World) :
  let w' := Basic.cullCollectibles dt w in
  Basic.gameState w' = Basic.gameState w
  /\ Basic.player w' = Basic.player w
  /\ Basic.obstacles w' = Basic.obstacles w
  /\ Basic.healthBar w' = Basic.healthBar w
  /\ Basic.spawnTimer w' = Basic.spawnTimer w
  /\ Basic.lastTime w' = Basic.lastTime w
  /\ (Forall (fun c => inPlay (posz (Basic.cmesh c)) = true) (Basic.collectibles w) ->
      Forall (fun c => inPlay (posz (Basic.cmesh c)) = true) (Basic.collectibles w')).
Proof.
  rewrite basic_cullCollectibles_eq. cbn. repeat split.
  intros H. apply forEachCull_inPlay. exact H.
Qed.

Lemma basic_spawnPhase_frame (dt : Q) (rnd : nat -> Q) (w : Basic.World) :
  let w' := Basic.spawnPhase dt rnd w in
  Basic.player w' = Basic.player w
  /\ Basic.healthBar w' = Basic.healthBar w
  /\ Basic.lastTime w' = Basic.lastTime w
  /\ Basic.lives (Basic.gameState w') = Basic.lives (Basic.gameState w)
  /\ Basic.isPlaying (Basic.gameState w') = Basic.isPlaying (Basic.gameState w)
  /\ Basic.gameOver (Basic.gameState w') = Basic.gameOver (Basic.gameState w)
  /\ Basic.isPaused (Basic.gameState w') = Basic.isPaused (Basic.gameState w)
  /\ Basic.score (Basic.gameState w') = Basic.score (Basic.gameState w)
  /\ (Forall (fun o => inPlay (posz (Basic.omesh o)) = true) (Basic.obstacles w) ->
      Forall (fun o => inPlay (posz (Basic.omesh o)) = true) (Basic.obstacles w'))
  /\ (Forall (fun c => inPlay (posz (Basic.cmesh c)) = true) (Basic.collectibles w) ->
      Forall (fun c => inPlay (posz (Basic.cmesh c)) = true) (Basic.collectibles w')).
Proof.
  rewrite basic_spawnPhase_eq.
  destruct (Qgeb _ _); cbn; repeat split; auto.
  - intros H. apply Forall_app. split; [auto |].
    apply Forall_forall. intros o Hin. apply list_elem_of_In in Hin.
    apply basicNewObstacles_spawned in Hin. destruct Hin as [-> _]. reflexivity.
  - intros H. apply Forall_app. split; [auto |].
    apply Forall_forall. intros c Hin. apply list_elem_of_In in Hin.
    apply basicNewCollectibles_spawned in Hin. destruct Hin as [-> _]. reflexivity.
Qed.

Lemma basic_before_spec (dt : Q) (rnd : nat -> Q) (w : Basic.World) :
  let w' := basicBeforeCollisions dt rnd w in
  Basic.healthBar w' = Basic.healthBar w
  /\ Basic.lastTime w' = Basic.lastTime w
  /\ Basic.player w' = Basic.playerUpdate dt (Basic.player w)
  /\ Basic.lives (Basic.gameState w') = Basic.lives (Basic.gameState w)
  /\ Basic.isPlaying (Basic.gameState w') = Basic.isPlaying (Basic.gameState w)
  /\ Basic.gameOver (Basic.gameState w') = Basic.gameOver (Basic.gameState w)
  /\ Basic.isPaused (Basic.gameState w') = Basic.isPaused (Basic.gameState w)
  /\ Basic.score (Basic.gameState w') = Basic.score (Basic.gameState w)
  /\ (Forall (fun o => inPlay (posz (Basic.omesh o)) = true) (Basic.obstacles w) ->
      Forall (fun o => inPlay (posz (Basic.omesh o)) = true) (Basic.obstacles w'))
  /\ (Forall (fun c => inPlay (posz (Basic.cmesh c)) = true) (Basic.collectibles w) ->
      Forall (fun c => inPlay (posz (Basic.cmesh c)) = true) (Basic.collectibles w')).
Proof.
  unfold basicBeforeCollisions.
  set (w1 := Basic.setPlayer _ w).
  destruct (basic_cullObstacles_frame dt w1) as (A1 & A2 & A3 & A4 & A5 & A6 & A7).
  set (w2 := Basic.cullObstacles dt w1) in *.
  destruct (basic_cullCollectibles_frame dt w2) as (B1 & B2 & B3 & B4 & B5 & B6 & B7).
  set (w3 := Basic.cullCollectibles dt w2) in *.
  destruct (basic_spawnPhase_frame dt rnd w3)
    as (C1 & C2 & C3 & C4 & C5 & C6 & C7 & C8 & C9 & C10).
  set (w4 := Basic.spawnPhase dt rnd w3) in *.
  cbn zeta.
  rewrite C1, C2, C3, C4, C5, C6, C7, C8, B1, B2, B4, B6, A1, A2, A4, A6.
  repeat split.
  - intros H. apply C9. rewrite B3. apply A7. exact H.
  - intros H. apply C10. apply B7. rewrite A3. exact H.
Qed.

Lemma Forall_In_sub {A : Type} (P : A -> Prop) (l l' : list A) :
  (forall a, In a l' -> In a l) -> Forall P l -> Forall P l'.
Proof.
  intros Hsub H. apply List.Forall_forall. intros a Ha.
  eapply List.Forall_forall in H; [exact H |]. apply Hsub. exact Ha.
Qed.

(** A frame of the basic game in a running game completes normally; lives do
    not grow, and if at least one life was left the frame ends either still
    running with at least one life, or over with exactly 0 lives. *)
Lemma basic_frame_spec (dt : Q) (rnd : nat -> Q) (w : Basic.World) :
  Basic.playing w = true ->
  exists w',
    Basic.frame dt rnd w = Normal w'
    /\ (Basic.lives (Basic.gameState w') <= Basic.lives (Basic.gameState w))%Z
    /\ Basic.player w' = Basic.playerUpdate dt (Basic.player w)
    /\ (Forall (fun o => inPlay (posz (Basic.omesh o)) = true) (Basic.obstacles w) ->
        Forall (fun o => inPlay (posz (Basic.omesh o)) = true) (Basic.obstacles w'))
    /\ (Forall (fun c => inPlay (posz (Basic.cmesh c)) = true) (Basic.collectibles w) ->
        Forall (fun c => inPlay (posz (Basic.cmesh c)) = true) (Basic.collectibles w'))
    /\ ((1 <= Basic.lives (Basic.gameState w))%Z -> basicHealthOk w ->
        basicHealthOk w'
        /\ ((Basic.playing w' = true /\ (1 <= Basic.lives (Basic.gameState w'))%Z)
            \/ (Basic.isPlaying (Basic.gameState w') = false
                /\ Basic.gameOver (Basic.gameState w') = true
                /\ Basic.lives (Basic.gameState w') = 0%Z))).
Proof.
  intros Hplay. unfold Basic.frame. rewrite Hplay.
  change (Basic.spawnPhase dt rnd _) with (basicBeforeCollisions dt rnd w).
  destruct (basic_before_spec dt rnd w)
    as (A1 & A2 & A3 & A4 & A5 & A6 & A7 & A8 & A9 & A10).
  set (w4 := basicBeforeCollisions dt rnd w) in *.
  assert (Hplay4 : Basic.playing w4 = true).
  { unfold Basic.playing in *. rewrite A5, A6. exact Hplay. }
  assert (Hok4 : basicHealthOk w -> basicHealthOk w4).
  { unfold basicHealthOk. rewrite A1, A4. tauto. }
  unfold Basic.checkCollisions.
  pose proof (basic_checkObstacles_spec (length (Basic.obstacles w4)) w4 (le_n _)) as Hs.
  destruct (Basic.checkObstacles _ w4) as [w5 | w5 | w5]; [| | contradiction].
  - destruct Hs as (F & Ip & Ig & Il).
    destruct F as (F1 & F2 & F3 & F4 & F5 & F6 & F7 & F8 & F9 & F10).
    destruct (basic_checkCollectibles_spec (length (Basic.collectibles w5)) w5 (le_n _))
      as (w6 & -> & P).
    destruct P as (P1 & P2 & P3 & P4 & P5 & P6 & P7 & P8 & P9 & P10 & P11 & P12 & P13).
    eexists. split; [reflexivity |]. cbn.
    split; [lia |]. split; [congruence |].
    split; [intros H; rewrite P2; eapply Forall_In_sub; [exact F10 | auto] |].
    split; [intros H; eapply Forall_In_sub; [exact P13 |]; rewrite F2; auto |].
    intros H1 Hok. rewrite <- A4 in H1. destruct (Il H1) as [Il1 Il2].
    specialize (Il2 (Hok4 Hok)).
    split.
    + unfold basicHealthOk in *. cbn. rewrite P4, P11. exact Il2.
    + left. unfold Basic.playing in *. cbn. rewrite P7, P8, P11, Ip, Ig. auto.
  - destruct Hs as (F & Ip & Ig & Il).
    destruct F as (F1 & F2 & F3 & F4 & F5 & F6 & F7 & F8 & F9 & F10).
    eexists. split; [reflexivity |]. cbn.
    split; [lia |]. split; [congruence |].
    split; [intros H; eapply Forall_In_sub; [exact F10 | auto] |].
    split; [intros H; rewrite F2; auto |].
    intros H1 Hok. rewrite <- A4 in H1. destruct (Il H1) as [Il1 Il2].
    specialize (Il2 (Hok4 Hok)).
    split; [exact Il2 |]. right. auto.
Qed.

Lemma basic_playerUpdate_keeps (dt : Q) (p : Basic.Player) :
  vz (Basic.position (Basic.playerUpdate dt p)) = vz (Basic.position p)
  /\ Basic.currentLane (Basic.playerUpdate dt p) = Basic.currentLane p
  /\ Basic.targetX (Basic.playerUpdate dt p) = Basic.targetX p.
Proof.
  unfold Basic.playerUpdate. destruct (Basic.isGrounded p); cbn; [auto |].
  destruct (Qle_bool _ _); cbn; auto.
Qed.

Lemma basic_control_inv (f : Basic.Player -> Basic.Player) (w : Basic.World) :
  (forall p, vz (Basic.position (f p)) = vz (Basic.position p)) ->
  (forall p, basicLaneOk p -> basicLaneOk (f p)) ->
  basicInv w -> basicInv (Basic.control f w).
Proof.
  intros Hz Hl Hinv. unfold Basic.control.
  destruct (_ || _); [exact Hinv |].
  destruct Hinv as (I1 & I2 & I3 & I4 & I5 & I6).
  unfold basicInv. cbn. rewrite Hz.
  split; [exact I1 |]. split; [exact I2 |]. split; [exact I3 |].
  split; [apply Hl; exact I4 |]. split; assumption.
Qed.

Lemma basic_step_inv (w : Basic.World) (c : Basic.Command) :
  basicInv w -> basicInv (Basic.step w c).
Proof.
  intros Hinv. destruct c as [| | | | currentTime rnd]; cbn [Basic.step].
  - destruct Hinv as ((Hm & Hc & Hl) & I2 & I3 & I4 & I5 & I6).
    unfold basicInv, basicHealthOk, Basic.playing. cbn. rewrite Hm.
    repeat split; try assumption; try lia; try constructor; apply I4.
  - apply basic_control_inv; [| | exact Hinv].
    + intros p. unfold Basic.jump. destruct (Basic.isGrounded p); reflexivity.
    + intros p. unfold Basic.jump, basicLaneOk. destruct (Basic.isGrounded p); auto.
  - apply basic_control_inv; [| apply basic_moveLeft_ok | exact Hinv].
    intros p. unfold Basic.moveLeft. destruct (_ >? _)%Z; reflexivity.
  - apply basic_control_inv; [| apply basic_moveRight_ok | exact Hinv].
    intros p. unfold Basic.moveRight. destruct (_ <? _)%Z; reflexivity.
  - unfold Basic.animate.
    set (dt := (currentTime - Basic.lastTime w) / 1000).
    set (w0 := Basic.setLastTime currentTime w).
    assert (Hinv0 : basicInv w0) by exact Hinv.
    clearbody w0 dt. clear Hinv w.
    destruct (Basic.playing w0) eqn:Hplay.
    + destruct (basic_frame_spec dt rnd w0 Hplay) as (w' & -> & Hl & Hp & Ho & Hc & Hh).
      destruct Hinv0 as (I1 & I2 & I3 & I4 & I5 & I6).
      destruct (Hh (I2 Hplay) I1) as (Hok & Hcase).
      destruct (basic_playerUpdate_keeps dt (Basic.player w0)) as (K1 & K2 & K3).
      cbn [stateOf]. unfold basicInv. rewrite Hp.
      split; [exact Hok |]. split.
      { intros Hp'. destruct Hcase as [[_ H] | (H & _ & _)]; [exact H |].
        unfold Basic.playing in Hp'. rewrite H in Hp'. discriminate. }
      split; [congruence |].
      split; [unfold basicLaneOk in *; rewrite K2, K3; exact I4 |].
      split; auto.
    + unfold Basic.frame. rewrite Hplay. exact Hinv0.
Qed.

Lemma basic_reachable_inv (w : Basic.World) : Basic.reachable w -> basicInv w.
Proof.
  intros [cs ->]. unfold Basic.run.
  assert (H0 : basicInv Basic.initial).
  { unfold basicInv, basicHealthOk, basicLaneOk, Basic.playing. cbn.
    repeat split; try lia; try discriminate; constructor. }
  revert H0. generalize Basic.initial.
  induction cs as [| c cs IH]; intros w H; cbn [fold_left]; [exact H |].
  apply IH. apply basic_step_inv. exact H.
Qed.

(** ** The backward culling loop visits every element exactly once *)

Lemma reverseCull_spec {A : Type} (upd : nat -> A -> A) (zof : A -> Q) :
  forall (n : nat) (arr log : list A),
    (n <= length arr)%nat ->
    reverseCull upd zof n arr log
    = Normal (kept zof (allUpdated upd (take n arr)) ++ drop n arr,
              log ++ rev (culled zof (allUpdated upd (take n arr)))).
Proof.
  unfold kept, culled, allUpdated.
  induction n as [| i IH]; intros arr log Hn; cbn [reverseCull].
  - rewrite take_0, drop_0. cbn. rewrite app_nil_r. reflexivity.
  - destruct (arr !! i) as [a |] eqn:E.
    2: { apply lookup_ge_None in E. lia. }
    rewrite (take_S_r _ _ _ E), imap_app, !List.filter_app.
    rewrite length_take_le by lia. cbn [imap List.filter].
    replace (i + 0)%nat with i by lia.
    unfold inPlay. destruct (Qgtb (zof (upd i a)) 10) eqn:Ez; cbn [negb].
    + rewrite IH.
      2: { pose proof (delete_length_ge arr i). lia. }
      destruct (delete_split _ _ _ E) as [_ Hd].
      rewrite Hd, take_app_length', drop_app_length' by (rewrite length_take_le; lia).
      rewrite !app_nil_r, rev_app_distr. cbn. rewrite <- app_assoc. reflexivity.
    + rewrite IH by (rewrite length_insert; lia).
      rewrite take_insert_ge, drop_insert_ge by lia.
      rewrite (drop_S _ _ _ E). replace (i - i)%nat with 0%nat by lia. cbn.
      rewrite !app_nil_r, <- app_assoc. reflexivity.
Qed.

(** On the whole array: the loop ends normally with the updated elements
    that are in play, in order, and has disposed the others. *)
Lemma reverseCull_all {A : Type} (upd : nat -> A -> A) (zof : A -> Q)
      (arr log : list A) :
  reverseCull upd zof (length arr) arr log
  = Normal (kept zof (allUpdated upd arr),
            log ++ rev (culled zof (allUpdated upd arr))).
Proof.
  rewrite reverseCull_spec by lia.
  rewrite firstn_all, drop_all, app_nil_r. reflexivity.
Qed.

Lemma kept_inPlay {A : Type} (zof : A -> Q) (arr : list A) :
  Forall (fun a => inPlay (zof a) = true) (kept zof arr).
Proof.
  apply List.Forall_forall. intros a Ha. apply List.filter_In in Ha. tauto.
Qed.

(** ** The collision scans of the enhanced game *)

Lemma enhancedScanFrame_refl (w : Enhanced.World) : enhancedScanFrame w w.
Proof. unfold enhancedScanFrame. repeat split; auto. lia. Qed.

Lemma enhancedScanFrame_trans (w1 w2 w3 : Enhanced.World) :
  enhancedScanFrame w1 w2 -> enhancedScanFrame w2 w3 -> enhancedScanFrame w1 w3.
Proof.
  unfold enhancedScanFrame.
  intros (A1 & A2 & A3 & A4 & A5 & A6 & A7 & A8 & A9 & A10)
         (B1 & B2 & B3 & B4 & B5 & B6 & B7 & B8 & B9 & B10).
  repeat split; try congruence; [lia | auto | auto].
Qed.

Lemma enhanced_loseLife_frame (i : nat) (o : Enhanced.DiwaliObstacle) (w : Enhanced.World) :
  enhancedScanFrame w (Enhanced.loseLife i o w).
Proof.
  unfold enhancedScanFrame. cbn. repeat split; try lia; auto.
  intros x. apply delete_In.
Qed.

Lemma enhanced_stopGame_frame (w : Enhanced.World) :
  enhancedScanFrame w (Enhanced.stopGame w).
Proof. unfold enhancedScanFrame. cbn. repeat split; try lia; tauto. Qed.

(** Whether the obstacle loop ends normally or by a throw, the state it
    leaves has lost no more lives than were left: once the last life is
    lost the game is stopped and both collections are empty, so that no
    further hit can be counted. *)
Lemma enhanced_checkObstacles_spec :
  forall (n : nat) (w : Enhanced.World),
    enhancedScanOk w ->
    let w' := stateOf (Enhanced.checkObstacles n w) in
    enhancedScanFrame w w'
    /\ enhancedScanOk w'
    /\ (Enhanced.isPlaying (Enhanced.gameState w') = true ->
        Enhanced.gameOver (Enhanced.gameState w') = Enhanced.gameOver (Enhanced.gameState w)).
Proof.
  induction n as [| i IH]; intros w Hok; cbn [Enhanced.checkObstacles].
  - cbn. split; [apply enhancedScanFrame_refl | auto].
  - destruct (Enhanced.obstacles w !! i) as [o |] eqn:E.
    2: { cbn. split; [apply enhancedScanFrame_refl | auto]. }
    destruct (closerThan 1 _ _); [| apply IH; exact Hok].
    destruct Hok as [[Hp Hl] | (_ & _ & _ & Hnil & _)].
    2: { rewrite Hnil in E. discriminate. }
    pose proof (enhanced_loseLife_frame i o w) as Hf.
    assert (Hl1 : Enhanced.lives (Enhanced.gameState (Enhanced.loseLife i o w))
                  = (Enhanced.lives (Enhanced.gameState w) - 1)%Z) by reflexivity.
    assert (Hp1 : Enhanced.isPlaying (Enhanced.gameState (Enhanced.loseLife i o w))
                  = Enhanced.isPlaying (Enhanced.gameState w)) by reflexivity.
    assert (Hg1 : Enhanced.gameOver (Enhanced.gameState (Enhanced.loseLife i o w))
                  = Enhanced.gameOver (Enhanced.gameState w)) by reflexivity.
    set (w1 := Enhanced.loseLife i o w) in *.
    destruct (Z.leb_spec (Enhanced.lives (Enhanced.gameState w1)) 0) as [Hle | Hgt].
    + destruct (IH (Enhanced.stopGame w1)) as (If & Iok & Ig).
      { right. cbn. repeat split; try reflexivity. lia. }
      cbn zeta. split.
      { eapply enhancedScanFrame_trans; [exact Hf |].
        eapply enhancedScanFrame_trans; [apply enhanced_stopGame_frame | exact If]. }
      split; [exact Iok |].
      intros Hplay. exfalso.
      destruct If as (_ & _ & _ & _ & _ & _ & _ & Hlives & _).
      destruct Iok as [[_ H1] | (H0 & _)]; [cbn in Hlives; lia | congruence].
    + destruct (IH w1) as (If & Iok & Ig).
      { left. split; [congruence | lia]. }
      cbn zeta. split; [eapply enhancedScanFrame_trans; eassumption |].
      split; [exact Iok |]. intros Hplay. rewrite (Ig Hplay). exact Hg1.
Qed.

Lemma enhancedPickFrame_refl (w : Enhanced.World) : enhancedPickFrame w w.
Proof. unfold enhancedPickFrame. repeat split; auto. lia. Qed.

Lemma enhancedPickFrame_trans (w1 w2 w3 : Enhanced.World) :
  enhancedPickFrame w1 w2 -> enhancedPickFrame w2 w3 -> enhancedPickFrame w1 w3.
Proof.
  unfold enhancedPickFrame.
  intros (A1 & A2 & A3 & A4 & A5 & A6 & A7 & A8 & A9 & A10 & A11 & A12)
         (B1 & B2 & B3 & B4 & B5 & B6 & B7 & B8 & B9 & B10 & B11 & B12).
  repeat split; try congruence; [lia | auto].
Qed.

Lemma getValue_nonneg (c : Enhanced.DiwaliCollectible) : (0 <= Enhanced.getValue c)%Z.
Proof. unfold Enhanced.getValue. destruct (Enhanced.ctype c) as [[] |]; lia. Qed.

Lemma enhanced_pickUp_frame (i : nat) (c : Enhanced.DiwaliCollectible) (w : Enhanced.World) :
  enhancedPickFrame w (Enhanced.pickUp i c w).
Proof.
  unfold enhancedPickFrame. cbn. repeat split; auto.
  - pose proof (getValue_nonneg c). lia.
  - intros x. apply delete_In.
Qed.

Lemma enhanced_checkCollectibles_spec :
  forall (n : nat) (w : Enhanced.World),
    (n <= length (Enhanced.collectibles w))%nat ->
    exists w', Enhanced.checkCollectibles n w = Normal w' /\ enhancedPickFrame w w'.
Proof.
  induction n as [| i IH]; intros w Hn; cbn [Enhanced.checkCollectibles].
  - exists w. split; [reflexivity | apply enhancedPickFrame_refl].
  - destruct (Enhanced.collectibles w !! i) as [c |] eqn:E.
    2: { apply lookup_ge_None in E. lia. }
    destruct (closerThan 0.8 _ _).
    + destruct (IH (Enhanced.pickUp i c w)) as (w' & Hw' & Hf).
      { cbn. pose proof (delete_length_ge (Enhanced.collectibles w) i). lia. }
      exists w'. split; [exact Hw' |].
      eapply enhancedPickFrame_trans; [apply enhanced_pickUp_frame | exact Hf].
    + apply IH. lia.
Qed.

(** ** The phases of an enhanced update *)

Lemma enhanced_spawnPhase_eq (dt : Q) (rnd : nat -> Q) (w : Enhanced.World) :
  Enhanced.spawnPhase dt rnd w
  = if Qgeb (Enhanced.spawnTimer w + dt) (Enhanced.spawnInterval w)
    then
      let g := Enhanced.gameState w in
      let ds := Enhanced.spawnDecisions rnd in
      Enhanced.mkWorld
        (Enhanced.player w)
        (Enhanced.obstacles w ++ enhancedNewObstacles (Enhanced.speed g) ds)
        (Enhanced.collectibles w ++ enhancedNewCollectibles (Enhanced.speed g) ds)
        (Enhanced.mkGameState (Enhanced.isPlaying g) (Enhanced.isPaused g)
                              (Enhanced.score g) (Enhanced.speed g + 0.1)
                              (Enhanced.lives g) (Enhanced.gameOver g) (Enhanced.theme g))
        0 (Enhanced.max 1.2 (Enhanced.spawnInterval w - 0.02))
        (Enhanced.disposedObstacles w) (Enhanced.disposedCollectibles w)
    else Enhanced.setSpawnTimer (Enhanced.spawnTimer w + dt) w.
Proof.
  unfold Enhanced.spawnPhase, Enhanced.spawnObjects. rewrite enhanced_create_all. cbn.
  destruct (Qgeb _ _); reflexivity.
Qed.

Lemma enhanced_update_unfold (dt : Q) (rnd sine : nat -> Q) (w : Enhanced.World) :
  Enhanced.isPlaying (Enhanced.gameState w) = true ->
  Enhanced.isPaused (Enhanced.gameState w) = false ->
  Enhanced.update dt rnd sine w
  = Enhanced.andThen (Enhanced.checkCollisions (enhancedBeforeCollisions dt rnd sine w))
                     (fun w => Normal (Enhanced.addScore (Qfloor (dt * 5)) w)).
Proof.
  intros Hp Hq. unfold Enhanced.update. rewrite Hp, Hq. cbn [negb orb].
  unfold Enhanced.cullObstacles. rewrite reverseCull_all. cbn [Enhanced.andThen].
  unfold Enhanced.cullCollectibles. rewrite reverseCull_all. cbn [Enhanced.andThen].
  reflexivity.
Qed.

Lemma enhanced_before_spec (dt : Q) (rnd sine : nat -> Q) (w : Enhanced.World) :
  let w' := enhancedBeforeCollisions dt rnd sine w in
  Enhanced.player w' = Enhanced.playerUpdate dt (Enhanced.player w)
  /\ Enhanced.lives (Enhanced.gameState w') = Enhanced.lives (Enhanced.gameState w)
  /\ Enhanced.isPlaying (Enhanced.gameState w') = Enhanced.isPlaying (Enhanced.gameState w)
  /\ Enhanced.gameOver (Enhanced.gameState w') = Enhanced.gameOver (Enhanced.gameState w)
  /\ Enhanced.isPaused (Enhanced.gameState w') = Enhanced.isPaused (Enhanced.gameState w)
  /\ Enhanced.score (Enhanced.gameState w') = Enhanced.score (Enhanced.gameState w)
  /\ Forall (fun o => inPlay (posz (Enhanced.omesh o)) = true) (Enhanced.obstacles w')
  /\ Forall (fun c => inPlay (posz (Enhanced.cmesh c)) = true) (Enhanced.collectibles w').
Proof.
  unfold enhancedBeforeCollisions. rewrite enhanced_spawnPhase_eq.
  destruct (Qgeb _ _); cbn; repeat split;
    try (apply (kept_inPlay (fun o => posz (Enhanced.omesh o))));
    try (apply (kept_inPlay (fun c => posz (Enhanced.cmesh c)))).
  - apply Forall_app. split; [apply (kept_inPlay (fun o => posz (Enhanced.omesh o))) |].
    apply Forall_forall. intros o Hin. apply list_elem_of_In in Hin.
    apply enhancedNewObstacles_spawned in Hin. destruct Hin as [-> _]. reflexivity.
  - apply Forall_app. split; [apply (kept_inPlay (fun c => posz (Enhanced.cmesh c))) |].
    apply Forall_forall. intros c Hin. apply list_elem_of_In in Hin.
    apply enhancedNewCollectibles_spawned in Hin. destruct Hin as [-> _]. reflexivity.
Qed.

(** An [update] of a running, unpaused enhanced game, whether it ends
    normally or by a throw: lives do not grow, every entity left is in
    play, and if a life was left on entry the game is afterwards either
    running with a life left or stopped with exactly 0 lives and empty
    collections. *)
Lemma enhanced_update_spec (dt : Q) (rnd sine : nat -> Q) (w : Enhanced.World) :
  Enhanced.isPlaying (Enhanced.gameState w) = true ->
  Enhanced.isPaused (Enhanced.gameState w) = false ->
  let w' := stateOf (Enhanced.update dt rnd sine w) in
  (Enhanced.lives (Enhanced.gameState w') <= Enhanced.lives (Enhanced.gameState w))%Z
  /\ Enhanced.player w' = Enhanced.playerUpdate dt (Enhanced.player w)
  /\ Forall (fun o => inPlay (posz (Enhanced.omesh o)) = true) (Enhanced.obstacles w')
  /\ Forall (fun c => inPlay (posz (Enhanced.cmesh c)) = true) (Enhanced.collectibles w')
  /\ ((1 <= Enhanced.lives (Enhanced.gameState w))%Z ->
      enhancedScanOk w'
      /\ (Enhanced.isPlaying (Enhanced.gameState w') = true ->
          Enhanced.gameOver (Enhanced.gameState w')
          = Enhanced.gameOver (Enhanced.gameState w))).
Proof.
  intros Hp Hq. rewrite (enhanced_update_unfold dt rnd sine w Hp Hq).
  destruct (enhanced_before_spec dt rnd sine w) as (A1 & A2 & A3 & A4 & A5 & A6 & A7 & A8).
  set (w4 := enhancedBeforeCollisions dt rnd sine w) in *.
  unfold Enhanced.checkCollisions.
  (* without a life left the obstacle loop may take lives below 0, but never raises them *)
  assert (Hmono : forall n v, (Enhanced.lives (Enhanced.gameState
                                 (stateOf (Enhanced.checkObstacles n v)))
                               <= Enhanced.lives (Enhanced.gameState v))%Z
                    /\ Enhanced.player (stateOf (Enhanced.checkObstacles n v))
                       = Enhanced.player v
                    /\ (forall o, In o (Enhanced.obstacles
                                          (stateOf (Enhanced.checkObstacles n v))) ->
                                  In o (Enhanced.obstacles v))
                    /\ (forall c, In c (Enhanced.collectibles
                                          (stateOf (Enhanced.checkObstacles n v))) ->
                                  In c (Enhanced.collectibles v))).
  { induction n as [| i IH]; intros v; cbn [Enhanced.checkObstacles];
      [cbn; repeat split; auto; lia |].
    destruct (Enhanced.obstacles v !! i) as [o |]; [| cbn; repeat split; auto; lia].
    destruct (closerThan 1 _ _); [| apply IH].
    match goal with |- context [Enhanced.checkObstacles i ?u] =>
      destruct (IH u) as (I1 & I2 & I3 & I4); set (u0 := u) in * end.
    assert (Hu : (Enhanced.lives (Enhanced.gameState u0)
                  <= Enhanced.lives (Enhanced.gameState v))%Z
                 /\ Enhanced.player u0 = Enhanced.player v
                 /\ (forall o', In o' (Enhanced.obstacles u0) -> In o' (Enhanced.obstacles v))
                 /\ (forall c, In c (Enhanced.collectibles u0) ->
                               In c (Enhanced.collectibles v))).
    { subst u0. destruct (_ <=? _)%Z; cbn; repeat split; try lia; try tauto.
      intros o'. apply delete_In. }
    destruct Hu as (U1 & U2 & U3 & U4).
    repeat split; [lia | congruence | auto | auto]. }
  destruct (Hmono (length (Enhanced.obstacles w4)) w4) as (M1 & M2 & M3 & M4).
  pose proof (enhanced_checkObstacles_spec (length (Enhanced.obstacles w4)) w4) as Hs.
  destruct (Enhanced.checkObstacles _ w4) as [w5 | w5]; cbn [stateOf] in *.
  - destruct (enhanced_checkCollectibles_spec (length (Enhanced.collectibles w5)) w5 (le_n _))
      as (w6 & -> & P).
    destruct P as (P1 & P2 & P3 & P4 & P5 & P6 & P7 & P8 & P9 & P10 & P11 & P12).
    cbn. split; [lia |]. split; [congruence |].
    split; [rewrite P2; eapply Forall_In_sub; [exact M3 | exact A7] |].
    split; [eapply Forall_In_sub; [| exact A8]; auto |].
    intros H1. destruct Hs as (F & Hok & Hg); [left; split; [congruence | lia] |].
    split.
    + unfold enhancedScanOk in *. cbn. rewrite P6, P7, P10, P2.
      destruct Hok as [Hok | (K1 & K2 & K3 & K4 & K5)]; [left; exact Hok |].
      right. repeat split; try assumption.
      destruct (Enhanced.collectibles w6) as [| c l]; [reflexivity |].
      exfalso. specialize (P12 c (or_introl eq_refl)). rewrite K5 in P12. exact P12.
    + rewrite P6, P7. intros Hplay. rewrite (Hg Hplay). exact A4.
  - cbn. split; [lia |]. split; [congruence |].
    split; [eapply Forall_In_sub; [exact M3 | exact A7] |].
    split; [eapply Forall_In_sub; [exact M4 | exact A8] |].
    intros H1. destruct Hs as (F & Hok & Hg); [left; split; [congruence | lia] |].
    split; [exact Hok |]. intros Hplay. rewrite (Hg Hplay). exact A4.
Qed.

Lemma enhanced_playerUpdate_keeps (dt : Q) (p : Enhanced.EnhancedPlayer) :
  vz (Enhanced.position (Enhanced.playerUpdate dt p)) = vz (Enhanced.position p)
  /\ Enhanced.currentLane (Enhanced.playerUpdate dt p) = Enhanced.currentLane p
  /\ Enhanced.targetX (Enhanced.playerUpdate dt p) = Enhanced.targetX p.
Proof.
  unfold Enhanced.playerUpdate. destruct (Enhanced.isGrounded p); cbn; [auto |].
  destruct (Qle_bool _ _); cbn; auto.
Qed.

Lemma enhanced_control_inv (f : Enhanced.EnhancedPlayer -> Enhanced.EnhancedPlayer)
      (w : Enhanced.World) :
  (forall p, vz (Enhanced.position (f p)) = vz (Enhanced.position p)) ->
  (forall p, enhancedLaneOk p -> enhancedLaneOk (f p)) ->
  enhancedInv w -> enhancedInv (Enhanced.control f w).
Proof.
  intros Hz Hl Hinv. unfold Enhanced.control.
  destruct (_ || _); [exact Hinv |].
  destruct Hinv as (I1 & I2 & I3 & I4 & I5 & I6).
  unfold enhancedInv. cbn. rewrite Hz.
  split; [exact I1 |]. split; [exact I2 |]. split; [exact I3 |].
  split; [apply Hl; exact I4 |]. split; assumption.
Qed.

Lemma enhanced_step_inv (w : Enhanced.World) (c : Enhanced.Command) :
  enhancedInv w -> enhancedInv (Enhanced.step w c).
Proof.
  intros Hinv. destruct c as [| | | | | | | dt rnd sine]; cbn [Enhanced.step].
  - destruct Hinv as (I1 & I2 & I3 & I4 & I5 & I6). unfold enhancedInv. cbn.
    split; [lia |]. split; [intros _; split; [lia | reflexivity] |].
    split; [exact I3 |]. split; [exact I4 |]. split; constructor.
  - destruct Hinv as (I1 & I2 & I3 & I4 & I5 & I6). unfold enhancedInv. cbn.
    split; [exact I1 |]. split; [exact I2 |]. split; [exact I3 |]. split; [exact I4 |].
    split; assumption.
  - destruct Hinv as (I1 & I2 & I3 & I4 & I5 & I6). unfold enhancedInv. cbn.
    split; [exact I1 |]. split; [discriminate |]. split; [exact I3 |].
    split; [exact I4 |]. split; constructor.
  - destruct Hinv as (I1 & I2 & I3 & I4 & I5 & I6). unfold enhancedInv. cbn.
    split; [exact I1 |]. split; [exact I2 |]. split; [exact I3 |]. split; [exact I4 |].
    split; constructor.
  - apply enhanced_control_inv; [| | exact Hinv].
    + intros p. unfold Enhanced.jump. destruct (Enhanced.isGrounded p); reflexivity.
    + intros p. unfold Enhanced.jump, enhancedLaneOk. destruct (Enhanced.isGrounded p); auto.
  - apply enhanced_control_inv; [| apply enhanced_moveLeft_ok | exact Hinv].
    intros p. unfold Enhanced.moveLeft. destruct (_ >? _)%Z; reflexivity.
  - apply enhanced_control_inv; [| apply enhanced_moveRight_ok | exact Hinv].
    intros p. unfold Enhanced.moveRight. destruct (_ <? _)%Z; reflexivity.
  - destruct (Enhanced.isPlaying (Enhanced.gameState w)) eqn:Hp.
    2: { unfold Enhanced.update. rewrite Hp. exact Hinv. }
    destruct (Enhanced.isPaused (Enhanced.gameState w)) eqn:Hq.
    1: { unfold Enhanced.update. rewrite Hp, Hq. exact Hinv. }
    destruct (enhanced_update_spec dt rnd sine w Hp Hq) as (Hl & Hpl & Ho & Hc & Hcase).
    destruct Hinv as (I1 & I2 & I3 & I4 & I5 & I6).
    destruct (I2 Hp) as [I2a I2b].
    destruct (Hcase I2a) as [Hok Hg].
    destruct (enhanced_playerUpdate_keeps dt (Enhanced.player w)) as (K1 & K2 & K3).
    set (w' := stateOf (Enhanced.update dt rnd sine w)) in *.
    unfold enhancedInv. rewrite Hpl.
    split.
    { destruct Hok as [[_ H] | (_ & _ & H & _)]; lia. }
    split.
    { intros Hp'. destruct Hok as [[_ H] | (H & _)]; [| congruence].
      split; [exact H |]. rewrite (Hg Hp'). exact I2b. }
    split; [congruence |].
    split; [unfold enhancedLaneOk in *; rewrite K2, K3; exact I4 |].
    split; assumption.
Qed.

Lemma enhanced_reachable_inv (w : Enhanced.World) : Enhanced.reachable w -> enhancedInv w.
Proof.
  intros [cs ->]. unfold Enhanced.run.
  assert (H0 : enhancedInv Enhanced.initial).
  { unfold enhancedInv, enhancedLaneOk. cbn.
    repeat split; try lia; try discriminate; constructor. }
  revert H0. generalize Enhanced.initial.
  induction cs as [| c cs IH]; intros w H; cbn [fold_left]; [exact H |].
  apply IH. apply enhanced_step_inv. exact H.
Qed.

(** ** Lives *)

Lemma basic_step_lives (w : Basic.World) (c : Basic.Command) :
  basicNoStart [c] = true ->
  (Basic.lives (Basic.gameState (Basic.step w c)) <= Basic.lives (Basic.gameState w))%Z.
Proof.
  destruct c as [| | | | currentTime rnd]; cbn [basicNoStart forallb Basic.step];
    try discriminate; intros _;
    try (unfold Basic.control; destruct (_ || _); cbn; lia).
  unfold Basic.animate.
  set (dt := (currentTime - Basic.lastTime w) / 1000).
  change (Basic.lives (Basic.gameState w))
    with (Basic.lives (Basic.gameState (Basic.setLastTime currentTime w))).
  generalize (Basic.setLastTime currentTime w). intros w0.
  destruct (Basic.playing w0) eqn:Hplay.
  - destruct (basic_frame_spec dt rnd w0 Hplay) as (w' & -> & Hl & _). exact Hl.
  - unfold Basic.frame. rewrite Hplay. cbn. lia.
Qed.

Lemma enhanced_step_lives (w : Enhanced.World) (c : Enhanced.Command) :
  enhancedNoStart [c] = true ->
  (Enhanced.lives (Enhanced.gameState (Enhanced.step w c))
   <= Enhanced.lives (Enhanced.gameState w))%Z.
Proof.
  destruct c as [| | | | | | | dt rnd sine];
    cbn [enhancedNoStart forallb Enhanced.step];
    try discriminate; intros _;
    try (unfold Enhanced.control; destruct (_ || _); cbn; lia);
    try (cbn; lia).
  destruct (Enhanced.isPlaying (Enhanced.gameState w)) eqn:Hp.
  2: { unfold Enhanced.update. rewrite Hp. cbn. lia. }
  destruct (Enhanced.isPaused (Enhanced.gameState w)) eqn:Hq.
  1: { unfold Enhanced.update. rewrite Hp, Hq. cbn. lia. }
  destruct (enhanced_update_spec dt rnd sine w Hp Hq) as (Hl & _). exact Hl.
Qed.

Lemma basic_run_lives (cs : list Basic.Command) :
  forall w : Basic.World,
    basicNoStart cs = true ->
    (Basic.lives (Basic.gameState (fold_left Basic.step cs w))
     <= Basic.lives (Basic.gameState w))%Z.
Proof.
  induction cs as [| c cs IH]; intros w H; cbn [fold_left]; [lia |].
  cbn [basicNoStart forallb] in H. apply andb_true_iff in H. destruct H as [Hc Hcs].
  etransitivity; [apply IH; exact Hcs |].
  apply basic_step_lives. cbn [basicNoStart forallb]. rewrite Hc. reflexivity.
Qed.

Lemma enhanced_run_lives (cs : list Enhanced.Command) :
  forall w : Enhanced.World,
    enhancedNoStart cs = true ->
    (Enhanced.lives (Enhanced.gameState (fold_left Enhanced.step cs w))
     <= Enhanced.lives (Enhanced.gameState w))%Z.
Proof.
  induction cs as [| c cs IH]; intros w H; cbn [fold_left]; [lia |].
  cbn [enhancedNoStart forallb] in H. apply andb_true_iff in H. destruct H as [Hc Hcs].
  etransitivity; [apply IH; exact Hcs |].
  apply enhanced_step_lives. cbn [enhancedNoStart forallb]. rewrite Hc. reflexivity.
Qed.

(** C1.  From every reachable state of either game, a frame ([animate] in
    the basic game, [update] in the enhanced one, however it completes)
    leaves lives that are no larger than before and not negative; when the
    frame ends a running game, exactly 0 lives are left and the game-over
    flag is set.  Along any run without a restart the lives never grow. *)
Theorem lives_never_negative :
  forall (b : Basic.World) (e : Enhanced.World)
         (currentTime deltaTime : Q) (rnd sine : nat -> Q),
    Basic.reachable b ->
    Enhanced.reachable e ->
    basicLivesStep b (stateOf (Basic.animate currentTime rnd b))
    /\ enhancedLivesStep e (stateOf (Enhanced.update deltaTime rnd sine e))
    /\ (forall cs, basicNoStart cs = true ->
                   (Basic.lives (Basic.gameState (fold_left Basic.step cs b))
                    <= Basic.lives (Basic.gameState b))%Z)
    /\ (forall cs, enhancedNoStart cs = true ->
                   (Enhanced.lives (Enhanced.gameState (fold_left Enhanced.step cs e))
                    <= Enhanced.lives (Enhanced.gameState e))%Z).
Proof.
  intros b e currentTime deltaTime rnd sine Hb He.
  split; [| split; [| split]].
  - pose proof (basic_step_lives b (Basic.Frame currentTime rnd) eq_refl) as Hl.
    assert (Hb' : Basic.reachable (Basic.step b (Basic.Frame currentTime rnd))).
    { destruct Hb as [cs ->]. exists (cs ++ [Basic.Frame currentTime rnd]).
      unfold Basic.run. rewrite fold_left_app. reflexivity. }
    apply basic_reachable_inv in Hb'. cbn [Basic.step] in *.
    destruct Hb' as ((Hm & Hc & Hr) & Hplay & _).
    unfold basicLivesStep. split; [exact Hl |]. split; [lia |]. split; [lia |].
    intros Hp Hp'. revert Hp' Hr Hl. unfold Basic.animate.
    assert (Hp0 : Basic.playing (Basic.setLastTime currentTime b) = true) by exact Hp.
    apply basic_reachable_inv in Hb. destruct Hb as (Hok & Hone & _).
    destruct (basic_frame_spec ((currentTime - Basic.lastTime b) / 1000) rnd _ Hp0)
      as (w' & -> & _ & _ & _ & _ & Hcase).
    cbn [stateOf]. intros Hp' _ _.
    destruct (Hcase (Hone Hp) Hok) as (_ & [[Hrun _] | Hover]); [congruence | tauto].
  - pose proof (enhanced_step_lives e (Enhanced.Update deltaTime rnd sine) eq_refl) as Hl.
    assert (He' : Enhanced.reachable (Enhanced.step e (Enhanced.Update deltaTime rnd sine))).
    { destruct He as [cs ->]. exists (cs ++ [Enhanced.Update deltaTime rnd sine]).
      unfold Enhanced.run. rewrite fold_left_app. reflexivity. }
    apply enhanced_reachable_inv in He'. cbn [Enhanced.step] in *.
    destruct He' as (Hr & _).
    unfold enhancedLivesStep. split; [exact Hl |]. split; [lia |].
    intros Hp Hp'. apply enhanced_reachable_inv in He. destruct He as (_ & Hone & _).
    destruct (Enhanced.isPaused (Enhanced.gameState e)) eqn:Hq.
    { revert Hp'. unfold Enhanced.update. rewrite Hp, Hq. cbn. congruence. }
    destruct (enhanced_update_spec deltaTime rnd sine e Hp Hq) as (_ & _ & _ & _ & Hcase).
    destruct (Hcase (proj1 (Hone Hp))) as ([[Hrun _] | (_ & Hg & H0 & _)] & _);
      [congruence | auto].
  - intros cs H. apply basic_run_lives. exact H.
  - intros cs H. apply enhanced_run_lives. exact H.
Qed.

Lemma lives_never_negative_witness :
  let b := Basic.run [Basic.Start] in
  let e := Enhanced.run [Enhanced.Start] in
  basicLivesStep b (stateOf (Basic.animate 16 (fun _ => 0) b))
  /\ enhancedLivesStep e (stateOf (Enhanced.update 0.016 (fun _ => 0) (fun _ => 0) e))
  /\ (forall cs, basicNoStart cs = true ->
                 (Basic.lives (Basic.gameState (fold_left Basic.step cs b))
                  <= Basic.lives (Basic.gameState b))%Z)
  /\ (forall cs, enhancedNoStart cs = true ->
                 (Enhanced.lives (Enhanced.gameState (fold_left Enhanced.step cs e))
                  <= Enhanced.lives (Enhanced.gameState e))%Z).
Proof.
  apply (lives_never_negative (Basic.run [Basic.Start]) (Enhanced.run [Enhanced.Start])
                              16 0.016 (fun _ => 0) (fun _ => 0)).
  - exists [Basic.Start]. reflexivity.
  - exists [Enhanced.Start]. reflexivity.
Defined.

(** ** Culling: every entity visited once (enhanced), entities skipped (basic) *)

(** The two culling loops of the enhanced [update] end normally; they
    update every entity exactly once, keep, in order, exactly the updated
    entities whose [z] is not beyond 10, and dispose the others. *)
Lemma enhanced_cull_visits_all (dt : Q) (sine : nat -> Q) (w : Enhanced.World) :
  Enhanced.cullObstacles dt w
  = Normal (Enhanced.setObstacles
              (kept (fun o => posz (Enhanced.omesh o))
                    (allUpdated (fun _ => Enhanced.obstacleUpdate dt) (Enhanced.obstacles w)))
              (Enhanced.disposedObstacles w
                 ++ rev (culled (fun o => posz (Enhanced.omesh o))
                                (allUpdated (fun _ => Enhanced.obstacleUpdate dt)
                                            (Enhanced.obstacles w))))
              w)
  /\ Enhanced.cullCollectibles dt sine w
     = Normal (Enhanced.setCollectibles
                 (kept (fun c => posz (Enhanced.cmesh c))
                       (allUpdated (fun i => Enhanced.collectibleUpdate dt (sine i))
                                   (Enhanced.collectibles w)))
                 (Enhanced.disposedCollectibles w
                    ++ rev (culled (fun c => posz (Enhanced.cmesh c))
                                   (allUpdated (fun i => Enhanced.collectibleUpdate dt (sine i))
                                               (Enhanced.collectibles w))))
                 w).
Proof.
  unfold Enhanced.cullObstacles, Enhanced.cullCollectibles.
  rewrite !reverseCull_all. split; reflexivity.
Qed.

(** In every reachable state of either game all active entities are in
    play: no member of a collection has [z > 10]. *)
Lemma entities_in_play :
  (forall w, Basic.reachable w ->
             Forall (fun o => inPlay (posz (Basic.omesh o)) = true) (Basic.obstacles w)
             /\ Forall (fun c => inPlay (posz (Basic.cmesh c)) = true)
                       (Basic.collectibles w))
  /\ (forall w, Enhanced.reachable w ->
                Forall (fun o => inPlay (posz (Enhanced.omesh o)) = true)
                       (Enhanced.obstacles w)
                /\ Forall (fun c => inPlay (posz (Enhanced.cmesh c)) = true)
                          (Enhanced.collectibles w)).
Proof.
  split; intros w Hw.
  - apply basic_reachable_inv in Hw. destruct Hw as (_ & _ & _ & _ & Ho & Hc). auto.
  - apply enhanced_reachable_inv in Hw. destruct Hw as (_ & _ & _ & _ & Ho & Hc). auto.
Qed.

(** C9 (basic game).  8.5 s into a run of the basic game at ten frames per
    second there are three obstacles.  In the next frame the first one
    passes [z = 10] and is spliced out inside [forEach]; the traversal then
    skips the second obstacle, which is left exactly as it was although its
    [update] would have moved it, and goes on with the third. *)
Theorem basic_cull_skips :
  let w := beforeFirstCull in
  let dt := (8600 - Basic.lastTime w) / 1000 in
  let w' := stateOf (Basic.animate 8600 obstacleInLaneZero w) in
  Basic.reachable w
  /\ length (Basic.obstacles w) = 3%nat
  /\ option_map (fun o => Qgtb (posz (Basic.omesh (Basic.obstacleUpdate dt o))) 10)
                (Basic.obstacles w !! 0%nat) = Some true
  /\ length (Basic.obstacles w') = 2%nat
  /\ Basic.obstacles w' !! 0%nat = Basic.obstacles w !! 1%nat
  /\ option_map (fun o => Qeq_bool (posz (Basic.omesh (Basic.obstacleUpdate dt o)))
                                   (posz (Basic.omesh o)))
                (Basic.obstacles w !! 1%nat) = Some false
  /\ Basic.obstacles w' !! 1%nat
     = option_map (Basic.obstacleUpdate dt) (Basic.obstacles w !! 2%nat).
Proof.
  cbv zeta. split.
  - exists (Basic.Start :: tenFramesPerSecond 85). reflexivity.
  - repeat match goal with |- _ /\ _ => split end; vm_compute; reflexivity.
Qed.

(** ** Losing the last life *)

(** The basic game: when [checkCollisions] returns from inside the obstacle
    loop the game is over, and the obstacles below the index of the fatal
    hit are still in the array, unscanned; the collectibles and the score
    are untouched. *)
Lemma basic_game_over_stops_scan :
  forall (n : nat) (w w' : Basic.World),
    Basic.checkObstacles n w = Basic.Returned w' ->
    exists (i : nat) (o : Basic.Obstacle),
      (i < n)%nat
      /\ Basic.obstacles w !! i = Some o
      /\ closerThan 1.0 (Basic.position (Basic.player w)) (Basic.omesh o) = true
      /\ take i (Basic.obstacles w') = take i (Basic.obstacles w)
      /\ Basic.collectibles w' = Basic.collectibles w
      /\ Basic.score (Basic.gameState w') = Basic.score (Basic.gameState w)
      /\ Basic.isPlaying (Basic.gameState w') = false
      /\ Basic.gameOver (Basic.gameState w') = true.
Proof.
  induction n as [| i IH]; intros w w' E; cbn [Basic.checkObstacles] in E; [discriminate |].
  destruct (Basic.obstacles w !! i) as [o |] eqn:El; [| discriminate].
  destruct (closerThan 1.0 _ _) eqn:Ec.
  - destruct (Z.leb_spec (Basic.lives (Basic.gameState (Basic.loseLife i o w))) 0).
    + injection E as <-. exists i, o. cbn.
      repeat split; try assumption; try lia.
      rewrite delete_take_drop, take_app_length'; [reflexivity |].
      apply lookup_lt_Some in El. rewrite length_take_le; lia.
    + destruct (IH _ _ E) as (j & o' & Hj & Hl & Hc & Ht & Hcs & Hs & Hp & Hg).
      cbn in Hl, Hc, Ht, Hcs, Hs.
      exists j, o'. repeat split; try assumption; try lia.
      * rewrite list_lookup_delete_lt in Hl by lia. exact Hl.
      * rewrite Ht, delete_take_drop, take_app_le by
            (apply lookup_lt_Some in El; rewrite length_take_le; lia).
        rewrite take_take. f_equal. lia.
  - destruct (IH _ _ E) as (j & o' & Hj & Hl & Hc & Ht & Hcs & Hs & Hp & Hg).
    exists j, o'. repeat split; try assumption; lia.
Qed.

(** Neither the frame of the basic game nor [animate] ever throws. *)
Lemma basic_frame_never_throws (dt currentTime : Q) (rnd : nat -> Q) (w : Basic.World) :
  threw (Basic.frame dt rnd w) = false
  /\ threw (Basic.animate currentTime rnd w) = false.
Proof.
  assert (H : forall d v, threw (Basic.frame d rnd v) = false).
  { intros d v. destruct (Basic.playing v) eqn:Hp.
    - destruct (basic_frame_spec d rnd v Hp) as (w' & -> & _). reflexivity.
    - unfold Basic.frame. rewrite Hp. reflexivity. }
  split; [apply H | unfold Basic.animate; apply H].
Qed.

(** The enhanced game: a hit that takes the last life at an index other
    than 0 makes the obstacle loop throw.  [stopGame()] replaces
    [this.obstacles] by an empty array and the loop goes on: its next
    iteration reads [this.obstacles[i]], which is [undefined]. *)
Lemma enhanced_fatal_hit_throws (i : nat) (o : Enhanced.DiwaliObstacle)
      (w : Enhanced.World) :
  Enhanced.obstacles w !! S i = Some o ->
  closerThan 1 (Enhanced.position (Enhanced.player w)) (Enhanced.omesh o) = true ->
  (Enhanced.lives (Enhanced.gameState w) <= 1)%Z ->
  Enhanced.checkObstacles (S (S i)) w
  = Throw (Enhanced.stopGame (Enhanced.loseLife (S i) o w)).
Proof.
  intros El Ec Hl. cbn [Enhanced.checkObstacles]. rewrite El, Ec.
  replace (Enhanced.lives (Enhanced.gameState (Enhanced.loseLife (S i) o w)) <=? 0)%Z
    with true by (symmetry; apply Z.leb_le; cbn; lia).
  destruct i; reflexivity.
Qed.

(** The same slip on a run of the model: 10.8 s into a run of the enhanced
    game at ten frames per second, in which the player never moves, the
    game is on its last life with six obstacles on the track, and the next
    [update] throws after it has stopped the game.  (The run starts from
    the fields as the class declares them; the constructor as written
    returns no instance, see [Enhanced.newGame].) *)
Lemma enhanced_last_life_throws :
  let w := onLastLife in
  let c := Enhanced.update 0.1 obstaclesInLanesZeroOne noSine w in
  Enhanced.isPlaying (Enhanced.gameState w) = true
  /\ Enhanced.isPaused (Enhanced.gameState w) = false
  /\ Enhanced.lives (Enhanced.gameState w) = 1%Z
  /\ length (Enhanced.obstacles w) = 6%nat
  /\ threw c = true
  /\ Enhanced.lives (Enhanced.gameState (stateOf c)) = 0%Z
  /\ Enhanced.isPlaying (Enhanced.gameState (stateOf c)) = false
  /\ Enhanced.gameOver (Enhanced.gameState (stateOf c)) = true
  /\ Enhanced.obstacles (stateOf c) = [].
Proof.
  cbv zeta. repeat match goal with |- _ /\ _ => split end; vm_compute; reflexivity.
Qed.

(** In a stopped game, whose arrays [stopGame()] has emptied, the obstacle
    loop changes nothing more, whether it ends or throws. *)
Lemma enhanced_scan_stopped (n : nat) (v : Enhanced.World) :
  Enhanced.obstacles v = [] -> stateOf (Enhanced.checkObstacles n v) = v.
Proof.
  intros H. destruct n as [| i]; cbn [Enhanced.checkObstacles]; [reflexivity |].
  rewrite H, lookup_nil. reflexivity.
Qed.

(** The obstacle loop of the enhanced game throws only after it has
    stopped the game. *)
Lemma enhanced_scan_throws_stopped :
  forall (n : nat) (w : Enhanced.World),
    (n <= length (Enhanced.obstacles w))%nat ->
    threw (Enhanced.checkObstacles n w) = true ->
    Enhanced.isPlaying (Enhanced.gameState (stateOf (Enhanced.checkObstacles n w))) = false
    /\ Enhanced.gameOver (Enhanced.gameState (stateOf (Enhanced.checkObstacles n w)))
       = true.
Proof.
  induction n as [| i IH]; intros w Hn Ht; cbn [Enhanced.checkObstacles] in *;
    [discriminate |].
  destruct (Enhanced.obstacles w !! i) as [o |] eqn:El.
  2: { apply lookup_ge_None in El. lia. }
  destruct (closerThan 1 _ _).
  - cbv zeta in *.
    destruct (Z.leb_spec (Enhanced.lives (Enhanced.gameState (Enhanced.loseLife i o w))) 0).
    + rewrite enhanced_scan_stopped by reflexivity. split; reflexivity.
    + apply IH; [| exact Ht]. cbn.
      pose proof (delete_length_ge (Enhanced.obstacles w) i). lia.
  - apply IH; [lia | exact Ht].
Qed.

Lemma take_delete_below {A : Type} (l : list A) (i j : nat) :
  (j <= i)%nat -> (i < length l)%nat -> take j (delete i l) = take j l.
Proof.
  intros Hj Hi. rewrite delete_take_drop, take_app_le by (rewrite length_take_le; lia).
  rewrite take_take. f_equal. lia.
Qed.

(** The basic game: when the obstacle loop returns, it does so at the hit
    that takes the last life, and the state it returns is the state of
    that moment with the life taken, the obstacle removed and disposed and
    the game over. *)
Lemma basic_scan_fatal :
  forall (n : nat) (w w' : Basic.World),
    Basic.checkObstacles n w = Basic.Returned w' ->
    exists (i : nat) (o : Basic.Obstacle) (v : Basic.World),
      (i < n)%nat
      /\ basicFatalHit w i o v
      /\ w' = Basic.doGameOver (Basic.loseLife i o v).
Proof.
  induction n as [| i IH]; intros w w' E; cbn [Basic.checkObstacles] in E; [discriminate |].
  destruct (Basic.obstacles w !! i) as [o |] eqn:El; [| discriminate].
  destruct (closerThan 1.0 _ _) eqn:Ec.
  - destruct (Z.leb_spec (Basic.lives (Basic.gameState (Basic.loseLife i o w))) 0) as [Hle | Hgt].
    + injection E as <-. exists i, o, w. split; [lia |]. split; [| reflexivity].
      unfold basicFatalHit. split; [exact El |]. split; [exact Ec |].
      split; [cbn in Hle; lia |]. split; [reflexivity | apply basicScanFrame_refl].
    + destruct (IH _ _ E) as (j & o' & v & Hj & (F1 & F2 & F3 & F4 & F5) & Hw).
      exists j, o', v. split; [lia |]. split; [| exact Hw].
      unfold basicFatalHit. split; [exact F1 |]. split; [exact F2 |]. split; [exact F3 |].
      split.
      * rewrite F4. cbn. apply take_delete_below; [lia |].
        apply lookup_lt_Some in El. exact El.
      * eapply basicScanFrame_trans; [apply basic_loseLife_frame | exact F5].
  - destruct (IH _ _ E) as (j & o' & v & Hj & HF & Hw).
    exists j, o', v. split; [lia |]. split; [exact HF | exact Hw].
Qed.

(** The enhanced game: when the obstacle loop leaves a running game
    stopped, the state it leaves is the state at the hit that took the
    last life, with the life taken, the obstacle removed and disposed, and
    the game stopped; nothing changes after that. *)
Lemma enhanced_scan_fatal :
  forall (n : nat) (w : Enhanced.World),
    Enhanced.isPlaying (Enhanced.gameState w) = true ->
    Enhanced.isPlaying (Enhanced.gameState (stateOf (Enhanced.checkObstacles n w))) = false ->
    exists (i : nat) (o : Enhanced.DiwaliObstacle) (v : Enhanced.World),
      (i < n)%nat
      /\ enhancedFatalHit w i o v
      /\ stateOf (Enhanced.checkObstacles n w)
         = Enhanced.stopGame (Enhanced.loseLife i o v).
Proof.
  induction n as [| i IH]; intros w Hp Hs; cbn [Enhanced.checkObstacles] in *.
  - cbn in Hs. congruence.
  - destruct (Enhanced.obstacles w !! i) as [o |] eqn:El; [| cbn in Hs; congruence].
    destruct (closerThan 1 _ _) eqn:Ec.
    + cbv zeta in *.
      destruct (Z.leb_spec (Enhanced.lives (Enhanced.gameState (Enhanced.loseLife i o w))) 0)
        as [Hle | Hgt].
      * rewrite enhanced_scan_stopped by reflexivity.
        exists i, o, w. split; [lia |]. split; [| reflexivity].
        unfold enhancedFatalHit. split; [exact El |]. split; [exact Ec |].
        split; [cbn in Hle; lia |].
        split; [reflexivity |]. split; [reflexivity |]. split; [reflexivity |].
        apply enhancedScanFrame_refl.
      * destruct (IH (Enhanced.loseLife i o w) Hp Hs)
          as (j & o' & v & Hj & (F1 & F2 & F3 & F4 & F5 & F6 & F7) & Hw).
        exists j, o', v. split; [lia |]. split; [| exact Hw].
        unfold enhancedFatalHit. split; [exact F1 |]. split; [exact F2 |].
        split; [exact F3 |]. split.
        { rewrite F4. cbn. apply take_delete_below; [lia |].
          apply lookup_lt_Some in El. exact El. }
        split; [exact F5 |]. split; [exact F6 |].
        eapply enhancedScanFrame_trans; [apply enhanced_loseLife_frame | exact F7].
    + destruct (IH w Hp Hs) as (j & o' & v & Hj & HF & Hw).
      exists j, o', v. split; [lia |]. split; [exact HF | exact Hw].
Qed.

(** C2.  In either game, a frame of a running game with a life left in
    which the lives reach 0: the lives are then exactly 0, [isPlaying] is
    false and [gameOver] is true, and the state the frame leaves is the
    state [v] of the moment the obstacle loop of [checkCollisions] reached
    the fatal obstacle, at index [i], with that life taken, that obstacle
    removed and disposed and the game ended ([gameOver()], [stopGame()]),
    and nothing else but the score of the frame's duration.  So the
    obstacles below index [i] are not scanned (in the basic game they stay
    in the array as they were, in the enhanced game [stopGame()] clears
    them away uncharged), no collectible is picked up and no entity is
    updated after the detection. *)
Theorem game_over_at_once :
  forall (b : Basic.World) (e : Enhanced.World) (dt : Q) (rndb rnde sine : nat -> Q),
    Basic.playing b = true ->
    (1 <= Basic.lives (Basic.gameState b))%Z ->
    Enhanced.isPlaying (Enhanced.gameState e) = true ->
    Enhanced.isPaused (Enhanced.gameState e) = false ->
    (1 <= Enhanced.lives (Enhanced.gameState e))%Z ->
    let b4 := basicBeforeCollisions dt rndb b in
    let b' := stateOf (Basic.frame dt rndb b) in
    let e4 := enhancedBeforeCollisions dt rnde sine e in
    let e' := stateOf (Enhanced.update dt rnde sine e) in
    let k := Qfloor (dt * 5) in
    ((Basic.lives (Basic.gameState b') <= 0)%Z ->
     Basic.lives (Basic.gameState b') = 0%Z
     /\ Basic.isPlaying (Basic.gameState b') = false
     /\ Basic.gameOver (Basic.gameState b') = true
     /\ exists (i : nat) (o : Basic.Obstacle) (v : Basic.World),
          basicFatalHit b4 i o v
          /\ b' = Basic.addScore k (Basic.doGameOver (Basic.loseLife i o v))
          /\ take i (Basic.obstacles b') = take i (Basic.obstacles b4)
          /\ Basic.collectibles b' = Basic.collectibles b4
          /\ Basic.disposedCollectibles b' = Basic.disposedCollectibles b4
          /\ Basic.player b' = Basic.player b4)
    /\ ((Enhanced.lives (Enhanced.gameState e') <= 0)%Z ->
        Enhanced.lives (Enhanced.gameState e') = 0%Z
        /\ Enhanced.isPlaying (Enhanced.gameState e') = false
        /\ Enhanced.gameOver (Enhanced.gameState e') = true
        /\ exists (i : nat) (o : Enhanced.DiwaliObstacle) (v : Enhanced.World),
             enhancedFatalHit e4 i o v
             /\ (e' = Enhanced.stopGame (Enhanced.loseLife i o v)
                 \/ e' = Enhanced.addScore k (Enhanced.stopGame (Enhanced.loseLife i o v)))
             /\ Enhanced.disposedObstacles e'
                = Enhanced.disposedObstacles v ++ o :: delete i (Enhanced.obstacles v)
             /\ Enhanced.disposedCollectibles e'
                = Enhanced.disposedCollectibles e4 ++ Enhanced.collectibles e4
             /\ Enhanced.player e' = Enhanced.player e4).
Proof.
  intros b e dt rndb rnde sine Hpb Hlb Hpe Hqe Hle b4 b' e4 e' k. split.
  - intros H0. unfold b', Basic.frame in *. rewrite Hpb in *.
    change (Basic.spawnPhase dt rndb _) with b4 in *.
    destruct (basic_before_spec dt rndb b) as (_ & _ & _ & A4 & _). fold b4 in A4.
    unfold Basic.checkCollisions in *.
    pose proof (basic_checkObstacles_spec (length (Basic.obstacles b4)) b4 (le_n _)) as Hs.
    destruct (Basic.checkObstacles _ b4) as [w5 | w5 | w5] eqn:E; [| | contradiction].
    + exfalso. destruct Hs as (_ & _ & _ & Hl). destruct Hl as [Hl _]; [lia |].
      destruct (basic_checkCollectibles_spec (length (Basic.collectibles w5)) w5 (le_n _))
        as (w6 & E6 & P).
      rewrite E6 in H0.
      destruct P as (_ & _ & _ & _ & _ & _ & _ & _ & _ & _ & P11 & _).
      cbn in H0. lia.
    + destruct Hs as (_ & F2 & F3 & Hl). destruct Hl as [Hl _]; [lia |].
      cbn [stateOf]. split; [exact Hl |]. split; [exact F2 |]. split; [exact F3 |].
      destruct (basic_scan_fatal _ _ _ E) as (i & o & v & Hi & HF & Hw).
      exists i, o, v. split; [exact HF |]. subst w5. split; [reflexivity |].
      destruct HF as (G1 & _ & _ & G4 & (S1 & S2 & S3 & _)).
      cbn. split.
      * rewrite take_delete_below by (apply lookup_lt_Some in G1; lia).
        apply (f_equal (take i)) in G4. rewrite !take_take in G4.
        replace (i `min` S i)%nat with i in G4 by lia. exact G4.
      * split; [exact S2 |]. split; [exact S3 | exact S1].
  - intros H0. unfold e' in *. rewrite (enhanced_update_unfold dt rnde sine e Hpe Hqe) in *.
    fold e4 in H0 |- *.
    destruct (enhanced_before_spec dt rnde sine e) as (_ & A2 & A3 & _). fold e4 in A2, A3.
    assert (Hok : enhancedScanOk e4) by (left; split; [congruence | lia]).
    unfold Enhanced.checkCollisions in *.
    destruct (enhanced_checkObstacles_spec (length (Enhanced.obstacles e4)) e4 Hok)
      as (_ & Hok5 & _).
    pose proof (enhanced_scan_throws_stopped (length (Enhanced.obstacles e4)) e4 (le_n _))
      as Hthrow.
    pose proof (enhanced_scan_fatal (length (Enhanced.obstacles e4)) e4) as Hfatal.
    rewrite A3 in Hfatal. specialize (Hfatal Hpe).
    destruct (Enhanced.checkObstacles _ e4) as [w5 | w5]; cbn [stateOf threw] in *.
    + destruct Hok5 as [(P1 & P2) | (P1 & P2 & P3 & P4 & P5)].
      * exfalso.
        destruct (enhanced_checkCollectibles_spec (length (Enhanced.collectibles w5)) w5
                    (le_n _)) as (w6 & E6 & P).
        rewrite E6 in H0.
        destruct P as (_ & _ & _ & _ & _ & _ & _ & _ & _ & P10 & _).
        cbn in H0. lia.
      * rewrite P5 in *. cbn [length Enhanced.checkCollectibles Enhanced.andThen stateOf].
        split; [exact P3 |]. split; [exact P1 |]. split; [exact P2 |].
        destruct (Hfatal P1) as (i & o & v & _ & HF & Hw).
        exists i, o, v. split; [exact HF |]. split; [right; rewrite Hw; reflexivity |].
        destruct HF as (_ & _ & _ & _ & G5 & G6 & (S1 & _)).
        rewrite Hw. cbn. rewrite G5, G6.
        split; [rewrite <- app_assoc; reflexivity |]. split; [reflexivity | exact S1].
    + destruct (Hthrow eq_refl) as (T1 & T2).
      destruct Hok5 as [(P1 & _) | (P1 & P2 & P3 & P4 & P5)]; [congruence |].
      cbn [Enhanced.andThen stateOf].
      split; [exact P3 |]. split; [exact P1 |]. split; [exact P2 |].
      destruct (Hfatal P1) as (i & o & v & _ & HF & Hw).
      exists i, o, v. split; [exact HF |]. split; [left; exact Hw |].
      destruct HF as (_ & _ & _ & _ & G5 & G6 & (S1 & _)).
      rewrite Hw. cbn. rewrite G5, G6.
      split; [rewrite <- app_assoc; reflexivity |]. split; [reflexivity | exact S1].
Qed.

Lemma game_over_at_once_witness :
  let b' := stateOf (Basic.frame 0.1 obstacleInLaneOne basicOnLastLife) in
  let e' := stateOf (Enhanced.update 0.1 obstaclesInLanesZeroOne noSine onLastLife) in
  (Basic.lives (Basic.gameState b') = 0%Z
   /\ Basic.isPlaying (Basic.gameState b') = false
   /\ Basic.gameOver (Basic.gameState b') = true)
  /\ (Enhanced.lives (Enhanced.gameState e') = 0%Z
      /\ Enhanced.isPlaying (Enhanced.gameState e') = false
      /\ Enhanced.gameOver (Enhanced.gameState e') = true).
Proof.
  cbv zeta.
  destruct (game_over_at_once basicOnLastLife onLastLife 0.1
              obstacleInLaneOne obstaclesInLanesZeroOne noSine) as [Hb He].
  - vm_compute. reflexivity.
  - vm_compute. discriminate.
  - vm_compute. reflexivity.
  - vm_compute. reflexivity.
  - vm_compute. discriminate.
  - split.
    + destruct Hb as (H1 & H2 & H3 & _); [vm_compute; discriminate |].
      split; [exact H1 |]. split; [exact H2 | exact H3].
    + destruct He as (H1 & H2 & H3 & _); [vm_compute; discriminate |].
      split; [exact H1 |]. split; [exact H2 | exact H3].
Defined.



(** ** The spawn timer *)

(** An entity at the spawn distance is out of reach of a player at [z = 0]. *)
Lemma spawned_out_of_reach (r : Q) (p : Vector3) (q : Position) :
  r * r <= 1 -> vz p = 0 -> posz q = -50 -> closerThan r p q = false.
Proof.
  intros Hr Hp Hq. unfold closerThan. destruct (posx q) as [x |]; [| reflexivity].
  apply Qltb_ge. rewrite Hp, Hq. unfold sq.
  set (a := vx p - x). set (b := vy p - posy q). nra.
Qed.

Lemma basic_no_hit :
  forall (n : nat) (w : Basic.World),
    (forall o, In o (Basic.obstacles w) ->
               closerThan 1.0 (Basic.position (Basic.player w)) (Basic.omesh o) = false) ->
    (n <= length (Basic.obstacles w))%nat ->
    Basic.checkObstacles n w = Basic.Finished w.
Proof.
  induction n as [| i IH]; intros w H Hn; cbn [Basic.checkObstacles]; [reflexivity |].
  destruct (Basic.obstacles w !! i) as [o |] eqn:E.
  2: { apply lookup_ge_None in E. lia. }
  rewrite H; [apply IH; [exact H | lia] |].
  apply list_elem_of_In. eapply list_elem_of_lookup_2. exact E.
Qed.

Lemma basic_no_pick :
  forall (n : nat) (w : Basic.World),
    (forall c, In c (Basic.collectibles w) ->
               closerThan 0.8 (Basic.position (Basic.player w)) (Basic.cmesh c) = false) ->
    (n <= length (Basic.collectibles w))%nat ->
    Basic.checkCollectibles n w = Normal w.
Proof.
  induction n as [| i IH]; intros w H Hn; cbn [Basic.checkCollectibles]; [reflexivity |].
  destruct (Basic.collectibles w !! i) as [c |] eqn:E.
  2: { apply lookup_ge_None in E. lia. }
  rewrite H; [apply IH; [exact H | lia] |].
  apply list_elem_of_In. eapply list_elem_of_lookup_2. exact E.
Qed.

Lemma enhanced_no_hit :
  forall (n : nat) (w : Enhanced.World),
    (forall o, In o (Enhanced.obstacles w) ->
               closerThan 1 (Enhanced.position (Enhanced.player w)) (Enhanced.omesh o)
               = false) ->
    (n <= length (Enhanced.obstacles w))%nat ->
    Enhanced.checkObstacles n w = Normal w.
Proof.
  induction n as [| i IH]; intros w H Hn; cbn [Enhanced.checkObstacles]; [reflexivity |].
  destruct (Enhanced.obstacles w !! i) as [o |] eqn:E.
  2: { apply lookup_ge_None in E. lia. }
  rewrite H; [apply IH; [exact H | lia] |].
  apply list_elem_of_In. eapply list_elem_of_lookup_2. exact E.
Qed.

Lemma enhanced_no_pick :
  forall (n : nat) (w : Enhanced.World),
    (forall c, In c (Enhanced.collectibles w) ->
               closerThan 0.8 (Enhanced.position (Enhanced.player w)) (Enhanced.cmesh c)
               = false) ->
    (n <= length (Enhanced.collectibles w))%nat ->
    Enhanced.checkCollectibles n w = Normal w.
Proof.
  induction n as [| i IH]; intros w H Hn; cbn [Enhanced.checkCollectibles]; [reflexivity |].
  destruct (Enhanced.collectibles w !! i) as [c |] eqn:E.
  2: { apply lookup_ge_None in E. lia. }
  rewrite H; [apply IH; [exact H | lia] |].
  apply list_elem_of_In. eapply list_elem_of_lookup_2. exact E.
Qed.

(** Culling empty collections changes nothing. *)
Lemma basic_cull_empty (d : Q) (g : Basic.GameState) (p : Basic.Player)
      (h : Basic.HealthBar) (st lt : Q) (d1 : list Basic.Obstacle)
      (d2 : list Basic.Collectible) :
  Basic.cullCollectibles d
    (Basic.cullObstacles d
       (Basic.setPlayer (Basic.playerUpdate d p) (Basic.mkWorld g p [] [] h st lt d1 d2)))
  = Basic.mkWorld g (Basic.playerUpdate d p) [] [] h st lt d1 d2.
Proof. reflexivity. Qed.

Lemma total_cons (d : Q) (dts : list Q) : total (d :: dts) = d + total dts.
Proof. reflexivity. Qed.

(** The frame that fills the spawn timer of a fresh basic game: one spawn
    tick at the speed before the increment, and no collision. *)
Lemma basic_fresh_tick (t d : Q) (rnd : nat -> Q) (w : Basic.World) :
  basicFresh t w -> 2.5 <= t + d ->
  let w' := stateOf (Basic.frame d rnd w) in
  threw (Basic.frame d rnd w) = false
  /\ Basic.speed (Basic.gameState w') = 10 + 0.1
  /\ Basic.spawnTimer w' = 0
  /\ Basic.lives (Basic.gameState w') = 3%Z
  /\ Basic.playing w' = true
  /\ Basic.obstacles w' = basicNewObstacles 10 (Basic.spawnDecisions rnd)
  /\ Basic.collectibles w' = basicNewCollectibles 10 (Basic.spawnDecisions rnd).
Proof.
  intros (Hp & Hl & Hs & Ho & Hc & Hz & Ht) Hge.
  destruct (basic_playerUpdate_keeps d (Basic.player w)) as (K1 & _).
  destruct w as [g p os cs h st lt d1 d2].
  cbn [Basic.gameState Basic.player Basic.obstacles Basic.collectibles Basic.spawnTimer]
    in Hl, Hs, Ho, Hc, Hz, Ht, K1.
  subst os cs.
  unfold Basic.frame. rewrite Hp, basic_cull_empty, basic_spawnPhase_eq.
  cbn [Basic.spawnTimer].
  replace (Qgeb (st + d) Basic.spawnInterval) with true.
  2: { symmetry. apply Qgeb_ge. unfold Basic.spawnInterval. lra. }
  cbn zeta.
  cbn [Basic.gameState Basic.player Basic.obstacles Basic.collectibles Basic.healthBar
       Basic.lastTime Basic.disposedObstacles Basic.disposedCollectibles app].
  rewrite Hs.
  unfold Basic.checkCollisions.
  rewrite basic_no_hit; cbn [Basic.obstacles Basic.player]; try lia.
  2: { intros o Ho'. apply spawned_out_of_reach; [lra | congruence |].
       apply (basicNewObstacles_spawned _ _ _ Ho'). }
  rewrite basic_no_pick; cbn [Basic.collectibles Basic.player]; try lia.
  2: { intros c Hc'. apply spawned_out_of_reach; [lra | congruence |].
       apply (basicNewCollectibles_spawned _ _ _ Hc'). }
  unfold Basic.playing in *. cbn. repeat split; assumption.
Qed.

Lemma enhanced_scan_interval :
  forall (n : nat) (w : Enhanced.World),
    Enhanced.spawnInterval (stateOf (Enhanced.checkObstacles n w))
    = Enhanced.spawnInterval w.
Proof.
  induction n as [| i IH]; intros w; cbn [Enhanced.checkObstacles]; [reflexivity |].
  destruct (Enhanced.obstacles w !! i) as [o |]; [| reflexivity].
  destruct (closerThan 1 _ _); [| apply IH].
  rewrite IH. destruct (_ <=? _)%Z; reflexivity.
Qed.

Lemma enhanced_pick_interval :
  forall (n : nat) (w : Enhanced.World),
    Enhanced.spawnInterval (stateOf (Enhanced.checkCollectibles n w))
    = Enhanced.spawnInterval w.
Proof.
  induction n as [| i IH]; intros w; cbn [Enhanced.checkCollectibles]; [reflexivity |].
  destruct (Enhanced.collectibles w !! i) as [c |]; [| reflexivity].
  destruct (closerThan 0.8 _ _); [| apply IH].
  rewrite IH. reflexivity.
Qed.

Lemma enhanced_max_bounds (x : Q) : x <= 2 -> 1.2 <= Enhanced.max 1.2 (x - 0.02) <= 2.
Proof.
  intros H. unfold Enhanced.max. destruct (Qle_bool 1.2 (x - 0.02)) eqn:E.
  - apply Qle_bool_iff in E. lra.
  - lra.
Qed.

Lemma enhanced_step_interval (w : Enhanced.World) (c : Enhanced.Command) :
  enhancedIntervalOk w -> enhancedIntervalOk (Enhanced.step w c).
Proof.
  intros Hok. destruct c as [| | | | | | | dt rnd sine]; cbn [Enhanced.step];
    try exact Hok;
    try (unfold Enhanced.control; destruct (_ || _); exact Hok).
  destruct (Enhanced.isPlaying (Enhanced.gameState w)) eqn:Hp.
  2: { unfold Enhanced.update. rewrite Hp. exact Hok. }
  destruct (Enhanced.isPaused (Enhanced.gameState w)) eqn:Hq.
  1: { unfold Enhanced.update. rewrite Hp, Hq. exact Hok. }
  rewrite (enhanced_update_unfold dt rnd sine w Hp Hq).
  assert (Hb : enhancedIntervalOk (enhancedBeforeCollisions dt rnd sine w)).
  { unfold enhancedBeforeCollisions. rewrite enhanced_spawnPhase_eq.
    unfold enhancedIntervalOk in *. destruct (Qgeb _ _); cbn; [| exact Hok].
    apply enhanced_max_bounds. tauto. }
  set (w4 := enhancedBeforeCollisions dt rnd sine w) in *.
  unfold enhancedIntervalOk, Enhanced.checkCollisions.
  pose proof (enhanced_scan_interval (length (Enhanced.obstacles w4)) w4) as Hs.
  destruct (Enhanced.checkObstacles _ w4) as [w5 | w5]; cbn [stateOf] in Hs.
  - pose proof (enhanced_pick_interval (length (Enhanced.collectibles w5)) w5) as Hk.
    destruct (Enhanced.checkCollectibles _ w5) as [w6 | w6]; cbn in *;
      rewrite Hk, Hs; exact Hb.
  - cbn. rewrite Hs. exact Hb.
Qed.

Lemma enhanced_reachable_interval (w : Enhanced.World) :
  Enhanced.reachable w -> enhancedIntervalOk w.
Proof.
  intros [cs ->]. unfold Enhanced.run.
  assert (H0 : enhancedIntervalOk Enhanced.initial).
  { unfold enhancedIntervalOk. cbn. lra. }
  revert H0. generalize Enhanced.initial.
  induction cs as [| c cs IH]; intros w H; cbn [fold_left]; [exact H |].
  apply IH. apply enhanced_step_interval. exact H.
Qed.

(** A frame at least as long as the spawn interval, right after the start
    of an enhanced game: one spawn tick and no collision. *)
Lemma enhanced_fresh_tick (d : Q) (rnd sine : nat -> Q) (w : Enhanced.World) :
  vz (Enhanced.position (Enhanced.player w)) = 0 ->
  Enhanced.spawnInterval w <= d ->
  let c := Enhanced.update d rnd sine (Enhanced.startGame w) in
  threw c = false
  /\ enhancedAfterOneTick rnd (stateOf c)
  /\ Enhanced.spawnInterval (stateOf c) = Enhanced.max 1.2 (Enhanced.spawnInterval w - 0.02).
Proof.
  intros Hz Hd.
  destruct (enhanced_playerUpdate_keeps d (Enhanced.player w)) as (K1 & _).
  cbv zeta. rewrite enhanced_update_unfold by reflexivity.
  unfold enhancedBeforeCollisions. rewrite enhanced_spawnPhase_eq.
  cbn [Enhanced.startGame Enhanced.clearGameObjects Enhanced.setSpawnTimer
       Enhanced.setGameState Enhanced.obstacles Enhanced.collectibles Enhanced.player
       Enhanced.gameState Enhanced.spawnTimer Enhanced.spawnInterval
       Enhanced.disposedObstacles Enhanced.disposedCollectibles
       allUpdated kept culled imap List.filter rev app Enhanced.speed
       Enhanced.isPlaying Enhanced.isPaused Enhanced.score Enhanced.lives
       Enhanced.gameOver Enhanced.theme].
  replace (Qgeb (0 + d) (Enhanced.spawnInterval w)) with true.
  2: { symmetry. apply Qgeb_ge. lra. }
  unfold Enhanced.checkCollisions.
  rewrite enhanced_no_hit; cbn [Enhanced.obstacles Enhanced.player]; try lia.
  2: { intros o Ho'. apply spawned_out_of_reach; [lra | congruence |].
       apply (enhancedNewObstacles_spawned _ _ _ Ho'). }
  rewrite enhanced_no_pick; cbn [Enhanced.collectibles Enhanced.player]; try lia.
  2: { intros c Hc'. apply spawned_out_of_reach; [lra | congruence |].
       apply (enhancedNewCollectibles_spawned _ _ _ Hc'). }
  unfold enhancedAfterOneTick. cbn. repeat split.
Qed.

Lemma basic_spawnBlock (d : Q) (rnd : nat -> Q) (w : Basic.World) :
  basicSpawnBlock d rnd w (Basic.spawnPhase d rnd w).
Proof.
  unfold basicSpawnBlock. rewrite basic_spawnPhase_eq.
  destruct (Qgeb _ _); cbn; repeat split.
Qed.

Lemma enhanced_spawnBlock (d : Q) (rnd : nat -> Q) (w : Enhanced.World) :
  enhancedSpawnBlock d rnd w (Enhanced.spawnPhase d rnd w).
Proof.
  unfold enhancedSpawnBlock. rewrite enhanced_spawnPhase_eq.
  destruct (Qgeb _ _); cbn; repeat split.
Qed.

(** C6, as the specification words it, refuted at four inputs.
    - The order, in either game: at the first spawn tick after a start the
      code creates the tick's obstacles with velocity 10, the speed before
      the increment, and then raises the speed to 10.1; had the timer been
      reset and the speed increased first, as the specification has it,
      they would move at 10.1.
    - Advancing 2.5 s in several frames, basic game: with the frame clock
      at 700, 1400, 2100 and 2500 ms after a start the program, which adds
      in binary64, has accumulated less than 2.5 and has run no spawn
      cycle; a single frame of 2500 ms runs one.
    - Advancing 2.5 s in several frames, enhanced game, whose interval is
      2 s: after updates of 1 s, 1 s and 0.5 s the one cycle is past and the
      timer stands at 0.5, not near 0. *)
Lemma spawn_cycle_counterexample :
  let w := Basic.startGame Basic.initial in
  let code := Basic.spawnPhase 2.5 obstacleInLaneZero w in
  let specified := basicSpawnPhaseAsSpecified 2.5 obstacleInLaneZero w in
  let w2 := Enhanced.startGame Enhanced.initial in
  let code2 := Enhanced.spawnPhase 2.5 obstaclesInLanesZeroOne w2 in
  let specified2 := enhancedSpawnPhaseAsSpecified 2.5 obstaclesInLanesZeroOne w2 in
  let split :=
    fold_left Double.animate [700%float; 1400%float; 2100%float; 2500%float]
              (Double.startGame 0%float) in
  let three :=
    fold_left Enhanced.step
              [Enhanced.Update 1 obstaclesInLanesZeroOne noSine;
               Enhanced.Update 1 obstaclesInLanesZeroOne noSine;
               Enhanced.Update 0.5 obstaclesInLanesZeroOne noSine] w2 in
  (map Basic.ovelocity (Basic.obstacles code) = [10]
   /\ map Basic.ovelocity (Basic.obstacles specified) = [10 + 0.1]
   /\ Basic.speed (Basic.gameState code) = 10 + 0.1
   /\ Basic.speed (Basic.gameState specified) = 10 + 0.1
   /\ Basic.spawnTimer code = 0
   /\ Qeq_bool 10 (10 + 0.1) = false
   /\ code <> specified)
  /\ (map Enhanced.ovelocity (Enhanced.obstacles code2) = [10; 10]
      /\ map Enhanced.ovelocity (Enhanced.obstacles specified2) = [10 + 0.1; 10 + 0.1]
      /\ Enhanced.speed (Enhanced.gameState code2) = 10 + 0.1
      /\ Enhanced.speed (Enhanced.gameState specified2) = 10 + 0.1
      /\ code2 <> specified2)
  /\ (Double.lastTime split = 2500%float
      /\ Double.cycles split = 0%nat
      /\ PrimFloat.ltb (Double.spawnTimer split) Double.spawnInterval = true
      /\ Double.speed split = 10%float
      /\ Double.animate (Double.startGame 0%float) 2500%float
         = Double.mkClock 2500%float 0%float 10.1%float 1)
  /\ (length (Enhanced.obstacles three) = 2%nat
      /\ Enhanced.speed (Enhanced.gameState three) = 10 + 0.1
      /\ Enhanced.lives (Enhanced.gameState three) = 3%Z
      /\ Qeq_bool (Enhanced.spawnTimer three) 0.5 = true
      /\ Qeq_bool (Enhanced.spawnTimer three) 0 = false).
Proof.
  cbv zeta. split; [| split; [| split]].
  - repeat split; try reflexivity.
    intros H.
    apply (f_equal (fun w => map Basic.ovelocity (Basic.obstacles w))) in H.
    vm_compute in H. discriminate H.
  - repeat split; try reflexivity.
    intros H.
    apply (f_equal (fun w => map Enhanced.ovelocity (Enhanced.obstacles w))) in H.
    vm_compute in H. discriminate H.
  - repeat match goal with |- _ /\ _ => split end; vm_compute; reflexivity.
  - repeat match goal with |- _ /\ _ => split end; vm_compute; reflexivity.
Qed.

(** C6, amended.  In either game the spawn block adds [deltaTime] to the
    spawn timer; when the timer has reached the interval it creates the
    tick's entities first, at the speed before the increment, and then
    resets the timer to 0 and raises the speed by 0.1.  A single frame of
    2.5 s or more right after a start, which is at least one spawn interval
    in either game, gives exactly one spawn cycle and no collision: the
    speed is 10.1, the timer 0 and no life is lost. *)
Theorem spawn_tick :
  forall (b : Basic.World) (e : Enhanced.World) (dt : Q) (rnd sine : nat -> Q),
    Basic.reachable b ->
    Enhanced.reachable e ->
    2.5 <= dt ->
    (forall d r w, basicSpawnBlock d r w (Basic.spawnPhase d r w))
    /\ (forall d r w, enhancedSpawnBlock d r w (Enhanced.spawnPhase d r w))
    /\ threw (Basic.frame dt rnd (Basic.startGame b)) = false
    /\ basicAfterOneTick rnd (stateOf (Basic.frame dt rnd (Basic.startGame b)))
    /\ threw (Enhanced.update dt rnd sine (Enhanced.startGame e)) = false
    /\ enhancedAfterOneTick rnd
         (stateOf (Enhanced.update dt rnd sine (Enhanced.startGame e))).
Proof.
  intros b e dt rnd sine Hb He Hdt.
  split; [intros d r w; apply basic_spawnBlock |].
  split; [intros d r w; apply enhanced_spawnBlock |].
  apply basic_reachable_inv in Hb. destruct Hb as (_ & _ & Hz & _).
  assert (Hfresh : basicFresh 0 (Basic.startGame b)).
  { unfold basicFresh, Basic.playing. cbn. repeat split; try assumption; try lra. }
  destruct (basic_fresh_tick 0 dt rnd _ Hfresh) as (Ht & H); [lra |].
  split; [exact Ht |]. split; [exact H |].
  pose proof (enhanced_reachable_interval e He) as [_ Hi].
  apply enhanced_reachable_inv in He. destruct He as (_ & _ & Hze & _).
  destruct (enhanced_fresh_tick dt rnd sine e Hze) as (Ht' & Ha & _); [lra |].
  split; assumption.
Qed.

Lemma spawn_tick_witness :
  let b := Basic.run [Basic.Start; Basic.Frame 16 obstacleInLaneZero; Basic.Left] in
  let e := Enhanced.run [Enhanced.Start; Enhanced.Pause] in
  (forall d r w, basicSpawnBlock d r w (Basic.spawnPhase d r w))
  /\ (forall d r w, enhancedSpawnBlock d r w (Enhanced.spawnPhase d r w))
  /\ threw (Basic.frame 2.5 obstacleInLaneZero (Basic.startGame b)) = false
  /\ basicAfterOneTick obstacleInLaneZero
       (stateOf (Basic.frame 2.5 obstacleInLaneZero (Basic.startGame b)))
  /\ threw (Enhanced.update 2.5 obstacleInLaneZero noSine (Enhanced.startGame e)) = false
  /\ enhancedAfterOneTick obstacleInLaneZero
       (stateOf (Enhanced.update 2.5 obstacleInLaneZero noSine (Enhanced.startGame e))).
Proof.
  apply (spawn_tick
           (Basic.run [Basic.Start; Basic.Frame 16 obstacleInLaneZero; Basic.Left])
           (Enhanced.run [Enhanced.Start; Enhanced.Pause])
           2.5 obstacleInLaneZero noSine).
  - eexists. reflexivity.
  - eexists. reflexivity.
  - discriminate.
Defined.

(** * Further properties of the two games *)

(** ** Induction over runs *)

Lemma basic_run_induction (P : Basic.World -> Prop) :
  P Basic.initial ->
  (forall w c, Basic.reachable w -> P w -> P (Basic.step w c)) ->
  forall w, Basic.reachable w -> P w.
Proof.
  intros H0 Hstep w [cs ->]. unfold Basic.run.
  induction cs as [| c cs IH] using rev_ind; [exact H0 |].
  rewrite fold_left_app. cbn [fold_left].
  apply Hstep; [exists cs; reflexivity | exact IH].
Qed.

Lemma enhanced_run_induction (P : Enhanced.World -> Prop) :
  P Enhanced.initial ->
  (forall w c, Enhanced.reachable w -> P w -> P (Enhanced.step w c)) ->
  forall w, Enhanced.reachable w -> P w.
Proof.
  intros H0 Hstep w [cs ->]. unfold Enhanced.run.
  induction cs as [| c cs IH] using rev_ind; [exact H0 |].
  rewrite fold_left_app. cbn [fold_left].
  apply Hstep; [exists cs; reflexivity | exact IH].
Qed.

(** ** Score, speed and spawn timer across a frame *)

(** Timer and speed when [checkCollisions] is called, in the basic game. *)
Lemma basic_before_timer (dt : Q) (rnd : nat -> Q) (w : Basic.World) :
  let w' := basicBeforeCollisions dt rnd w in
  if Qgeb (Basic.spawnTimer w + dt) Basic.spawnInterval
  then Basic.spawnTimer w' = 0
       /\ Basic.speed (Basic.gameState w') = Basic.speed (Basic.gameState w) + 0.1
  else Basic.spawnTimer w' = Basic.spawnTimer w + dt
       /\ Basic.speed (Basic.gameState w') = Basic.speed (Basic.gameState w).
Proof.
  unfold basicBeforeCollisions.
  set (w1 := Basic.setPlayer _ w).
  destruct (basic_cullObstacles_frame dt w1) as (A1 & _ & _ & _ & A5 & _).
  set (w2 := Basic.cullObstacles dt w1) in *.
  destruct (basic_cullCollectibles_frame dt w2) as (B1 & _ & _ & _ & B5 & _).
  set (w3 := Basic.cullCollectibles dt w2) in *.
  assert (Ht : Basic.spawnTimer w3 = Basic.spawnTimer w) by (rewrite B5, A5; reflexivity).
  assert (Hg : Basic.gameState w3 = Basic.gameState w) by (rewrite B1, A1; reflexivity).
  clearbody w3. cbv zeta. rewrite basic_spawnPhase_eq. cbv zeta. rewrite Ht.
  destruct (Qgeb _ _); cbn; rewrite ?Hg, ?Ht; split; reflexivity.
Qed.

(** What a frame of a running basic game does to timer, speed and score:
    timer and speed are those of the spawn block, and the score grows by
    at least [Math.floor(deltaTime * 5)]. *)
Lemma basic_frame_session (dt : Q) (rnd : nat -> Q) (w : Basic.World) :
  Basic.playing w = true ->
  exists w',
    Basic.frame dt rnd w = Normal w'
    /\ Basic.spawnTimer w' = Basic.spawnTimer (basicBeforeCollisions dt rnd w)
    /\ Basic.speed (Basic.gameState w')
       = Basic.speed (Basic.gameState (basicBeforeCollisions dt rnd w))
    /\ (Basic.score (Basic.gameState w) + Qfloor (dt * 5)
        <= Basic.score (Basic.gameState w'))%Z.
Proof.
  intros Hplay. unfold Basic.frame. rewrite Hplay.
  change (Basic.spawnPhase dt rnd _) with (basicBeforeCollisions dt rnd w).
  destruct (basic_before_spec dt rnd w) as (_ & _ & _ & _ & _ & _ & _ & A8 & _).
  set (w4 := basicBeforeCollisions dt rnd w) in *.
  unfold Basic.checkCollisions.
  pose proof (basic_checkObstacles_spec (length (Basic.obstacles w4)) w4 (le_n _)) as Hs.
  destruct (Basic.checkObstacles _ w4) as [w5 | w5 | w5]; [| | contradiction].
  - destruct Hs as ((F1 & F2 & F3 & F4 & F5 & F6 & F7 & F8 & F9 & F10) & _).
    destruct (basic_checkCollectibles_spec (length (Basic.collectibles w5)) w5 (le_n _))
      as (w6 & -> & P).
    destruct P as (P1 & P2 & P3 & P4 & P5 & P6 & P7 & P8 & P9 & P10 & P11 & P12 & P13).
    eexists. split; [reflexivity |]. cbn.
    split; [congruence |]. split; [congruence |]. lia.
  - destruct Hs as ((F1 & F2 & F3 & F4 & F5 & F6 & F7 & F8 & F9 & F10) & _).
    eexists. split; [reflexivity |]. cbn.
    split; [congruence |]. split; [congruence |]. lia.
Qed.

Lemma enhanced_before_timer (dt : Q) (rnd sine : nat -> Q) (w : Enhanced.World) :
  let w' := enhancedBeforeCollisions dt rnd sine w in
  if Qgeb (Enhanced.spawnTimer w + dt) (Enhanced.spawnInterval w)
  then Enhanced.spawnTimer w' = 0
       /\ Enhanced.speed (Enhanced.gameState w') = Enhanced.speed (Enhanced.gameState w) + 0.1
       /\ Enhanced.spawnInterval w' = Enhanced.max 1.2 (Enhanced.spawnInterval w - 0.02)
  else Enhanced.spawnTimer w' = Enhanced.spawnTimer w + dt
       /\ Enhanced.speed (Enhanced.gameState w') = Enhanced.speed (Enhanced.gameState w)
       /\ Enhanced.spawnInterval w' = Enhanced.spawnInterval w.
Proof.
  unfold enhancedBeforeCollisions. cbv zeta. rewrite enhanced_spawnPhase_eq. cbn.
  destruct (Qgeb _ _); cbn; repeat split.
Qed.

(** The scans of the enhanced game keep timer, interval and speed, and
    never lower the score, however they complete. *)
Lemma enhanced_collisions_session (w : Enhanced.World) :
  let w' := stateOf (Enhanced.checkCollisions w) in
  Enhanced.spawnTimer w' = Enhanced.spawnTimer w
  /\ Enhanced.spawnInterval w' = Enhanced.spawnInterval w
  /\ Enhanced.speed (Enhanced.gameState w') = Enhanced.speed (Enhanced.gameState w)
  /\ (Enhanced.score (Enhanced.gameState w) <= Enhanced.score (Enhanced.gameState w'))%Z.
Proof.
  assert (Hscan : forall n v,
            let v' := stateOf (Enhanced.checkObstacles n v) in
            Enhanced.spawnTimer v' = Enhanced.spawnTimer v
            /\ Enhanced.spawnInterval v' = Enhanced.spawnInterval v
            /\ Enhanced.speed (Enhanced.gameState v') = Enhanced.speed (Enhanced.gameState v)
            /\ Enhanced.score (Enhanced.gameState v') = Enhanced.score (Enhanced.gameState v)).
  { induction n as [| i IH]; intros v; cbn [Enhanced.checkObstacles]; [cbn; auto |].
    destruct (Enhanced.obstacles v !! i) as [o |]; [| cbn; auto].
    destruct (closerThan 1 _ _); [| apply IH].
    match goal with |- context [Enhanced.checkObstacles i ?u] =>
      destruct (IH u) as (I1 & I2 & I3 & I4) end.
    cbv zeta. rewrite I1, I2, I3, I4.
    destruct (_ <=? _)%Z; cbn; auto. }
  unfold Enhanced.checkCollisions.
  destruct (Hscan (length (Enhanced.obstacles w)) w) as (S1 & S2 & S3 & S4).
  destruct (Enhanced.checkObstacles _ w) as [w5 | w5]; cbn [stateOf] in *.
  - destruct (enhanced_checkCollectibles_spec (length (Enhanced.collectibles w5)) w5 (le_n _))
      as (w6 & -> & P).
    destruct P as (P1 & P2 & P3 & P4 & P5 & P6 & P7 & P8 & P9 & P10 & P11 & P12).
    cbn. repeat split; try congruence; try lia.
  - repeat split; try congruence; try lia.
Qed.

Lemma enhanced_update_session (dt : Q) (rnd sine : nat -> Q) (w : Enhanced.World) :
  Enhanced.isPlaying (Enhanced.gameState w) = true ->
  Enhanced.isPaused (Enhanced.gameState w) = false ->
  let w4 := enhancedBeforeCollisions dt rnd sine w in
  let c := Enhanced.update dt rnd sine w in
  Enhanced.spawnTimer (stateOf c) = Enhanced.spawnTimer w4
  /\ Enhanced.spawnInterval (stateOf c) = Enhanced.spawnInterval w4
  /\ Enhanced.speed (Enhanced.gameState (stateOf c)) = Enhanced.speed (Enhanced.gameState w4)
  /\ (Enhanced.score (Enhanced.gameState w) <= Enhanced.score (Enhanced.gameState (stateOf c))
      \/ Qfloor (dt * 5) < 0)%Z.
Proof.
  intros Hp Hq. cbv zeta. rewrite (enhanced_update_unfold dt rnd sine w Hp Hq).
  destruct (enhanced_before_spec dt rnd sine w) as (_ & _ & _ & _ & _ & A6 & _).
  set (w4 := enhancedBeforeCollisions dt rnd sine w) in *.
  destruct (enhanced_collisions_session w4) as (S1 & S2 & S3 & S4).
  destruct (Enhanced.checkCollisions w4) as [w5 | w5]; cbn in *.
  - repeat split; try assumption. lia.
  - repeat split; try assumption. left. lia.
Qed.

Lemma floor_nonneg (x : Q) : 0 <= x -> (0 <= Qfloor (x * 5))%Z.
Proof.
  intros H. change 0%Z with (Qfloor 0). apply Qfloor_resp_le. lra.
Qed.

(** X1.  When [deltaTime] is not negative, a frame never lowers the score, in
    either game and from every state, whether the enhanced [update]
    returns or throws.  For [animate] the condition is that the clock
    argument is not before [lastTime]. *)
Theorem score_never_decreases :
  forall (b : Basic.World) (e : Enhanced.World) (deltaTime currentTime : Q)
         (rnd sine : nat -> Q),
    0 <= deltaTime ->
    Basic.lastTime b <= currentTime ->
    (Basic.score (Basic.gameState b)
     <= Basic.score (Basic.gameState (stateOf (Basic.frame deltaTime rnd b))))%Z
    /\ (Basic.score (Basic.gameState b)
        <= Basic.score (Basic.gameState (stateOf (Basic.animate currentTime rnd b))))%Z
    /\ (Enhanced.score (Enhanced.gameState e)
        <= Enhanced.score
             (Enhanced.gameState (stateOf (Enhanced.update deltaTime rnd sine e))))%Z.
Proof.
  intros b e dt currentTime rnd sine Hdt Hclock.
  assert (Hb : forall d v, 0 <= d ->
             (Basic.score (Basic.gameState v)
              <= Basic.score (Basic.gameState (stateOf (Basic.frame d rnd v))))%Z).
  { intros d v Hd. destruct (Basic.playing v) eqn:Hp.
    - destruct (basic_frame_session d rnd v Hp) as (w' & -> & _ & _ & Hs).
      pose proof (floor_nonneg d Hd). cbn. lia.
    - unfold Basic.frame. rewrite Hp. cbn. lia. }
  split; [apply Hb; exact Hdt |]. split.
  - unfold Basic.animate.
    change (Basic.score (Basic.gameState b))
      with (Basic.score (Basic.gameState (Basic.setLastTime currentTime b))).
    apply Hb. apply Qle_shift_div_l; lra.
  - destruct (Enhanced.isPlaying (Enhanced.gameState e)) eqn:Hp.
    2: { unfold Enhanced.update. rewrite Hp. cbn. lia. }
    destruct (Enhanced.isPaused (Enhanced.gameState e)) eqn:Hq.
    1: { unfold Enhanced.update. rewrite Hp, Hq. cbn. lia. }
    destruct (enhanced_update_session dt rnd sine e Hp Hq) as (_ & _ & _ & [H | H]);
      [exact H |].
    pose proof (floor_nonneg dt Hdt). lia.
Qed.

Lemma score_never_decreases_witness :
  (Basic.score (Basic.gameState runningBasic)
   <= Basic.score (Basic.gameState (stateOf (Basic.frame 0.25 obstacleInLaneZero
                                                         runningBasic))))%Z
  /\ (Basic.score (Basic.gameState runningBasic)
      <= Basic.score (Basic.gameState (stateOf (Basic.animate 9250 obstacleInLaneZero
                                                              runningBasic))))%Z
  /\ (Enhanced.score (Enhanced.gameState runningEnhanced)
      <= Enhanced.score
           (Enhanced.gameState
              (stateOf (Enhanced.update 0.25 obstacleInLaneZero noSine
                                        runningEnhanced))))%Z.
Proof.
  apply (score_never_decreases runningBasic runningEnhanced 0.25 9250
                               obstacleInLaneZero noSine).
  - discriminate.
  - discriminate.
Defined.

(** X2.  A frame never lowers the speed: it leaves it as it is or raises it
    by 0.1, in either game and from every state.  In every reachable state
    the speed is at least the base speed 10. *)
Theorem speed_never_decreases :
  (forall (b : Basic.World) (dt : Q) (rnd : nat -> Q),
      let v := Basic.speed (Basic.gameState b) in
      let v' := Basic.speed (Basic.gameState (stateOf (Basic.frame dt rnd b))) in
      (v' = v \/ v' = v + 0.1) /\ v <= v')
  /\ (forall (e : Enhanced.World) (dt : Q) (rnd sine : nat -> Q),
      let v := Enhanced.speed (Enhanced.gameState e) in
      let v' := Enhanced.speed
                  (Enhanced.gameState (stateOf (Enhanced.update dt rnd sine e))) in
      (v' = v \/ v' = v + 0.1) /\ v <= v')
  /\ (forall b, Basic.reachable b -> 10 <= Basic.speed (Basic.gameState b))
  /\ (forall e, Enhanced.reachable e -> 10 <= Enhanced.speed (Enhanced.gameState e)).
Proof.
  assert (Hb : forall (b : Basic.World) (dt : Q) (rnd : nat -> Q),
             let v := Basic.speed (Basic.gameState b) in
             let v' := Basic.speed (Basic.gameState (stateOf (Basic.frame dt rnd b))) in
             (v' = v \/ v' = v + 0.1) /\ v <= v').
  { intros b dt rnd. cbv zeta. destruct (Basic.playing b) eqn:Hp.
    - destruct (basic_frame_session dt rnd b Hp) as (w' & -> & _ & Hv & _).
      cbn [stateOf]. rewrite Hv. pose proof (basic_before_timer dt rnd b) as Ht.
      cbv zeta in Ht. destruct (Qgeb _ _); destruct Ht as [_ ->]; split; auto; lra.
    - unfold Basic.frame. rewrite Hp. cbn. split; [auto | lra]. }
  assert (He : forall (e : Enhanced.World) (dt : Q) (rnd sine : nat -> Q),
             let v := Enhanced.speed (Enhanced.gameState e) in
             let v' := Enhanced.speed
                         (Enhanced.gameState (stateOf (Enhanced.update dt rnd sine e))) in
             (v' = v \/ v' = v + 0.1) /\ v <= v').
  { intros e dt rnd sine. cbv zeta.
    destruct (Enhanced.isPlaying (Enhanced.gameState e)) eqn:Hp.
    2: { unfold Enhanced.update. rewrite Hp. cbn. split; [auto | lra]. }
    destruct (Enhanced.isPaused (Enhanced.gameState e)) eqn:Hq.
    1: { unfold Enhanced.update. rewrite Hp, Hq. cbn. split; [auto | lra]. }
    destruct (enhanced_update_session dt rnd sine e Hp Hq) as (_ & _ & Hv & _).
    rewrite Hv. pose proof (enhanced_before_timer dt rnd sine e) as Ht.
    cbv zeta in Ht. destruct (Qgeb _ _); destruct Ht as (_ & -> & _); split; auto; lra. }
  split; [exact Hb |]. split; [exact He |]. split.
  - apply basic_run_induction; [cbn; lra |].
    intros w c _ H. destruct c as [| | | | currentTime rnd]; cbn [Basic.step];
      try (unfold Basic.control; destruct (_ || _); exact H).
    + cbn. lra.
    + unfold Basic.animate.
      destruct (Hb (Basic.setLastTime currentTime w)
                   ((currentTime - Basic.lastTime w) / 1000) rnd) as [_ Hle].
      cbn in Hle. cbn. lra.
  - apply enhanced_run_induction; [cbn; lra |].
    intros w c _ H. destruct c as [| | | | | | | dt rnd sine]; cbn [Enhanced.step];
      try (unfold Enhanced.control; destruct (_ || _); exact H);
      try exact H.
    + cbn. lra.
    + destruct (He w dt rnd sine) as [_ Hle]. lra.
Qed.

(** ** Spawn timer and spawn interval *)

Lemma basic_step_timer (w : Basic.World) (c : Basic.Command) :
  Basic.spawnTimer w < Basic.spawnInterval ->
  Basic.spawnTimer (Basic.step w c) < Basic.spawnInterval.
Proof.
  intros H. destruct c as [| | | | currentTime rnd]; cbn [Basic.step];
    try (unfold Basic.control; destruct (_ || _); exact H).
  - reflexivity.
  - unfold Basic.animate.
    set (dt := (currentTime - Basic.lastTime w) / 1000).
    assert (H0 : Basic.spawnTimer (Basic.setLastTime currentTime w) < Basic.spawnInterval)
      by exact H.
    generalize dependent (Basic.setLastTime currentTime w). intros w0 H0.
    destruct (Basic.playing w0) eqn:Hp.
    + destruct (basic_frame_session dt rnd w0 Hp) as (w' & -> & Ht & _).
      cbn [stateOf]. rewrite Ht. pose proof (basic_before_timer dt rnd w0) as Hb.
      cbv zeta in Hb. destruct (Qgeb _ _) eqn:Eg; destruct Hb as [-> _].
      * reflexivity.
      * apply Qgeb_lt in Eg. exact Eg.
    + unfold Basic.frame. rewrite Hp. exact H0.
Qed.

Lemma enhanced_max_le (x : Q) : 1.2 <= x -> Enhanced.max 1.2 (x - 0.02) <= x.
Proof.
  intros H. unfold Enhanced.max. destruct (Qle_bool 1.2 (x - 0.02)); lra.
Qed.

Lemma enhanced_step_timer (w : Enhanced.World) (c : Enhanced.Command) :
  enhancedIntervalOk w ->
  Enhanced.spawnTimer w < Enhanced.spawnInterval w ->
  Enhanced.spawnTimer (Enhanced.step w c) < Enhanced.spawnInterval (Enhanced.step w c)
  /\ Enhanced.spawnInterval (Enhanced.step w c) <= Enhanced.spawnInterval w.
Proof.
  intros [Hlo Hhi] H.
  assert (Hc : forall f, Enhanced.spawnTimer (Enhanced.control f w)
                         < Enhanced.spawnInterval (Enhanced.control f w)
                         /\ Enhanced.spawnInterval (Enhanced.control f w)
                            <= Enhanced.spawnInterval w).
  { intros f. unfold Enhanced.control. destruct (_ || _); cbn; split; try exact H; lra. }
  destruct c as [| | | | | | | dt rnd sine]; cbn [Enhanced.step]; try apply Hc.
  - cbn. split; lra.
  - cbn. split; [exact H | lra].
  - cbn. split; [exact H | lra].
  - cbn. split; [exact H | lra].
  - destruct (Enhanced.isPlaying (Enhanced.gameState w)) eqn:Hp.
    2: { unfold Enhanced.update. rewrite Hp. cbn. split; [exact H | lra]. }
    destruct (Enhanced.isPaused (Enhanced.gameState w)) eqn:Hq.
    1: { unfold Enhanced.update. rewrite Hp, Hq. cbn. split; [exact H | lra]. }
    destruct (enhanced_update_session dt rnd sine w Hp Hq) as (Ht & Hi & _).
    rewrite Ht, Hi. pose proof (enhanced_before_timer dt rnd sine w) as Hb.
    cbv zeta in Hb. destruct (Qgeb _ _) eqn:Eg; destruct Hb as (-> & _ & ->).
    + pose proof (enhanced_max_bounds _ Hhi). pose proof (enhanced_max_le _ Hlo).
      split; lra.
    + apply Qgeb_lt in Eg. split; [exact Eg | lra].
Qed.

(** X3.  In every reachable state the spawn timer is below the spawn
    interval (2.5 s in the basic game), whatever the frame lengths were.
    The interval of the enhanced game stays between 1.2 s and 2 s and never
    grows along a run, restarts included: [startGame] does not reset it. *)
Theorem spawn_timer_below_interval :
  forall (b : Basic.World) (e : Enhanced.World) (cs : list Enhanced.Command),
    Basic.reachable b ->
    Enhanced.reachable e ->
    Basic.spawnTimer b < Basic.spawnInterval
    /\ Enhanced.spawnTimer e < Enhanced.spawnInterval e
    /\ 1.2 <= Enhanced.spawnInterval e <= 2
    /\ Enhanced.spawnInterval (fold_left Enhanced.step cs e) <= Enhanced.spawnInterval e
    /\ Enhanced.spawnInterval (Enhanced.startGame e) = Enhanced.spawnInterval e.
Proof.
  intros b e cs Hb He.
  split.
  { revert b Hb. apply basic_run_induction; [reflexivity |].
    intros w c _ H. apply basic_step_timer. exact H. }
  split.
  { revert e He. apply enhanced_run_induction; [reflexivity |].
    intros w c Hw H. apply enhanced_step_timer; [| exact H].
    apply enhanced_reachable_interval. exact Hw. }
  pose proof (enhanced_reachable_interval e He) as Hok.
  split; [exact Hok |]. split; [| reflexivity].
  clear He. revert e Hok.
  induction cs as [| c cs IH]; intros e Hok; cbn [fold_left]; [lra |].
  pose proof (enhanced_step_interval e c Hok) as Hok'.
  specialize (IH _ Hok').
  assert (Hle : Enhanced.spawnInterval (Enhanced.step e c) <= Enhanced.spawnInterval e).
  { destruct c as [| | | | | | | dt rnd sine]; cbn [Enhanced.step];
      try (unfold Enhanced.control; destruct (_ || _); cbn; lra);
      try (cbn; lra).
    destruct (Enhanced.isPlaying (Enhanced.gameState e)) eqn:Hp.
    2: { unfold Enhanced.update. rewrite Hp. cbn. lra. }
    destruct (Enhanced.isPaused (Enhanced.gameState e)) eqn:Hq.
    1: { unfold Enhanced.update. rewrite Hp, Hq. cbn. lra. }
    destruct (enhanced_update_session dt rnd sine e Hp Hq) as (_ & Hi & _).
    rewrite Hi. pose proof (enhanced_before_timer dt rnd sine e) as Hb'.
    cbv zeta in Hb'. destruct Hok as [Hlo Hhi].
    destruct (Qgeb _ _); destruct Hb' as (_ & _ & ->);
      [apply enhanced_max_le; exact Hlo | lra]. }
  lra.
Qed.

Lemma spawn_timer_below_interval_witness :
  let b := Basic.run [Basic.Start; Basic.Frame 2500 obstacleInLaneZero] in
  let e := Enhanced.run [Enhanced.Start; Enhanced.Update 2 obstaclesInLanesZeroOne noSine] in
  let cs := [Enhanced.Update 1.5 obstaclesInLanesZeroOne noSine;
             Enhanced.Update 1.5 obstaclesInLanesZeroOne noSine; Enhanced.Start] in
  Basic.spawnTimer b < Basic.spawnInterval
  /\ Enhanced.spawnTimer e < Enhanced.spawnInterval e
  /\ 1.2 <= Enhanced.spawnInterval e <= 2
  /\ Enhanced.spawnInterval (fold_left Enhanced.step cs e) <= Enhanced.spawnInterval e
  /\ Enhanced.spawnInterval (Enhanced.startGame e) = Enhanced.spawnInterval e.
Proof.
  apply (spawn_timer_below_interval
           (Basic.run [Basic.Start; Basic.Frame 2500 obstacleInLaneZero])
           (Enhanced.run [Enhanced.Start;
                          Enhanced.Update 2 obstaclesInLanesZeroOne noSine])).
  - exists [Basic.Start; Basic.Frame 2500 obstacleInLaneZero]. reflexivity.
  - exists [Enhanced.Start; Enhanced.Update 2 obstaclesInLanesZeroOne noSine]. reflexivity.
Defined.

(** ** What the collision scans compute *)

Lemma take_delete_same {A : Type} (l : list A) (i : nat) :
  (i < length l)%nat -> take i (delete i l) = take i l /\ drop i (delete i l) = drop (S i) l.
Proof.
  intros H. rewrite delete_take_drop. split.
  - apply take_app_length'. rewrite length_take_le; lia.
  - apply drop_app_length'. rewrite length_take_le; lia.
Qed.

Lemma basic_checkCollectibles_filter :
  forall (n : nat) (w : Basic.World),
    (n <= length (Basic.collectibles w))%nat ->
    let p := Basic.position (Basic.player w) in
    let seen := take n (Basic.collectibles w) in
    Basic.checkCollectibles n w
    = Normal (basicAfterPickups
                (rev (within 0.8 p Basic.cmesh seen))
                (beyond 0.8 p Basic.cmesh seen ++ drop n (Basic.collectibles w))
                w).
Proof.
  unfold within, beyond.
  induction n as [| i IH]; intros w Hn; cbv zeta; cbn [Basic.checkCollectibles].
  - destruct w as [[pl pa sc sp li go] p os cs h st lt d1 d2].
    unfold basicAfterPickups. cbn. rewrite Z.add_0_r, app_nil_r. reflexivity.
  - destruct (Basic.collectibles w !! i) as [c |] eqn:E.
    2: { apply lookup_ge_None in E. lia. }
    rewrite (take_S_r _ _ _ E), !List.filter_app. cbn [List.filter].
    destruct (closerThan 0.8 _ _) eqn:Ec; cbn [negb].
    + rewrite IH.
      2: { cbn. pose proof (delete_length_ge (Basic.collectibles w) i). lia. }
      cbv zeta.
      destruct (take_delete_same (Basic.collectibles w) i) as [Ht Hd]; [lia |].
      destruct w as [[pl pa sc sp li go] p os cs h st lt d1 d2].
      unfold basicAfterPickups, Basic.pickUp. cbn in *. rewrite Ht, Hd.
      rewrite !app_nil_r, rev_app_distr. cbn.
      rewrite <- app_assoc. cbn. do 3 f_equal. lia.
    + rewrite IH by lia. cbv zeta.
      rewrite (drop_S _ _ _ E), !app_nil_r, <- app_assoc. reflexivity.
Qed.

Lemma enhanced_checkCollectibles_filter :
  forall (n : nat) (w : Enhanced.World),
    (n <= length (Enhanced.collectibles w))%nat ->
    let p := Enhanced.position (Enhanced.player w) in
    let seen := take n (Enhanced.collectibles w) in
    Enhanced.checkCollectibles n w
    = Normal (enhancedAfterPickups
                (rev (within 0.8 p Enhanced.cmesh seen))
                (beyond 0.8 p Enhanced.cmesh seen ++ drop n (Enhanced.collectibles w))
                w).
Proof.
  unfold within, beyond.
  induction n as [| i IH]; intros w Hn; cbv zeta; cbn [Enhanced.checkCollectibles].
  - destruct w as [p os cs [pl pa sc sp li go th] st si d1 d2].
    unfold enhancedAfterPickups. cbn. rewrite Z.add_0_r, app_nil_r. reflexivity.
  - destruct (Enhanced.collectibles w !! i) as [c |] eqn:E.
    2: { apply lookup_ge_None in E. lia. }
    rewrite (take_S_r _ _ _ E), !List.filter_app. cbn [List.filter].
    destruct (closerThan 0.8 _ _) eqn:Ec; cbn [negb].
    + rewrite IH.
      2: { cbn. pose proof (delete_length_ge (Enhanced.collectibles w) i). lia. }
      cbv zeta.
      destruct (take_delete_same (Enhanced.collectibles w) i) as [Ht Hd]; [lia |].
      destruct w as [p os cs [pl pa sc sp li go th] st si d1 d2].
      unfold enhancedAfterPickups, Enhanced.pickUp. cbn in *. rewrite Ht, Hd.
      rewrite !app_nil_r, rev_app_distr. cbn [rev app].
      f_equal. f_equal;
        [f_equal; unfold totalValue; cbn; lia | rewrite <- app_assoc; reflexivity].
    + rewrite IH by lia. cbv zeta.
      rewrite (drop_S _ _ _ E), !app_nil_r, <- app_assoc. reflexivity.
Qed.

Lemma basic_checkObstacles_filter :
  forall (n : nat) (w : Basic.World),
    (n <= length (Basic.obstacles w))%nat ->
    let p := Basic.position (Basic.player w) in
    let seen := take n (Basic.obstacles w) in
    (Z.of_nat (length (within 1.0 p Basic.omesh seen)) < Basic.lives (Basic.gameState w))%Z ->
    Basic.checkObstacles n w
    = Basic.Finished
        (basicAfterHits (rev (within 1.0 p Basic.omesh seen))
                        (beyond 1.0 p Basic.omesh seen ++ drop n (Basic.obstacles w))
                        w).
Proof.
  unfold within, beyond.
  induction n as [| i IH]; intros w Hn; cbv zeta; cbn [Basic.checkObstacles].
  - intros _. destruct w as [[pl pa sc sp li go] p os cs h st lt d1 d2].
    unfold basicAfterHits. cbn. rewrite Z.sub_0_r, app_nil_r. reflexivity.
  - destruct (Basic.obstacles w !! i) as [o |] eqn:E.
    2: { apply lookup_ge_None in E. lia. }
    rewrite (take_S_r _ _ _ E), !List.filter_app. cbn [List.filter].
    destruct (closerThan 1.0 _ _) eqn:Ec; cbn [negb].
    + rewrite length_app. cbn [length]. intros Hl.
      replace (Basic.lives (Basic.gameState (Basic.loseLife i o w)) <=? 0)%Z with false
        by (symmetry; apply Z.leb_gt; cbn; lia).
      destruct (take_delete_same (Basic.obstacles w) i) as [Ht Hd]; [lia |].
      rewrite IH.
      2: { cbn. pose proof (delete_length_ge (Basic.obstacles w) i). lia. }
      2: { cbn. rewrite Ht. lia. }
      cbv zeta.
      destruct w as [[pl pa sc sp li go] p os cs h st lt d1 d2].
      unfold basicAfterHits, Basic.loseLife. cbn in *. rewrite Ht, Hd.
      rewrite !app_nil_r, rev_app_distr. cbn [rev app length].
      rewrite Nat.iter_succ_r.
      f_equal. f_equal; [f_equal; lia | rewrite <- app_assoc; reflexivity].
    + intros Hl. rewrite app_nil_r in Hl. rewrite IH by lia. cbv zeta.
      rewrite (drop_S _ _ _ E), !app_nil_r, <- app_assoc. reflexivity.
Qed.

Lemma enhanced_checkObstacles_filter :
  forall (n : nat) (w : Enhanced.World),
    (n <= length (Enhanced.obstacles w))%nat ->
    let p := Enhanced.position (Enhanced.player w) in
    let seen := take n (Enhanced.obstacles w) in
    (Z.of_nat (length (within 1 p Enhanced.omesh seen))
     < Enhanced.lives (Enhanced.gameState w))%Z ->
    Enhanced.checkObstacles n w
    = Normal
        (enhancedAfterHits (rev (within 1 p Enhanced.omesh seen))
                           (beyond 1 p Enhanced.omesh seen ++ drop n (Enhanced.obstacles w))
                           w).
Proof.
  unfold within, beyond.
  induction n as [| i IH]; intros w Hn; cbv zeta; cbn [Enhanced.checkObstacles].
  - intros _. destruct w as [p os cs [pl pa sc sp li go th] st si d1 d2].
    unfold enhancedAfterHits. cbn. rewrite Z.sub_0_r, app_nil_r. reflexivity.
  - destruct (Enhanced.obstacles w !! i) as [o |] eqn:E.
    2: { apply lookup_ge_None in E. lia. }
    rewrite (take_S_r _ _ _ E), !List.filter_app. cbn [List.filter].
    destruct (closerThan 1 _ _) eqn:Ec; cbn [negb].
    + rewrite length_app. cbn [length]. intros Hl.
      replace (Enhanced.lives (Enhanced.gameState (Enhanced.loseLife i o w)) <=? 0)%Z
        with false by (symmetry; apply Z.leb_gt; cbn; lia).
      destruct (take_delete_same (Enhanced.obstacles w) i) as [Ht Hd]; [lia |].
      rewrite IH.
      2: { cbn. pose proof (delete_length_ge (Enhanced.obstacles w) i). lia. }
      2: { cbn. rewrite Ht. lia. }
      cbv zeta.
      destruct w as [p os cs [pl pa sc sp li go th] st si d1 d2].
      unfold enhancedAfterHits, Enhanced.loseLife. cbn in *. rewrite Ht, Hd.
      rewrite !app_nil_r, rev_app_distr. cbn [rev app length].
      f_equal. f_equal; [f_equal; lia | rewrite <- app_assoc; reflexivity].
    + intros Hl. rewrite app_nil_r in Hl. rewrite IH by lia. cbv zeta.
      rewrite (drop_S _ _ _ E), !app_nil_r, <- app_assoc. reflexivity.
Qed.

(** X4.  The collectible scan of either game, run on the whole array, ends
    normally from every state: it removes exactly the collectibles closer
    than 0.8 to the player, keeps the others in their order, disposes the
    removed ones (last index first) and adds their value to the score: 10
    each in the basic game, [getValue()] each in the enhanced one. *)
Theorem pickups_collected :
  (forall w : Basic.World,
      let p := Basic.position (Basic.player w) in
      let cs := Basic.collectibles w in
      Basic.checkCollectibles (length cs) w
      = Normal (basicAfterPickups (rev (within 0.8 p Basic.cmesh cs))
                                  (beyond 0.8 p Basic.cmesh cs) w))
  /\ (forall w : Enhanced.World,
      let p := Enhanced.position (Enhanced.player w) in
      let cs := Enhanced.collectibles w in
      Enhanced.checkCollectibles (length cs) w
      = Normal (enhancedAfterPickups (rev (within 0.8 p Enhanced.cmesh cs))
                                     (beyond 0.8 p Enhanced.cmesh cs) w)).
Proof.
  split; intros w p cs.
  - subst p cs. rewrite basic_checkCollectibles_filter by lia. cbv zeta.
    rewrite firstn_all, drop_all, app_nil_r. reflexivity.
  - subst p cs. rewrite enhanced_checkCollectibles_filter by lia. cbv zeta.
    rewrite firstn_all, drop_all, app_nil_r. reflexivity.
Qed.

(** X5.  When fewer obstacles are within distance 1 of the player than there
    are lives, [checkCollisions] of either game ends normally: every such
    obstacle costs one life (several in one frame cost several) and is
    removed and disposed, the others stay in their order, and the
    collectible scan follows. *)
Theorem hits_charged :
  forall (b : Basic.World) (e : Enhanced.World),
    let pb := Basic.position (Basic.player b) in
    let pe := Enhanced.position (Enhanced.player e) in
    (Z.of_nat (length (within 1.0 pb Basic.omesh (Basic.obstacles b)))
     < Basic.lives (Basic.gameState b))%Z ->
    (Z.of_nat (length (within 1 pe Enhanced.omesh (Enhanced.obstacles e)))
     < Enhanced.lives (Enhanced.gameState e))%Z ->
    Basic.checkCollisions b
    = Normal (basicAfterPickups
                (rev (within 0.8 pb Basic.cmesh (Basic.collectibles b)))
                (beyond 0.8 pb Basic.cmesh (Basic.collectibles b))
                (basicAfterHits (rev (within 1.0 pb Basic.omesh (Basic.obstacles b)))
                                (beyond 1.0 pb Basic.omesh (Basic.obstacles b)) b))
    /\ Enhanced.checkCollisions e
       = Normal (enhancedAfterPickups
                   (rev (within 0.8 pe Enhanced.cmesh (Enhanced.collectibles e)))
                   (beyond 0.8 pe Enhanced.cmesh (Enhanced.collectibles e))
                   (enhancedAfterHits
                      (rev (within 1 pe Enhanced.omesh (Enhanced.obstacles e)))
                      (beyond 1 pe Enhanced.omesh (Enhanced.obstacles e)) e)).
Proof.
  intros b e pb pe Hb He. subst pb pe. split.
  - unfold Basic.checkCollisions.
    rewrite basic_checkObstacles_filter; cbv zeta;
      rewrite ?firstn_all, ?drop_all, ?app_nil_r; [| lia | exact Hb].
    match goal with |- Basic.checkCollectibles _ ?v = _ =>
      rewrite (basic_checkCollectibles_filter (length (Basic.collectibles v)) v (le_n _)) end.
    cbv zeta. rewrite firstn_all, drop_all, app_nil_r. reflexivity.
  - unfold Enhanced.checkCollisions.
    rewrite enhanced_checkObstacles_filter; cbv zeta;
      rewrite ?firstn_all, ?drop_all, ?app_nil_r; [| lia | exact He].
    match goal with |- Enhanced.checkCollectibles _ ?v = _ =>
      rewrite (enhanced_checkCollectibles_filter
                 (length (Enhanced.collectibles v)) v (le_n _)) end.
    cbv zeta. rewrite firstn_all, drop_all, app_nil_r. reflexivity.
Qed.

Lemma hits_charged_witness :
  let pb := Basic.position (Basic.player runningBasic) in
  let pe := Enhanced.position (Enhanced.player runningEnhanced) in
  Basic.checkCollisions runningBasic
  = Normal (basicAfterPickups
              (rev (within 0.8 pb Basic.cmesh (Basic.collectibles runningBasic)))
              (beyond 0.8 pb Basic.cmesh (Basic.collectibles runningBasic))
              (basicAfterHits
                 (rev (within 1.0 pb Basic.omesh (Basic.obstacles runningBasic)))
                 (beyond 1.0 pb Basic.omesh (Basic.obstacles runningBasic)) runningBasic))
  /\ Enhanced.checkCollisions runningEnhanced
     = Normal (enhancedAfterPickups
                 (rev (within 0.8 pe Enhanced.cmesh (Enhanced.collectibles runningEnhanced)))
                 (beyond 0.8 pe Enhanced.cmesh (Enhanced.collectibles runningEnhanced))
                 (enhancedAfterHits
                    (rev (within 1 pe Enhanced.omesh (Enhanced.obstacles runningEnhanced)))
                    (beyond 1 pe Enhanced.omesh (Enhanced.obstacles runningEnhanced))
                    runningEnhanced)).
Proof.
  apply (hits_charged runningBasic runningEnhanced); reflexivity.
Defined.

(** ** Every entity removed from a collection is disposed *)

Lemma forEachCull_count {A : Type} (upd : nat -> A -> A) (zof : A -> Q) :
  forall (fuel k : nat) (arr log : list A),
    let r := forEachCull upd zof fuel k arr log in
    (length (fst r) + length (snd r) = length arr + length log)%nat.
Proof.
  induction fuel as [| fuel IH]; intros k arr log; cbn [forEachCull]; [reflexivity |].
  destruct (arr !! k) as [a |] eqn:E; [| apply IH].
  destruct (Qgtb (zof (upd k a)) 10); cbv zeta; rewrite IH.
  - rewrite length_delete by (eexists; exact E). rewrite length_app. cbn.
    apply lookup_lt_Some in E. lia.
  - rewrite length_insert. reflexivity.
Qed.

Lemma filter_partition_length {A : Type} (f : A -> bool) (l : list A) :
  (length (List.filter (fun a => negb (f a)) l) + length (List.filter f l) = length l)%nat.
Proof.
  induction l as [| a l IH]; [reflexivity |]. cbn. destruct (f a); cbn; lia.
Qed.

Lemma kept_culled_length {A : Type} (zof : A -> Q) (l : list A) :
  (length (kept zof l) + length (culled zof l) = length l)%nat.
Proof. unfold kept, culled, inPlay. apply filter_partition_length. Qed.

Lemma basic_scan_count :
  forall (n : nat) (w : Basic.World),
    (n <= length (Basic.obstacles w))%nat ->
    let w' := match Basic.checkObstacles n w with
              | Basic.Finished v | Basic.Returned v | Basic.Threw v => v
              end in
    basicObstacleCount w' = basicObstacleCount w
    /\ basicCollectibleCount w' = basicCollectibleCount w.
Proof.
  unfold basicObstacleCount, basicCollectibleCount.
  induction n as [| i IH]; intros w Hn; cbn [Basic.checkObstacles]; [auto |].
  destruct (Basic.obstacles w !! i) as [o |] eqn:E; [| auto].
  assert (Hdel : length (delete i (Basic.obstacles w))
                 = (length (Basic.obstacles w) - 1)%nat)
    by (apply length_delete; eexists; exact E).
  apply lookup_lt_Some in E.
  destruct (closerThan 1.0 _ _); [| apply IH; lia].
  destruct (_ <=? _)%Z.
  - cbn. rewrite Hdel, length_app. cbn. lia.
  - specialize (IH (Basic.loseLife i o w)). cbv zeta in IH.
    destruct IH as [I1 I2]; [cbn; lia |].
    cbv zeta. rewrite I1, I2. cbn. rewrite Hdel, length_app. cbn. lia.
Qed.

Lemma enhanced_scan_count :
  forall (n : nat) (w : Enhanced.World),
    let w' := stateOf (Enhanced.checkObstacles n w) in
    enhancedObstacleCount w' = enhancedObstacleCount w
    /\ enhancedCollectibleCount w' = enhancedCollectibleCount w.
Proof.
  unfold enhancedObstacleCount, enhancedCollectibleCount.
  induction n as [| i IH]; intros w; cbn [Enhanced.checkObstacles]; [cbn; auto |].
  destruct (Enhanced.obstacles w !! i) as [o |] eqn:E; [| cbn; auto].
  assert (Hdel : length (delete i (Enhanced.obstacles w))
                 = (length (Enhanced.obstacles w) - 1)%nat)
    by (apply length_delete; eexists; exact E).
  apply lookup_lt_Some in E.
  destruct (closerThan 1 _ _); [| apply IH].
  match goal with |- context [Enhanced.checkObstacles i ?u] =>
    destruct (IH u) as [I1 I2] end.
  cbv zeta. rewrite I1, I2.
  destruct (_ <=? _)%Z; cbn; rewrite ?Hdel, ?length_app; cbn; lia.
Qed.

Lemma basic_pick_count (w : Basic.World) :
  let w' := stateOf (Basic.checkCollectibles (length (Basic.collectibles w)) w) in
  basicObstacleCount w' = basicObstacleCount w
  /\ basicCollectibleCount w' = basicCollectibleCount w.
Proof.
  cbv zeta. rewrite basic_checkCollectibles_filter by lia. cbv zeta.
  unfold basicObstacleCount, basicCollectibleCount, within, beyond. cbn.
  rewrite firstn_all, drop_all, app_nil_r, length_app, length_rev.
  split; [reflexivity |].
  pose proof (filter_partition_length
                (fun a => closerThan 0.8 (Basic.position (Basic.player w)) (Basic.cmesh a))
                (Basic.collectibles w)).
  lia.
Qed.

Lemma enhanced_pick_count (w : Enhanced.World) :
  let w' := stateOf (Enhanced.checkCollectibles (length (Enhanced.collectibles w)) w) in
  enhancedObstacleCount w' = enhancedObstacleCount w
  /\ enhancedCollectibleCount w' = enhancedCollectibleCount w.
Proof.
  cbv zeta. rewrite enhanced_checkCollectibles_filter by lia. cbv zeta.
  unfold enhancedObstacleCount, enhancedCollectibleCount, within, beyond. cbn.
  rewrite firstn_all, drop_all, app_nil_r, length_app, length_rev.
  split; [reflexivity |].
  pose proof (filter_partition_length
                (fun a => closerThan 0.8 (Enhanced.position (Enhanced.player w))
                                     (Enhanced.cmesh a))
                (Enhanced.collectibles w)).
  lia.
Qed.

Lemma basic_cull_count (dt : Q) (w : Basic.World) :
  let w' := Basic.cullCollectibles dt (Basic.cullObstacles dt w) in
  basicObstacleCount w' = basicObstacleCount w
  /\ basicCollectibleCount w' = basicCollectibleCount w
  /\ Basic.gameState w' = Basic.gameState w
  /\ Basic.spawnTimer w' = Basic.spawnTimer w.
Proof.
  cbv zeta. rewrite basic_cullCollectibles_eq, basic_cullObstacles_eq.
  unfold basicObstacleCount, basicCollectibleCount. cbn.
  pose proof (forEachCull_count (fun _ => Basic.obstacleUpdate dt)
                (fun o => posz (Basic.omesh o)) (length (Basic.obstacles w)) 0
                (Basic.obstacles w) (Basic.disposedObstacles w)) as Ho.
  pose proof (forEachCull_count (fun _ => Basic.collectibleUpdate dt)
                (fun c => posz (Basic.cmesh c)) (length (Basic.collectibles w)) 0
                (Basic.collectibles w) (Basic.disposedCollectibles w)) as Hc.
  cbv zeta in Ho, Hc. auto.
Qed.

Lemma basic_frame_count (dt : Q) (rnd : nat -> Q) (w : Basic.World) :
  Basic.playing w = true ->
  let w' := stateOf (Basic.frame dt rnd w) in
  let ds := if Qgeb (Basic.spawnTimer w + dt) Basic.spawnInterval
            then Basic.spawnDecisions rnd else [] in
  let v := Basic.speed (Basic.gameState w) in
  basicObstacleCount w' = (basicObstacleCount w + length (basicNewObstacles v ds))%nat
  /\ basicCollectibleCount w'
     = (basicCollectibleCount w + length (basicNewCollectibles v ds))%nat.
Proof.
  intros Hp. cbv zeta. unfold Basic.frame. rewrite Hp.
  set (w1 := Basic.setPlayer _ w).
  destruct (basic_cull_count dt w1) as (C1 & C2 & C3 & C4).
  set (w3 := Basic.cullCollectibles dt (Basic.cullObstacles dt w1)) in *.
  assert (S : basicObstacleCount (Basic.spawnPhase dt rnd w3)
              = (basicObstacleCount w
                 + length (basicNewObstacles (Basic.speed (Basic.gameState w))
                             (if Qgeb (Basic.spawnTimer w + dt) Basic.spawnInterval
                              then Basic.spawnDecisions rnd else [])))%nat
              /\ basicCollectibleCount (Basic.spawnPhase dt rnd w3)
                 = (basicCollectibleCount w
                    + length (basicNewCollectibles (Basic.speed (Basic.gameState w))
                                (if Qgeb (Basic.spawnTimer w + dt) Basic.spawnInterval
                                 then Basic.spawnDecisions rnd else [])))%nat).
  { rewrite basic_spawnPhase_eq. clearbody w3. rewrite C4. cbv zeta. rewrite C3.
    change (Basic.spawnTimer w1) with (Basic.spawnTimer w).
    change (Basic.gameState w1) with (Basic.gameState w).
    change (basicObstacleCount w1) with (basicObstacleCount w) in C1.
    change (basicCollectibleCount w1) with (basicCollectibleCount w) in C2.
    unfold basicObstacleCount, basicCollectibleCount in *.
    destruct (Qgeb _ _); cbn; rewrite ?length_app; cbn; lia. }
  set (w4 := Basic.spawnPhase dt rnd w3) in *. destruct S as [S1 S2].
  unfold Basic.checkCollisions.
  pose proof (basic_scan_count (length (Basic.obstacles w4)) w4 (le_n _)) as Hs.
  pose proof (basic_checkObstacles_spec (length (Basic.obstacles w4)) w4 (le_n _)) as Hn.
  cbv zeta in Hs.
  destruct (Basic.checkObstacles _ w4) as [w5 | w5 | w5]; [| | contradiction].
  - destruct Hs as [H1 H2]. pose proof (basic_pick_count w5) as Hk. cbv zeta in Hk.
    destruct (basic_checkCollectibles_spec (length (Basic.collectibles w5)) w5 (le_n _))
      as (w6 & Hw6 & _).
    rewrite Hw6 in *. cbn [stateOf] in *. destruct Hk as [K1 K2].
    change (basicObstacleCount (Basic.addScore (Qfloor (dt * 5)) w6))
      with (basicObstacleCount w6).
    change (basicCollectibleCount (Basic.addScore (Qfloor (dt * 5)) w6))
      with (basicCollectibleCount w6).
    split; congruence.
  - destruct Hs as [H1 H2]. cbn [stateOf].
    change (basicObstacleCount (Basic.addScore (Qfloor (dt * 5)) w5))
      with (basicObstacleCount w5).
    change (basicCollectibleCount (Basic.addScore (Qfloor (dt * 5)) w5))
      with (basicCollectibleCount w5).
    split; congruence.
Qed.

Lemma enhanced_update_count (dt : Q) (rnd sine : nat -> Q) (w : Enhanced.World) :
  Enhanced.isPlaying (Enhanced.gameState w) = true ->
  Enhanced.isPaused (Enhanced.gameState w) = false ->
  let w' := stateOf (Enhanced.update dt rnd sine w) in
  let ds := if Qgeb (Enhanced.spawnTimer w + dt) (Enhanced.spawnInterval w)
            then Enhanced.spawnDecisions rnd else [] in
  let v := Enhanced.speed (Enhanced.gameState w) in
  enhancedObstacleCount w' = (enhancedObstacleCount w + length (enhancedNewObstacles v ds))%nat
  /\ enhancedCollectibleCount w'
     = (enhancedCollectibleCount w + length (enhancedNewCollectibles v ds))%nat.
Proof.
  intros Hp Hq. cbv zeta. rewrite (enhanced_update_unfold dt rnd sine w Hp Hq).
  assert (S : enhancedObstacleCount (enhancedBeforeCollisions dt rnd sine w)
              = (enhancedObstacleCount w
                 + length (enhancedNewObstacles (Enhanced.speed (Enhanced.gameState w))
                             (if Qgeb (Enhanced.spawnTimer w + dt) (Enhanced.spawnInterval w)
                              then Enhanced.spawnDecisions rnd else [])))%nat
              /\ enhancedCollectibleCount (enhancedBeforeCollisions dt rnd sine w)
                 = (enhancedCollectibleCount w
                    + length (enhancedNewCollectibles (Enhanced.speed (Enhanced.gameState w))
                                (if Qgeb (Enhanced.spawnTimer w + dt)
                                         (Enhanced.spawnInterval w)
                                 then Enhanced.spawnDecisions rnd else [])))%nat).
  { unfold enhancedBeforeCollisions. cbv zeta. rewrite enhanced_spawnPhase_eq.
    pose proof (kept_culled_length (fun o => posz (Enhanced.omesh o))
                  (allUpdated (fun _ => Enhanced.obstacleUpdate dt) (Enhanced.obstacles w)))
      as Ho.
    pose proof (kept_culled_length (fun c => posz (Enhanced.cmesh c))
                  (allUpdated (fun i => Enhanced.collectibleUpdate dt (sine i))
                              (Enhanced.collectibles w))) as Hc.
    unfold allUpdated in Ho, Hc. rewrite length_imap in Ho. rewrite length_imap in Hc.
    unfold enhancedObstacleCount, enhancedCollectibleCount, allUpdated.
    cbn [Enhanced.spawnTimer Enhanced.spawnInterval].
    destruct (Qgeb _ _); cbn; rewrite ?length_app, ?length_rev; cbn; lia. }
  set (w4 := enhancedBeforeCollisions dt rnd sine w) in *. destruct S as [S1 S2].
  unfold Enhanced.checkCollisions.
  pose proof (enhanced_scan_count (length (Enhanced.obstacles w4)) w4) as Hs.
  cbv zeta in Hs. destruct Hs as [H1 H2].
  destruct (Enhanced.checkObstacles _ w4) as [w5 | w5]; cbn [stateOf Enhanced.andThen] in *.
  - pose proof (enhanced_pick_count w5) as Hk. cbv zeta in Hk.
    destruct (enhanced_checkCollectibles_spec (length (Enhanced.collectibles w5)) w5 (le_n _))
      as (w6 & Hw6 & _).
    rewrite Hw6 in *. cbn [stateOf Enhanced.andThen] in *. destruct Hk as [K1 K2].
    change (enhancedObstacleCount (Enhanced.addScore (Qfloor (dt * 5)) w6))
      with (enhancedObstacleCount w6).
    change (enhancedCollectibleCount (Enhanced.addScore (Qfloor (dt * 5)) w6))
      with (enhancedCollectibleCount w6).
    split; congruence.
  - split; congruence.
Qed.

(** X6.  Whatever command is run, in either game and from every state, an
    obstacle or collectible leaves its collection only by being disposed:
    the number of entities that are active or disposed grows exactly by
    the number of entities the command spawns, and is unchanged by every
    command that spawns nothing ([startGame] and [stopGame] included). *)
Theorem removed_means_disposed :
  (forall (w : Basic.World) (c : Basic.Command),
      let v := Basic.speed (Basic.gameState w) in
      basicObstacleCount (Basic.step w c)
      = (basicObstacleCount w + length (basicNewObstacles v (basicSpawns w c)))%nat
      /\ basicCollectibleCount (Basic.step w c)
         = (basicCollectibleCount w + length (basicNewCollectibles v (basicSpawns w c)))%nat)
  /\ (forall (w : Enhanced.World) (c : Enhanced.Command),
      let v := Enhanced.speed (Enhanced.gameState w) in
      enhancedObstacleCount (Enhanced.step w c)
      = (enhancedObstacleCount w + length (enhancedNewObstacles v (enhancedSpawns w c)))%nat
      /\ enhancedCollectibleCount (Enhanced.step w c)
         = (enhancedCollectibleCount w
            + length (enhancedNewCollectibles v (enhancedSpawns w c)))%nat).
Proof.
  split; intros w c; cbv zeta.
  - destruct c as [| | | | currentTime rnd]; cbn [Basic.step basicSpawns];
      try (unfold Basic.control, basicObstacleCount, basicCollectibleCount;
           destruct (_ || _); cbn; split; lia).
    + unfold basicObstacleCount, basicCollectibleCount. cbn.
      rewrite !length_app. split; lia.
    + unfold Basic.animate.
      destruct (Basic.playing w) eqn:Hp.
      * assert (Hp0 : Basic.playing (Basic.setLastTime currentTime w) = true) by exact Hp.
        pose proof (basic_frame_count ((currentTime - Basic.lastTime w) / 1000) rnd
                                      _ Hp0) as H.
        cbv zeta in H. cbn [andb]. exact H.
      * unfold Basic.frame.
        replace (Basic.playing (Basic.setLastTime currentTime w)) with false
          by (symmetry; exact Hp).
        unfold basicObstacleCount, basicCollectibleCount. cbn. split; lia.
  - destruct c as [| | | | | | | dt rnd sine]; cbn [Enhanced.step enhancedSpawns];
      try (unfold Enhanced.control, enhancedObstacleCount, enhancedCollectibleCount;
           destruct (_ || _); cbn; split; lia);
      try (unfold enhancedObstacleCount, enhancedCollectibleCount; cbn;
           rewrite ?length_app; split; lia).
    destruct (Enhanced.isPlaying (Enhanced.gameState w)) eqn:Hp.
    2: { unfold Enhanced.update, enhancedObstacleCount, enhancedCollectibleCount.
         rewrite Hp. cbn. split; lia. }
    destruct (Enhanced.isPaused (Enhanced.gameState w)) eqn:Hq.
    1: { unfold Enhanced.update, enhancedObstacleCount, enhancedCollectibleCount.
         rewrite Hp, Hq. cbn. split; lia. }
    pose proof (enhanced_update_count dt rnd sine w Hp Hq) as H.
    cbv zeta in H. cbn [andb negb]. exact H.
Qed.

(** ** The player: ground, lanes *)

Lemma basic_playerUpdate_ground (dt : Q) (p : Basic.Player) :
  basicGroundOk p -> basicGroundOk (Basic.playerUpdate dt p).
Proof.
  intros [Hy Hg]. unfold basicGroundOk, Basic.playerUpdate.
  destruct (Basic.isGrounded p); cbn.
  - split; [exact Hy | intros _; apply Hg; reflexivity].
  - destruct (Qle_bool _ 0.6) eqn:E; cbn.
    + split; [lra | auto].
    + split; [| discriminate].
      apply not_true_iff_false in E. rewrite Qle_bool_iff in E.
      apply Qnot_le_lt in E. lra.
Qed.

Lemma enhanced_playerUpdate_ground (dt : Q) (p : Enhanced.EnhancedPlayer) :
  enhancedGroundOk p -> enhancedGroundOk (Enhanced.playerUpdate dt p).
Proof.
  intros [Hy Hg]. unfold enhancedGroundOk, Enhanced.playerUpdate.
  destruct (Enhanced.isGrounded p); cbn.
  - split; [exact Hy | intros _; apply Hg; reflexivity].
  - destruct (Qle_bool _ (Enhanced.groundY + 0.6)) eqn:E; cbn.
    + split; [unfold Enhanced.groundY; lra | auto].
    + split; [| discriminate].
      apply not_true_iff_false in E. rewrite Qle_bool_iff in E.
      apply Qnot_le_lt in E. unfold Enhanced.groundY in E. lra.
Qed.

Lemma basic_control_ground (f : Basic.Player -> Basic.Player) (w : Basic.World) :
  (forall p, basicGroundOk p -> basicGroundOk (f p)) ->
  basicGroundOk (Basic.player w) -> basicGroundOk (Basic.player (Basic.control f w)).
Proof.
  intros Hf H. unfold Basic.control. destruct (_ || _); [exact H |]. cbn. apply Hf, H.
Qed.

Lemma enhanced_control_ground (f : Enhanced.EnhancedPlayer -> Enhanced.EnhancedPlayer)
      (w : Enhanced.World) :
  (forall p, enhancedGroundOk p -> enhancedGroundOk (f p)) ->
  enhancedGroundOk (Enhanced.player w) ->
  enhancedGroundOk (Enhanced.player (Enhanced.control f w)).
Proof.
  intros Hf H. unfold Enhanced.control. destruct (_ || _); [exact H |]. cbn. apply Hf, H.
Qed.

(** X7.  In every reachable state of either game the player is not below
    the ground height 0.6, and a grounded player has no vertical velocity.
    A grounded player of the basic game stands exactly at 0.6; the enhanced
    player, created at height 1, stands at 1 or, once it has landed, at
    [groundY + 0.6]. *)
Theorem player_above_ground :
  forall (b : Basic.World) (e : Enhanced.World),
    Basic.reachable b ->
    Enhanced.reachable e ->
    basicGroundOk (Basic.player b) /\ enhancedGroundOk (Enhanced.player e).
Proof.
  intros b e Hb He. split.
  - revert b Hb. apply basic_run_induction.
    { unfold basicGroundOk. cbn. split; [lra | auto]. }
    intros w c _ H. destruct c as [| | | | currentTime rnd]; cbn [Basic.step].
    + exact H.
    + apply basic_control_ground; [| exact H].
      intros p [Hy Hg]. unfold basicGroundOk, Basic.jump.
      destruct (Basic.isGrounded p) eqn:E; cbn; [split; [exact Hy | discriminate] |].
      rewrite E. auto.
    + apply basic_control_ground; [| exact H].
      intros p Hp. unfold Basic.moveLeft. destruct (_ >? _)%Z; exact Hp.
    + apply basic_control_ground; [| exact H].
      intros p Hp. unfold Basic.moveRight. destruct (_ <? _)%Z; exact Hp.
    + unfold Basic.animate.
      set (dt := (currentTime - Basic.lastTime w) / 1000).
      assert (H0 : basicGroundOk (Basic.player (Basic.setLastTime currentTime w)))
        by exact H.
      generalize dependent (Basic.setLastTime currentTime w). intros w0 H0.
      destruct (Basic.playing w0) eqn:Hp.
      * destruct (basic_frame_spec dt rnd w0 Hp) as (w' & -> & _ & Hpl & _).
        cbn [stateOf]. rewrite Hpl. apply basic_playerUpdate_ground. exact H0.
      * unfold Basic.frame. rewrite Hp. exact H0.
  - revert e He. apply enhanced_run_induction.
    { unfold enhancedGroundOk. cbn. split; [lra | auto]. }
    intros w c _ H. destruct c as [| | | | | | | dt rnd sine]; cbn [Enhanced.step];
      try exact H.
    + apply enhanced_control_ground; [| exact H].
      intros p [Hy Hg]. unfold enhancedGroundOk, Enhanced.jump.
      destruct (Enhanced.isGrounded p) eqn:E; cbn; [split; [exact Hy | discriminate] |].
      rewrite E. auto.
    + apply enhanced_control_ground; [| exact H].
      intros p Hp. unfold Enhanced.moveLeft. destruct (_ >? _)%Z; exact Hp.
    + apply enhanced_control_ground; [| exact H].
      intros p Hp. unfold Enhanced.moveRight. destruct (_ <? _)%Z; exact Hp.
    + destruct (Enhanced.isPlaying (Enhanced.gameState w)) eqn:Hp.
      2: { unfold Enhanced.update. rewrite Hp. exact H. }
      destruct (Enhanced.isPaused (Enhanced.gameState w)) eqn:Hq.
      1: { unfold Enhanced.update. rewrite Hp, Hq. exact H. }
      destruct (enhanced_update_spec dt rnd sine w Hp Hq) as (_ & -> & _).
      apply enhanced_playerUpdate_ground. exact H.
Qed.

Lemma player_above_ground_witness :
  basicGroundOk
    (Basic.player (Basic.run [Basic.Start; Basic.Jump; Basic.Frame 100 obstacleInLaneZero]))
  /\ enhancedGroundOk
       (Enhanced.player
          (Enhanced.run [Enhanced.Start; Enhanced.Jump;
                         Enhanced.Update 0.1 obstaclesInLanesZeroOne noSine])).
Proof.
  apply (player_above_ground
           (Basic.run [Basic.Start; Basic.Jump; Basic.Frame 100 obstacleInLaneZero])
           (Enhanced.run [Enhanced.Start; Enhanced.Jump;
                          Enhanced.Update 0.1 obstaclesInLanesZeroOne noSine])).
  - eexists. reflexivity.
  - eexists. reflexivity.
Defined.

Lemma basic_playerUpdate_x (dt : Q) (p : Basic.Player) :
  vx (Basic.position (Basic.playerUpdate dt p))
  = let x := vx (Basic.position p) in
    let dx := Basic.targetX p - x in
    if Qgtb (Qabs dx) 0.1 then x + dx * 8 * dt else x.
Proof.
  unfold Basic.playerUpdate. destruct (Basic.isGrounded p); cbn; [reflexivity |].
  destruct (Qle_bool _ 0.6); reflexivity.
Qed.

Lemma enhanced_playerUpdate_x (dt : Q) (p : Enhanced.EnhancedPlayer) :
  vx (Enhanced.position (Enhanced.playerUpdate dt p))
  = let x := vx (Enhanced.position p) in
    let dx := Enhanced.targetX p - x in
    if Qgtb (Qabs dx) 0.1 then x + dx * Enhanced.moveSpeed * dt else Enhanced.targetX p.
Proof.
  unfold Enhanced.playerUpdate. destruct (Enhanced.isGrounded p); cbn; [reflexivity |].
  destruct (Qle_bool _ (Enhanced.groundY + 0.6)); reflexivity.
Qed.

(** One step of the approach: the remaining distance is scaled by [1 - 8 dt]. *)
Lemma approach_shrinks (t x dt : Q) :
  0 <= dt -> dt <= 0.125 ->
  Qabs (t - (x + (t - x) * 8 * dt)) <= Qabs (t - x).
Proof.
  intros H0 H1.
  assert (E : t - (x + (t - x) * 8 * dt) == (t - x) * (1 - 8 * dt)) by ring.
  pose proof (Qabs_wd _ _ E) as Ha.
  pose proof (Qabs_Qmult (t - x) (1 - 8 * dt)) as Hm.
  assert (Hd : Qabs (1 - 8 * dt) == 1 - 8 * dt) by (apply Qabs_pos; lra).
  pose proof (Qabs_nonneg (t - x)) as Hc.
  set (A := Qabs (t - (x + (t - x) * 8 * dt))) in *.
  set (B := Qabs ((t - x) * (1 - 8 * dt))) in *.
  set (C := Qabs (t - x)) in *.
  set (D := Qabs (1 - 8 * dt)) in *.
  nra.
Qed.

(** X8.  With [0 <= deltaTime <= 0.125] a player update never moves the
    player farther from the target lane: the distance to [targetX] does not
    grow (it is scaled by [1 - 8 deltaTime]).  Within 0.1 of the target the
    basic player stays where it is, and the enhanced player is put exactly
    on the target. *)
Theorem lane_switch_no_overshoot :
  forall (b : Basic.Player) (e : Enhanced.EnhancedPlayer) (deltaTime : Q),
    0 <= deltaTime ->
    deltaTime <= 0.125 ->
    let xb := vx (Basic.position b) in
    let xb' := vx (Basic.position (Basic.playerUpdate deltaTime b)) in
    let xe := vx (Enhanced.position e) in
    let xe' := vx (Enhanced.position (Enhanced.playerUpdate deltaTime e)) in
    Qabs (Basic.targetX b - xb') <= Qabs (Basic.targetX b - xb)
    /\ Qabs (Enhanced.targetX e - xe') <= Qabs (Enhanced.targetX e - xe)
    /\ (Qabs (Basic.targetX b - xb) <= 0.1 -> xb' = xb)
    /\ (Qabs (Enhanced.targetX e - xe) <= 0.1 -> xe' = Enhanced.targetX e).
Proof.
  intros b e dt H0 H1 xb xb' xe xe'. subst xb' xe'.
  rewrite basic_playerUpdate_x, enhanced_playerUpdate_x. cbv zeta. fold xb xe.
  split; [| split; [| split]].
  - destruct (Qgtb _ _); [apply approach_shrinks; assumption | lra].
  - destruct (Qgtb _ _); [apply approach_shrinks; assumption |].
    assert (E : Enhanced.targetX e - Enhanced.targetX e == 0) by ring.
    rewrite E. apply Qabs_nonneg.
  - intros H. apply Qgtb_le in H. rewrite H. reflexivity.
  - intros H. apply Qgtb_le in H. rewrite H. reflexivity.
Qed.

Lemma lane_switch_no_overshoot_witness :
  let b := Basic.moveLeft Basic.newPlayer in
  let e := Enhanced.moveRight Enhanced.newPlayer in
  let xb := vx (Basic.position b) in
  let xb' := vx (Basic.position (Basic.playerUpdate 0.016 b)) in
  let xe := vx (Enhanced.position e) in
  let xe' := vx (Enhanced.position (Enhanced.playerUpdate 0.016 e)) in
  Qabs (Basic.targetX b - xb') <= Qabs (Basic.targetX b - xb)
  /\ Qabs (Enhanced.targetX e - xe') <= Qabs (Enhanced.targetX e - xe)
  /\ (Qabs (Basic.targetX b - xb) <= 0.1 -> xb' = xb)
  /\ (Qabs (Enhanced.targetX e - xe) <= 0.1 -> xe' = Enhanced.targetX e).
Proof.
  apply (lane_switch_no_overshoot (Basic.moveLeft Basic.newPlayer)
                                  (Enhanced.moveRight Enhanced.newPlayer) 0.016);
    discriminate.
Defined.

(** ** Collisions and lanes *)

(** Two different lanes are at least 2 apart. *)
Lemma lanes_apart (i j : Z) (a c : Q) :
  laneCoord (Some i) = Some a -> laneCoord (Some j) = Some c -> i <> j ->
  4 <= (a - c) * (a - c).
Proof.
  unfold laneCoord. intros Ha Hc Hij.
  destruct (Z.ltb_spec i 0); [discriminate |].
  destruct (Z.ltb_spec j 0); [discriminate |].
  assert (Hi : (i = 0 \/ i = 1 \/ i = 2 \/ 3 <= i)%Z) by lia.
  assert (Hj : (j = 0 \/ j = 1 \/ j = 2 \/ 3 <= j)%Z) by lia.
  destruct Hi as [-> | [-> | [-> | Hi]]].
  4: { replace (Z.to_nat i) with (S (S (S (Z.to_nat (i - 3))))) in Ha by lia.
       discriminate. }
  all: destruct Hj as [-> | [-> | [-> | Hj]]]; try congruence.
  all: try (replace (Z.to_nat j) with (S (S (S (Z.to_nat (j - 3))))) in Hc by lia;
            discriminate).
  all: cbn in Ha, Hc; injection Ha as <-; injection Hc as <-; lra.
Qed.

Lemma Qsquare_nonneg (x : Q) : 0 <= x * x.
Proof.
  destruct (Qlt_le_dec x 0).
  - assert (E : x * x == (- x) * (- x)) by ring.
    rewrite E. apply Qmult_le_0_compat; lra.
  - apply Qmult_le_0_compat; lra.
Qed.

Lemma lanes_two_apart (i j : Z) (a c : Q) :
  laneCoord (Some i) = Some a -> laneCoord (Some j) = Some c -> i <> j ->
  2 <= a - c \/ 2 <= c - a.
Proof.
  intros Ha Hc Hij. pose proof (lanes_apart i j a c Ha Hc Hij) as H4.
  destruct (Qlt_le_dec (a - c) 2) as [H1 | H1]; [| left; exact H1].
  destruct (Qlt_le_dec (c - a) 2) as [H2 | H2]; [| right; exact H2].
  exfalso. set (d := a - c) in *. assert (Hd : - (2) < d) by (unfold d; lra).
  assert (Hp : 0 < (2 - d) * (2 + d)) by (apply Qmult_lt_0_compat; lra).
  lra.
Qed.

(** A player within 1 of lane [i] is out of reach of what stands on
    another lane, for every radius up to 1. *)
Lemma near_lane_out_of_reach (r t : Q) (p : Vector3) (q : Position) (i j : Z) :
  0 <= r -> r <= 1 ->
  laneCoord (Some i) = Some t -> Qabs (vx p - t) <= 1 ->
  posx q = laneCoord (Some j) -> i <> j ->
  closerThan r p q = false.
Proof.
  intros H0 H1 Hi Hn Hq Hij. unfold closerThan. rewrite Hq.
  destruct (laneCoord (Some j)) as [c |] eqn:Hj; [| reflexivity].
  apply Qltb_ge. apply Qabs_Qle_condition in Hn. destruct Hn as [Hn1 Hn2].
  pose proof (lanes_two_apart i j t c Hi Hj Hij) as Hfar.
  unfold sq.
  pose proof (Qsquare_nonneg (vy p - posy q)) as Hy.
  pose proof (Qsquare_nonneg (vz p - posz q)) as Hz.
  set (d := vx p - c) in *. set (a := vy p - posy q) in *. set (b := vz p - posz q) in *.
  assert (Hr : r * r <= 1).
  { assert (0 <= (1 - r) * (1 + r)) by (apply Qmult_le_0_compat; lra). lra. }
  assert (Hd : 1 <= d * d).
  { destruct Hfar as [Hf | Hf].
    - assert (0 <= (d - 1) * (d + 1)) by (apply Qmult_le_0_compat; unfold d; lra).
      lra.
    - assert (0 <= (- d - 1) * (- d + 1)) by (apply Qmult_le_0_compat; unfold d; lra).
      lra. }
  lra.
Qed.

(** X9.  In a reachable state a player within 1 of its target lane, in
    particular one that has arrived there (the basic player stops within
    0.1 of the lane, the enhanced player is put on it), is out of reach of
    every obstacle and collectible placed on another lane, whatever their
    [y] and [z]: only entities of the player's lane can hit it or be
    picked up. *)
Theorem other_lanes_harmless :
  forall (b : Basic.World) (e : Enhanced.World) (q : Position) (lane : Z),
    Basic.reachable b ->
    Enhanced.reachable e ->
    posx q = laneCoord (Some lane) ->
    (Qabs (vx (Basic.position (Basic.player b)) - Basic.targetX (Basic.player b)) <= 1 ->
     lane <> Basic.currentLane (Basic.player b) ->
     closerThan 1.0 (Basic.position (Basic.player b)) q = false
     /\ closerThan 0.8 (Basic.position (Basic.player b)) q = false)
    /\ (Qabs (vx (Enhanced.position (Enhanced.player e))
              - Enhanced.targetX (Enhanced.player e)) <= 1 ->
        lane <> Enhanced.currentLane (Enhanced.player e) ->
        closerThan 1 (Enhanced.position (Enhanced.player e)) q = false
        /\ closerThan 0.8 (Enhanced.position (Enhanced.player e)) q = false).
Proof.
  intros b e q lane Hb He Hq.
  apply basic_reachable_inv in Hb. destruct Hb as (_ & _ & _ & [_ Hlb] & _).
  apply enhanced_reachable_inv in He. destruct He as (_ & _ & _ & [_ Hle] & _).
  split; intros Hx Hl.
  - split;
      apply (near_lane_out_of_reach _ (Basic.targetX (Basic.player b)) _ q
               (Basic.currentLane (Basic.player b)) lane);
      try assumption; try lra; congruence.
  - split;
      apply (near_lane_out_of_reach _ (Enhanced.targetX (Enhanced.player e)) _ q
               (Enhanced.currentLane (Enhanced.player e)) lane);
      try assumption; try lra; congruence.
Qed.

(** A player that has changed to the left lane and arrived there, and an
    entity on the middle lane. *)
Lemma other_lanes_harmless_witness :
  let b := Basic.run [Basic.Start; Basic.Left; Basic.Frame 125 obstacleInLaneZero] in
  let e := Enhanced.run [Enhanced.Start; Enhanced.Left;
                         Enhanced.Update 0.125 obstacleInLaneZero noSine] in
  let q := mkPosition (Some 0) 0.75 0 in
  Qeq_bool (vx (Basic.position (Basic.player b))) (-2) = true
  /\ Qeq_bool (vx (Enhanced.position (Enhanced.player e))) (-2) = true
  /\ (closerThan 1.0 (Basic.position (Basic.player b)) q = false
      /\ closerThan 0.8 (Basic.position (Basic.player b)) q = false)
  /\ (closerThan 1 (Enhanced.position (Enhanced.player e)) q = false
      /\ closerThan 0.8 (Enhanced.position (Enhanced.player e)) q = false).
Proof.
  cbv zeta.
  destruct (other_lanes_harmless
              (Basic.run [Basic.Start; Basic.Left; Basic.Frame 125 obstacleInLaneZero])
              (Enhanced.run [Enhanced.Start; Enhanced.Left;
                             Enhanced.Update 0.125 obstacleInLaneZero noSine])
              (mkPosition (Some 0) 0.75 0) 1) as [Hb He].
  - eexists. reflexivity.
  - eexists. reflexivity.
  - reflexivity.
  - split; [vm_compute; reflexivity |]. split; [vm_compute; reflexivity |].
    split.
    + apply Hb; vm_compute; discriminate.
    + apply He; vm_compute; discriminate.
Defined.

(** ** The forward traversal of the basic game, exactly *)

Lemma forEachCull_outside {A : Type} (upd : nat -> A -> A) (zof : A -> Q) :
  forall (fuel k : nat) (arr log : list A),
    (length arr <= k)%nat -> forEachCull upd zof fuel k arr log = (arr, log).
Proof.
  induction fuel as [| fuel IH]; intros k arr log H; cbn [forEachCull]; [reflexivity |].
  rewrite (proj2 (lookup_ge_None arr k)) by lia. apply IH. lia.
Qed.

Lemma forEachCull_outcome {A : Type} (u : A -> A) (zof : A -> Q) :
  forall (fuel : nat) (l pre log : list A),
    (length l <= fuel)%nat ->
    forEachCull (fun _ => u) zof fuel (length pre) (pre ++ l) log
    = (pre ++ fst (forEachOutcome u zof l), log ++ snd (forEachOutcome u zof l)).
Proof.
  induction fuel as [| fuel IH]; intros l pre log Hl.
  - destruct l; [| cbn in Hl; lia]. cbn. rewrite !app_nil_r. reflexivity.
  - cbn [forEachCull]. destruct l as [| a rest].
    + rewrite (proj2 (lookup_ge_None (pre ++ []) (length pre)))
        by (rewrite app_nil_r; lia).
      rewrite forEachCull_outside by (rewrite app_nil_r; lia).
      cbn. rewrite !app_nil_r. reflexivity.
    + rewrite list_lookup_middle by reflexivity.
      cbn [forEachOutcome]. cbv zeta.
      destruct (Qgtb (zof (u a)) 10).
      * rewrite delete_middle. destruct rest as [| b rest'].
        -- rewrite forEachCull_outside by (rewrite app_nil_r; lia). reflexivity.
        -- replace (S (length pre)) with (length (pre ++ [b]))
             by (rewrite length_app; cbn; lia).
           replace (pre ++ b :: rest') with ((pre ++ [b]) ++ rest')
             by (rewrite <- app_assoc; reflexivity).
           rewrite IH by (cbn in Hl; lia).
           destruct (forEachOutcome u zof rest') as [ks ds]. cbn.
           rewrite <- !app_assoc. reflexivity.
      * rewrite insert_app_r_alt by lia.
        replace (length pre - length pre)%nat with 0%nat by lia. cbn [insert list_insert].
        replace (S (length pre)) with (length (pre ++ [u a]))
          by (rewrite length_app; cbn; lia).
        replace (pre ++ u a :: rest) with ((pre ++ [u a]) ++ rest)
          by (rewrite <- app_assoc; reflexivity).
        rewrite IH by (cbn in Hl; lia).
        destruct (forEachOutcome u zof rest) as [ks ds]. cbn.
        rewrite <- !app_assoc. reflexivity.
Qed.

Lemma forEachOutcome_all_kept {A : Type} (u : A -> A) (zof : A -> Q) (l : list A) :
  Forall (fun a => inPlay (zof (u a)) = true) l ->
  forEachOutcome u zof l = (map u l, []).
Proof.
  induction 1 as [| a rest Ha _ IH]; [reflexivity |].
  cbn [forEachOutcome map]. cbv zeta. unfold inPlay in Ha.
  apply negb_true_iff in Ha. rewrite Ha, IH. reflexivity.
Qed.

Lemma basic_cullObstacles_outcome (dt : Q) (w : Basic.World) :
  Basic.cullObstacles dt w
  = let oo := forEachOutcome (Basic.obstacleUpdate dt) (fun o => posz (Basic.omesh o))
                             (Basic.obstacles w) in
    Basic.setObstacles (fst oo) (Basic.disposedObstacles w ++ snd oo) w.
Proof.
  rewrite basic_cullObstacles_eq. cbv zeta.
  rewrite (forEachCull_outcome (Basic.obstacleUpdate dt) (fun o => posz (Basic.omesh o))
             (length (Basic.obstacles w)) (Basic.obstacles w) [] _ (le_n _)).
  reflexivity.
Qed.

Lemma basic_cullCollectibles_outcome (dt : Q) (w : Basic.World) :
  Basic.cullCollectibles dt w
  = let oc := forEachOutcome (Basic.collectibleUpdate dt) (fun c => posz (Basic.cmesh c))
                             (Basic.collectibles w) in
    Basic.setCollectibles (fst oc) (Basic.disposedCollectibles w ++ snd oc) w.
Proof.
  rewrite basic_cullCollectibles_eq. cbv zeta.
  rewrite (forEachCull_outcome (Basic.collectibleUpdate dt) (fun c => posz (Basic.cmesh c))
             (length (Basic.collectibles w)) (Basic.collectibles w) [] _ (le_n _)).
  reflexivity.
Qed.

(** X10.  The culling of the basic game ([forEach] with [splice] inside),
    exactly: every entity is updated and tested in turn, save that the
    entity following a removed one is passed over, neither updated nor
    tested, in that frame.  In a frame in which no updated entity is beyond
    [z = 10] every entity is updated exactly once and none is disposed. *)
Theorem forward_cull_outcome :
  forall (w : Basic.World) (deltaTime : Q),
    let zo := fun o => posz (Basic.omesh o) in
    let zc := fun c => posz (Basic.cmesh c) in
    let oo := forEachOutcome (Basic.obstacleUpdate deltaTime) zo (Basic.obstacles w) in
    let oc := forEachOutcome (Basic.collectibleUpdate deltaTime) zc (Basic.collectibles w) in
    Basic.cullObstacles deltaTime w
    = Basic.setObstacles (fst oo) (Basic.disposedObstacles w ++ snd oo) w
    /\ Basic.cullCollectibles deltaTime w
       = Basic.setCollectibles (fst oc) (Basic.disposedCollectibles w ++ snd oc) w
    /\ (Forall (fun o => inPlay (zo (Basic.obstacleUpdate deltaTime o)) = true)
               (Basic.obstacles w) ->
        oo = (map (Basic.obstacleUpdate deltaTime) (Basic.obstacles w), []))
    /\ (Forall (fun c => inPlay (zc (Basic.collectibleUpdate deltaTime c)) = true)
               (Basic.collectibles w) ->
        oc = (map (Basic.collectibleUpdate deltaTime) (Basic.collectibles w), [])).
Proof.
  intros w dt zo zc oo oc. split; [| split; [| split]].
  - apply basic_cullObstacles_outcome.
  - apply basic_cullCollectibles_outcome.
  - apply forEachOutcome_all_kept.
  - apply forEachOutcome_all_kept.
Qed.

(** ** Hearts, lives and the end of a basic game *)

Lemma basic_checkObstacles_displayed :
  forall (n : nat) (w : Basic.World),
    match Basic.checkObstacles n w with
    | Basic.Finished w' =>
        Basic.displayed (Basic.healthBar w') = Basic.displayed (Basic.healthBar w)
    | Basic.Returned w' => Basic.displayed (Basic.healthBar w') = false
    | Basic.Threw _ => True
    end.
Proof.
  induction n as [| i IH]; intros w; cbn [Basic.checkObstacles]; [reflexivity |].
  destruct (Basic.obstacles w !! i) as [o |]; [| exact I].
  destruct (closerThan 1.0 _ _); [| apply IH].
  destruct (_ <=? 0)%Z; [reflexivity |].
  specialize (IH (Basic.loseLife i o w)).
  destruct (Basic.checkObstacles i _); exact IH.
Qed.

Lemma basic_frame_displayed (dt : Q) (rnd : nat -> Q) (w : Basic.World) :
  Basic.playing w = true ->
  let w' := stateOf (Basic.frame dt rnd w) in
  Basic.displayed (Basic.healthBar w')
  = Basic.isPlaying (Basic.gameState w') && Basic.displayed (Basic.healthBar w).
Proof.
  intros Hplay. unfold Basic.frame. rewrite Hplay.
  change (Basic.spawnPhase dt rnd _) with (basicBeforeCollisions dt rnd w).
  destruct (basic_before_spec dt rnd w) as (A1 & _ & _ & _ & A5 & _).
  set (w4 := basicBeforeCollisions dt rnd w) in *.
  assert (Hp : Basic.isPlaying (Basic.gameState w) = true).
  { unfold Basic.playing in Hplay. apply andb_true_iff in Hplay. tauto. }
  unfold Basic.checkCollisions.
  pose proof (basic_checkObstacles_spec (length (Basic.obstacles w4)) w4 (le_n _)) as Hs.
  pose proof (basic_checkObstacles_displayed (length (Basic.obstacles w4)) w4) as Hd.
  destruct (Basic.checkObstacles _ w4) as [w5 | w5 | w5]; [| | contradiction].
  - destruct Hs as (_ & F2 & _).
    destruct (basic_checkCollectibles_spec (length (Basic.collectibles w5)) w5 (le_n _))
      as (w6 & -> & P).
    destruct P as (_ & _ & _ & P4 & _ & _ & P7 & _).
    cbn. rewrite P4, P7, F2, A5, Hp, Hd, A1. reflexivity.
  - destruct Hs as (_ & F2 & _). cbn. rewrite F2, Hd. reflexivity.
Qed.

(** X11.  In every state a run of the basic game reaches, the health bar
    has three hearts of which as many are full as lives are left, it is on
    the page exactly while a game is running, the game is over exactly
    when no life is left, and a game is running exactly when a life is left
    and the bar is on the page. *)
Theorem hearts_show_lives :
  forall cs : list Basic.Command, basicStatusOk (Basic.run cs).
Proof.
  intros cs. apply basic_run_induction; [| | exists cs; reflexivity].
  - unfold basicStatusOk. cbn. repeat split.
  - clear cs. intros w c Hr (S1 & S2 & S3 & S4 & S5).
    assert (Hc : forall f, basicStatusOk (Basic.control f w)).
    { intros f. unfold Basic.control.
      destruct (_ || _); unfold basicStatusOk; cbn; auto. }
    destruct c as [| | | | currentTime rnd]; cbn [Basic.step]; try apply Hc.
    + unfold basicStatusOk. cbn. rewrite S1. repeat split.
    + unfold Basic.animate.
      set (dt := (currentTime - Basic.lastTime w) / 1000).
      set (w0 := Basic.setLastTime currentTime w).
      assert (Hs0 : basicStatusOk w0) by (unfold basicStatusOk; cbn; auto).
      assert (Hinv0 : basicInv w0) by (apply (basic_reachable_inv w Hr)).
      clearbody w0 dt.
      destruct Hs0 as (T1 & T2 & T3 & T4 & T5).
      destruct (Basic.playing w0) eqn:Hplay.
      * pose proof (basic_frame_displayed dt rnd w0 Hplay) as Hd. cbv zeta in Hd.
        destruct (basic_frame_spec dt rnd w0 Hplay) as (w' & E & _ & _ & _ & _ & Hh).
        rewrite E in *. cbn [stateOf] in *.
        destruct Hinv0 as (I1 & I2 & _).
        destruct (Hh (I2 Hplay) I1) as ((Hm & Hcur & Hl) & Hcase).
        assert (Hp0 : Basic.isPlaying (Basic.gameState w0) = true).
        { unfold Basic.playing in Hplay. apply andb_true_iff in Hplay. tauto. }
        rewrite T3, Hp0, andb_true_r in Hd.
        unfold basicStatusOk. rewrite Hd.
        split; [exact Hm |]. split; [exact Hcur |]. split; [reflexivity |].
        destruct Hcase as [(Hp' & H1) | (Hp' & Hg' & H0)].
        -- unfold Basic.playing in Hp'. apply andb_true_iff in Hp'.
           destruct Hp' as (Hp' & Hg'). apply negb_true_iff in Hg'.
           rewrite Hp', Hg'. split.
           ++ symmetry. apply Z.eqb_neq. lia.
           ++ symmetry. rewrite andb_true_r. apply Z.leb_le. exact H1.
        -- rewrite Hp', Hg', H0. split; reflexivity.
      * unfold Basic.frame. rewrite Hplay. cbn [stateOf].
        unfold basicStatusOk. auto.
Qed.

(** ** Outside a game the enhanced scene is empty *)

(** X12.  In every state a run of the enhanced game reaches: when no game
    is running ([isPlaying] false: before the first start, after [stopGame]
    or after the last life is lost) there is no obstacle and no collectible
    left; when no life is left the game is stopped and over; and a running
    game is not over and has between 1 and 3 lives. *)
Theorem stopped_game_is_empty :
  forall cs : list Enhanced.Command, enhancedStatusOk (Enhanced.run cs).
Proof.
  intros cs. apply enhanced_run_induction; [| | exists cs; reflexivity].
  - unfold enhancedStatusOk. cbn. repeat split; discriminate.
  - clear cs. intros w c Hr (S1 & S2 & S3).
    assert (Hc : forall f, enhancedStatusOk (Enhanced.control f w)).
    { intros f. unfold Enhanced.control.
      destruct (_ || _); unfold enhancedStatusOk; cbn; auto. }
    destruct c as [| | | | | | | dt rnd sine]; cbn [Enhanced.step]; try apply Hc.
    + unfold enhancedStatusOk. cbn. repeat split; try discriminate; lia.
    + unfold enhancedStatusOk. cbn. auto.
    + unfold enhancedStatusOk. cbn. repeat split; discriminate.
    + unfold enhancedStatusOk. cbn. repeat split; try tauto.
    + assert (Hs : enhancedStatusOk w) by (unfold enhancedStatusOk; auto).
      destruct (Enhanced.isPlaying (Enhanced.gameState w)) eqn:Hp.
      2: { unfold Enhanced.update. rewrite Hp. exact Hs. }
      destruct (Enhanced.isPaused (Enhanced.gameState w)) eqn:Hq.
      1: { unfold Enhanced.update. rewrite Hp, Hq. exact Hs. }
      destruct (S3 eq_refl) as (Hg & Hl).
      destruct (enhanced_update_spec dt rnd sine w Hp Hq) as (Hle & _ & _ & _ & Hok).
      destruct Hok as (Hok & Hgo); [lia |].
      set (w' := stateOf (Enhanced.update dt rnd sine w)) in *.
      unfold enhancedStatusOk.
      destruct Hok as [(P1 & P2) | (P1 & P2 & P3 & P4 & P5)].
      * rewrite P1. split; [discriminate |]. split; [lia |].
        intros _. split; [rewrite (Hgo P1); exact Hg | lia].
      * rewrite P1, P2, P3, P4, P5. repeat split; discriminate.
Qed.

(** ** The health bar component *)



(** X14.  On a bar whose health is in range, with amounts that are not
    negative: healing undoes damage that was fully taken, damage undoes
    healing that was fully received, healing at full health changes
    nothing, two damages add up, and the bar is alive after a damage exactly
    when the damage was less than the health. *)
Theorem heal_undoes_damage :
  forall (h : Basic.HealthBar) (a b : Z),
    healthInRange h -> (0 <= a)%Z -> (0 <= b)%Z ->
    ((a <= Basic.currentHealth h)%Z -> Bar.heal a (Basic.takeDamage a h) = h)
    /\ ((Basic.currentHealth h + a <= Basic.maxHealth h)%Z ->
        Basic.takeDamage a (Bar.heal a h) = h)
    /\ (Basic.currentHealth h = Basic.maxHealth h -> Bar.heal a h = h)
    /\ Basic.takeDamage a (Basic.takeDamage b h) = Basic.takeDamage (a + b) h
    /\ Bar.heal a (Bar.heal b h) = Bar.heal (a + b) h
    /\ Bar.isAlive (Basic.takeDamage a h) = (a <? Basic.currentHealth h)%Z.
Proof.
  intros [m c d] a b. unfold healthInRange.
  cbn [Basic.currentHealth Basic.maxHealth]. intros Hr Ha Hb.
  unfold Bar.heal, Bar.isAlive, Basic.takeDamage, Basic.setHealth.
  cbn [Basic.currentHealth Basic.maxHealth Basic.displayed].
  repeat match goal with |- _ /\ _ => split end.
  - intros H. f_equal. lia.
  - intros H. f_equal. lia.
  - intros H. f_equal. lia.
  - f_equal. lia.
  - f_equal. lia.
  - destruct (Z.ltb_spec a c), (Z.ltb_spec 0 (Z.max 0 (Z.min (c - a) m)));
      try reflexivity; lia.
Qed.

Lemma heal_undoes_damage_witness :
  (Bar.heal 1 (Basic.takeDamage 1 (Basic.mkHealthBar 3 2 true))
   = Basic.mkHealthBar 3 2 true)
  /\ Bar.isAlive (Basic.takeDamage 2 (Basic.mkHealthBar 3 2 true)) = false.
Proof.
  destruct (heal_undoes_damage (Basic.mkHealthBar 3 2 true) 1 0) as (H1 & _);
    [unfold healthInRange; cbn; lia | lia | lia |].
  destruct (heal_undoes_damage (Basic.mkHealthBar 3 2 true) 2 0) as (_ & _ & _ & _ & _ & H6);
    [unfold healthInRange; cbn; lia | lia | lia |].
  split; [apply H1; cbn; lia | exact H6].
Defined.

(** ** Pausing and resuming *)

Lemma enhanced_paused_step (w : Enhanced.World) (c : Enhanced.Command) :
  Enhanced.isPaused (Enhanced.gameState w) = true ->
  duringPlay c = true ->
  Enhanced.step w c = w.
Proof.
  intros Hq Hc.
  destruct c as [| | | | | | | dt rnd sine]; try discriminate; cbn [Enhanced.step];
    unfold Enhanced.control, Enhanced.update; rewrite Hq, orb_true_r; reflexivity.
Qed.

(** X15.  Pausing a game that is not paused, then any sequence of key
    presses, touches and frames, then pausing again gives back exactly the
    state before the first pause: nothing moves, spawns, scores or is lost
    while the game is paused. *)
Theorem pause_round_trip :
  forall (w : Enhanced.World) (cs : list Enhanced.Command),
    Enhanced.isPaused (Enhanced.gameState w) = false ->
    forallb duringPlay cs = true ->
    fold_left Enhanced.step cs (Enhanced.step w Enhanced.Pause)
    = Enhanced.pauseGame w
    /\ Enhanced.step (fold_left Enhanced.step cs (Enhanced.step w Enhanced.Pause))
                     Enhanced.Pause
       = w.
Proof.
  intros w cs Hq Hcs.
  assert (H1 : fold_left Enhanced.step cs (Enhanced.step w Enhanced.Pause)
               = Enhanced.pauseGame w).
  { cbn [Enhanced.step].
    assert (Hp : Enhanced.isPaused (Enhanced.gameState (Enhanced.pauseGame w)) = true).
    { cbn. rewrite Hq. reflexivity. }
    revert Hp. generalize (Enhanced.pauseGame w). intros v Hp.
    induction cs as [| c cs IH]; [reflexivity |].
    cbn [forallb] in Hcs. apply andb_true_iff in Hcs. destruct Hcs as [Hc Hcs].
    cbn [fold_left]. rewrite (enhanced_paused_step v c Hp Hc). apply IH. exact Hcs. }
  split; [exact H1 |]. rewrite H1. cbn [Enhanced.step].
  destruct w as [p os cl g t i d1 d2]. destruct g as [pl pa sc sp li go th].
  cbn in Hq. subst pa. reflexivity.
Qed.

Lemma pause_round_trip_witness :
  Enhanced.step
    (fold_left Enhanced.step
       [Enhanced.Jump; Enhanced.Update 0.5 obstaclesInLanesZeroOne noSine; Enhanced.Left]
       (Enhanced.step runningEnhanced Enhanced.Pause))
    Enhanced.Pause
  = runningEnhanced.
Proof.
  apply (pause_round_trip runningEnhanced
           [Enhanced.Jump; Enhanced.Update 0.5 obstaclesInLanesZeroOne noSine; Enhanced.Left]).
  - reflexivity.
  - reflexivity.
Defined.

(** ** Entities keep the speed they were created with *)

Lemma forEachOutcome_Forall {A : Type} (P : A -> Prop) (u : A -> A) (zof : A -> Q) :
  (forall a, P a -> P (u a)) ->
  forall (n : nat) (l : list A),
    (length l <= n)%nat -> Forall P l -> Forall P (fst (forEachOutcome u zof l)).
Proof.
  intros Hu. induction n as [| n IH]; intros l Hn Hl.
  - destruct l; [constructor | cbn in Hn; lia].
  - destruct l as [| a rest]; [constructor |].
    apply Forall_cons in Hl. destruct Hl as [Ha Hrest].
    cbn [forEachOutcome]. cbv zeta. destruct (Qgtb (zof (u a)) 10).
    + destruct rest as [| b rest']; [constructor |].
      apply Forall_cons in Hrest. destruct Hrest as [Hb Hrest'].
      specialize (IH rest'). destruct (forEachOutcome u zof rest') as [ks ds].
      cbn [fst] in *. constructor; [exact Hb |]. apply IH; [cbn in Hn; lia | exact Hrest'].
    + specialize (IH rest). destruct (forEachOutcome u zof rest) as [ks ds].
      cbn [fst] in *. constructor; [apply Hu; exact Ha |].
      apply IH; [cbn in Hn; lia | exact Hrest].
Qed.

Lemma Forall_imap_keeps {A : Type} (P : A -> Prop) :
  forall (l : list A) (f : nat -> A -> A),
    (forall i a, P a -> P (f i a)) -> Forall P l -> Forall P (imap f l).
Proof.
  induction l as [| a l IH]; intros f Hf Hl; [constructor |].
  apply Forall_cons in Hl. destruct Hl as [Ha Hl]. cbn [imap].
  constructor; [apply Hf; exact Ha |]. apply IH; [| exact Hl].
  intros i b. apply Hf.
Qed.

Lemma Forall_kept {A : Type} (P : A -> Prop) (zof : A -> Q) (l : list A) :
  Forall P l -> Forall P (kept zof l).
Proof.
  intros Hl. unfold kept. induction Hl as [| a l Ha _ IH]; [constructor |].
  cbn [List.filter]. destruct (inPlay (zof a)); [constructor |]; assumption.
Qed.

Lemma velocityOk_faster (s s' v : Q) : s <= s' -> velocityOk s v -> velocityOk s' v.
Proof. unfold velocityOk. intros Hs [H1 H2]. split; [exact H1 | lra]. Qed.

Lemma basic_before_velocities (dt : Q) (rnd : nat -> Q) (w : Basic.World) :
  basicVelocitiesOk w -> basicVelocitiesOk (basicBeforeCollisions dt rnd w).
Proof.
  intros (Hs & Ho & Hc). unfold basicBeforeCollisions.
  set (w1 := Basic.setPlayer _ w).
  assert (H1 : basicVelocitiesOk w1) by (split; [| split]; assumption).
  clearbody w1. clear Hs Ho Hc.
  assert (H2 : basicVelocitiesOk (Basic.cullObstacles dt w1)).
  { destruct H1 as (Hs & Ho & Hc). rewrite basic_cullObstacles_outcome. cbv zeta.
    split; [exact Hs |]. split; [| exact Hc].
    cbn [Basic.setObstacles Basic.obstacles Basic.gameState].
    apply forEachOutcome_Forall with (n := length (Basic.obstacles w1));
      [intros a H; exact H | lia | exact Ho]. }
  set (w2 := Basic.cullObstacles dt w1) in *. clearbody w2. clear H1.
  assert (H3 : basicVelocitiesOk (Basic.cullCollectibles dt w2)).
  { destruct H2 as (Hs & Ho & Hc). rewrite basic_cullCollectibles_outcome. cbv zeta.
    split; [exact Hs |]. split; [exact Ho |].
    cbn [Basic.setCollectibles Basic.collectibles Basic.gameState].
    apply forEachOutcome_Forall with (n := length (Basic.collectibles w2));
      [intros a H; exact H | lia | exact Hc]. }
  set (w3 := Basic.cullCollectibles dt w2) in *. clearbody w3. clear H2.
  destruct H3 as (Hs & Ho & Hc). rewrite basic_spawnPhase_eq.
  destruct (Qgeb _ _); [| split; [| split]; assumption].
  cbv zeta. unfold basicVelocitiesOk.
  cbn [Basic.gameState Basic.speed Basic.obstacles Basic.collectibles].
  assert (Hup : Basic.speed (Basic.gameState w3) <= Basic.speed (Basic.gameState w3) + 0.1)
    by lra.
  split; [lra |]. split; apply Forall_app; split.
  - eapply Forall_impl; [exact Ho |]. intros o. apply velocityOk_faster. exact Hup.
  - apply Forall_forall. intros o Hin. apply list_elem_of_In in Hin.
    apply basicNewObstacles_spawned in Hin. destruct Hin as [_ ->].
    split; [exact Hs | exact Hup].
  - eapply Forall_impl; [exact Hc |]. intros c. apply velocityOk_faster. exact Hup.
  - apply Forall_forall. intros c Hin. apply list_elem_of_In in Hin.
    apply basicNewCollectibles_spawned in Hin. destruct Hin as [_ ->].
    split; [exact Hs | exact Hup].
Qed.

Lemma basic_frame_velocities (dt : Q) (rnd : nat -> Q) (w : Basic.World) :
  basicVelocitiesOk w -> basicVelocitiesOk (stateOf (Basic.frame dt rnd w)).
Proof.
  intros Hv. unfold Basic.frame. destruct (Basic.playing w); [| exact Hv].
  change (Basic.spawnPhase dt rnd _) with (basicBeforeCollisions dt rnd w).
  pose proof (basic_before_velocities dt rnd w Hv) as (Hs & Ho & Hc).
  set (w4 := basicBeforeCollisions dt rnd w) in *. clearbody w4.
  unfold Basic.checkCollisions.
  pose proof (basic_checkObstacles_spec (length (Basic.obstacles w4)) w4 (le_n _)) as Hsp.
  destruct (Basic.checkObstacles _ w4) as [w5 | w5 | w5]; [| | contradiction].
  - destruct Hsp as ((F1 & F2 & F3 & F4 & F5 & F6 & F7 & F8 & F9 & F10) & _).
    destruct (basic_checkCollectibles_spec (length (Basic.collectibles w5)) w5 (le_n _))
      as (w6 & -> & P).
    destruct P as (P1 & P2 & P3 & P4 & P5 & P6 & P7 & P8 & P9 & P10 & P11 & P12 & P13).
    cbn [stateOf]. unfold basicVelocitiesOk.
    cbn [Basic.addScore Basic.setGameState Basic.gameState Basic.speed
         Basic.obstacles Basic.collectibles].
    rewrite P10, F7, P2. split; [exact Hs |]. split.
    + apply Forall_forall. intros o Hin. apply list_elem_of_In, F10 in Hin.
      rewrite Forall_forall in Ho. apply Ho. apply list_elem_of_In. exact Hin.
    + apply Forall_forall. intros c Hin. apply list_elem_of_In, P13 in Hin.
      rewrite F2 in Hin.
      rewrite Forall_forall in Hc. apply Hc. apply list_elem_of_In. exact Hin.
  - destruct Hsp as ((F1 & F2 & F3 & F4 & F5 & F6 & F7 & F8 & F9 & F10) & _).
    cbn [stateOf]. unfold basicVelocitiesOk.
    cbn [Basic.addScore Basic.setGameState Basic.gameState Basic.speed
         Basic.obstacles Basic.collectibles].
    rewrite F7, F2. split; [exact Hs |]. split; [| exact Hc].
    apply Forall_forall. intros o Hin. apply list_elem_of_In, F10 in Hin.
    rewrite Forall_forall in Ho. apply Ho. apply list_elem_of_In. exact Hin.
Qed.

Lemma basic_reachable_velocities (w : Basic.World) :
  Basic.reachable w -> basicVelocitiesOk w.
Proof.
  apply basic_run_induction.
  - unfold basicVelocitiesOk. cbn. split; [lra |]. split; constructor.
  - clear w. intros w c _ Hv.
    destruct c as [| | | | currentTime rnd]; cbn [Basic.step];
      try (unfold Basic.control; destruct (_ || _); exact Hv).
    + unfold basicVelocitiesOk. cbn. split; [lra |]. split; constructor.
    + unfold Basic.animate. apply basic_frame_velocities. exact Hv.
Qed.

Lemma enhanced_scan_subset :
  forall (n : nat) (v : Enhanced.World),
    let v' := stateOf (Enhanced.checkObstacles n v) in
    Enhanced.speed (Enhanced.gameState v') = Enhanced.speed (Enhanced.gameState v)
    /\ (forall o, In o (Enhanced.obstacles v') -> In o (Enhanced.obstacles v))
    /\ (forall c, In c (Enhanced.collectibles v') -> In c (Enhanced.collectibles v)).
Proof.
  induction n as [| i IH]; intros v; cbn [Enhanced.checkObstacles]; [cbn; auto |].
  destruct (Enhanced.obstacles v !! i) as [o |]; [| cbn; auto].
  destruct (closerThan 1 _ _); [| apply IH].
  match goal with |- context [Enhanced.checkObstacles i ?u] =>
    destruct (IH u) as (I1 & I2 & I3); set (v1 := u) in * end.
  cbv zeta. split; [| split].
  - rewrite I1. unfold v1. destruct (_ <=? _)%Z; reflexivity.
  - intros x Hx. apply I2 in Hx. unfold v1 in Hx.
    destruct (_ <=? _)%Z; cbn in Hx; [contradiction |].
    apply delete_In in Hx. exact Hx.
  - intros x Hx. apply I3 in Hx. unfold v1 in Hx.
    destruct (_ <=? _)%Z; cbn in Hx; [contradiction | exact Hx].
Qed.

Lemma enhanced_collisions_subset (w : Enhanced.World) :
  let w' := stateOf (Enhanced.checkCollisions w) in
  Enhanced.speed (Enhanced.gameState w') = Enhanced.speed (Enhanced.gameState w)
  /\ (forall o, In o (Enhanced.obstacles w') -> In o (Enhanced.obstacles w))
  /\ (forall c, In c (Enhanced.collectibles w') -> In c (Enhanced.collectibles w)).
Proof.
  unfold Enhanced.checkCollisions.
  destruct (enhanced_scan_subset (length (Enhanced.obstacles w)) w) as (S1 & S2 & S3).
  destruct (Enhanced.checkObstacles _ w) as [w5 | w5]; cbn [stateOf] in *.
  - destruct (enhanced_checkCollectibles_spec (length (Enhanced.collectibles w5)) w5 (le_n _))
      as (w6 & -> & P).
    destruct P as (P1 & P2 & P3 & P4 & P5 & P6 & P7 & P8 & P9 & P10 & P11 & P12).
    cbn [stateOf]. rewrite P9, P2. split; [exact S1 |]. split; [exact S2 |].
    intros c Hc. apply S3, P12, Hc.
  - auto.
Qed.

Lemma enhanced_before_velocities (dt : Q) (rnd sine : nat -> Q) (w : Enhanced.World) :
  enhancedVelocitiesOk w -> enhancedVelocitiesOk (enhancedBeforeCollisions dt rnd sine w).
Proof.
  intros (Hs & Ho & Hc). unfold enhancedBeforeCollisions. cbv zeta.
  set (os := kept _ (allUpdated _ (Enhanced.obstacles w))).
  set (cs := kept _ (allUpdated _ (Enhanced.collectibles w))).
  assert (Hos : Forall (fun o => velocityOk (Enhanced.speed (Enhanced.gameState w))
                                            (Enhanced.ovelocity o)) os).
  { apply Forall_kept. unfold allUpdated. apply Forall_imap_keeps; [| exact Ho].
    intros i a H. exact H. }
  assert (Hcs : Forall (fun c => velocityOk (Enhanced.speed (Enhanced.gameState w))
                                            (Enhanced.cvelocity c)) cs).
  { apply Forall_kept. unfold allUpdated. apply Forall_imap_keeps; [| exact Hc].
    intros i a H. exact H. }
  clearbody os cs. rewrite enhanced_spawnPhase_eq.
  cbn [Enhanced.spawnTimer Enhanced.spawnInterval Enhanced.gameState
       Enhanced.obstacles Enhanced.collectibles].
  destruct (Qgeb _ _); [| split; [| split]; assumption].
  cbv zeta. unfold enhancedVelocitiesOk.
  cbn [Enhanced.gameState Enhanced.speed Enhanced.obstacles Enhanced.collectibles].
  assert (Hup : Enhanced.speed (Enhanced.gameState w)
                <= Enhanced.speed (Enhanced.gameState w) + 0.1) by lra.
  split; [lra |]. split; apply Forall_app; split.
  - eapply Forall_impl; [exact Hos |]. intros o. apply velocityOk_faster. exact Hup.
  - apply Forall_forall. intros o Hin. apply list_elem_of_In in Hin.
    apply enhancedNewObstacles_spawned in Hin. destruct Hin as [_ ->].
    split; [exact Hs | exact Hup].
  - eapply Forall_impl; [exact Hcs |]. intros c. apply velocityOk_faster. exact Hup.
  - apply Forall_forall. intros c Hin. apply list_elem_of_In in Hin.
    apply enhancedNewCollectibles_spawned in Hin. destruct Hin as [_ ->].
    split; [exact Hs | exact Hup].
Qed.

Lemma enhanced_update_velocities (dt : Q) (rnd sine : nat -> Q) (w : Enhanced.World) :
  enhancedVelocitiesOk w -> enhancedVelocitiesOk (stateOf (Enhanced.update dt rnd sine w)).
Proof.
  intros Hv.
  destruct (Enhanced.isPlaying (Enhanced.gameState w)) eqn:Hp.
  2: { unfold Enhanced.update. rewrite Hp. exact Hv. }
  destruct (Enhanced.isPaused (Enhanced.gameState w)) eqn:Hq.
  1: { unfold Enhanced.update. rewrite Hp, Hq. exact Hv. }
  rewrite (enhanced_update_unfold dt rnd sine w Hp Hq).
  pose proof (enhanced_before_velocities dt rnd sine w Hv) as (Hs & Ho & Hc).
  set (w4 := enhancedBeforeCollisions dt rnd sine w) in *. clearbody w4.
  destruct (enhanced_collisions_subset w4) as (C1 & C2 & C3). cbv zeta in C1, C2, C3.
  assert (H5 : enhancedVelocitiesOk (stateOf (Enhanced.checkCollisions w4))).
  { unfold enhancedVelocitiesOk. rewrite C1. split; [exact Hs |]. split.
    - apply Forall_forall. intros o Hin. apply list_elem_of_In, C2 in Hin.
      rewrite Forall_forall in Ho. apply Ho. apply list_elem_of_In. exact Hin.
    - apply Forall_forall. intros c Hin. apply list_elem_of_In, C3 in Hin.
      rewrite Forall_forall in Hc. apply Hc. apply list_elem_of_In. exact Hin. }
  destruct (Enhanced.checkCollisions w4) as [w5 | w5]; exact H5.
Qed.

Lemma enhanced_reachable_velocities (w : Enhanced.World) :
  Enhanced.reachable w -> enhancedVelocitiesOk w.
Proof.
  apply enhanced_run_induction.
  - unfold enhancedVelocitiesOk. cbn. split; [lra |]. split; constructor.
  - clear w. intros w c _ Hv.
    destruct c as [| | | | | | | dt rnd sine]; cbn [Enhanced.step];
      try (unfold Enhanced.control; destruct (_ || _); exact Hv).
    + unfold enhancedVelocitiesOk. cbn. split; [lra |]. split; constructor.
    + exact Hv.
    + destruct Hv as (Hs & _). unfold enhancedVelocitiesOk. cbn.
      split; [exact Hs |]. split; constructor.
    + destruct Hv as (Hs & _). unfold enhancedVelocitiesOk. cbn.
      split; [exact Hs |]. split; constructor.
    + apply enhanced_update_velocities. exact Hv.
Qed.

(** X16.  In every reachable state of either game each obstacle and each
    collectible on the scene has a velocity between the base speed 10 and
    the current speed of the game: it has the speed of the game at the
    moment it was spawned, updates never change it, and the speed of a
    game never falls while entities of that game remain.  So an update over
    a time step that is not negative never moves an entity away from the
    player. *)
Theorem entities_never_retreat :
  (forall b : Basic.World, Basic.reachable b -> basicVelocitiesOk b)
  /\ (forall e : Enhanced.World, Enhanced.reachable e -> enhancedVelocitiesOk e)
  /\ (forall (b : Basic.World) (dt : Q), Basic.reachable b -> 0 <= dt ->
      Forall (fun o => posz (Basic.omesh o)
                       <= posz (Basic.omesh (Basic.obstacleUpdate dt o)))
             (Basic.obstacles b)
      /\ Forall (fun c => posz (Basic.cmesh c)
                          <= posz (Basic.cmesh (Basic.collectibleUpdate dt c)))
                (Basic.collectibles b))
  /\ (forall (e : Enhanced.World) (dt sine : Q), Enhanced.reachable e -> 0 <= dt ->
      Forall (fun o => posz (Enhanced.omesh o)
                       <= posz (Enhanced.omesh (Enhanced.obstacleUpdate dt o)))
             (Enhanced.obstacles e)
      /\ Forall (fun c => posz (Enhanced.cmesh c)
                          <= posz (Enhanced.cmesh (Enhanced.collectibleUpdate dt sine c)))
                (Enhanced.collectibles e)).
Proof.
  split; [exact basic_reachable_velocities |].
  split; [exact enhanced_reachable_velocities |].
  split.
  - intros b dt Hr Hdt. destruct (basic_reachable_velocities b Hr) as (_ & Ho & Hc).
    split; (eapply Forall_impl; [eassumption |]); intros x [H1 _]; cbn; nra.
  - intros e dt sine Hr Hdt.
    destruct (enhanced_reachable_velocities e Hr) as (_ & Ho & Hc).
    split; (eapply Forall_impl; [eassumption |]); intros x [H1 _]; cbn; nra.
Qed.

(** ** How long a jump lasts *)

Lemma Qle_bool_false (x y : Q) : Qle_bool x y = false -> y < x.
Proof.
  intros H. destruct (Qlt_le_dec y x) as [Hlt | Hle]; [exact Hlt |].
  apply Qle_bool_iff in Hle. congruence.
Qed.

Lemma total_nonneg_list (dts : list Q) : Forall (fun dt => 0 <= dt) dts -> 0 <= total dts.
Proof.
  induction 1 as [| dt dts Hd _ IH]; [unfold total; cbn; lra |].
  rewrite total_cons. lra.
Qed.

Lemma basic_flight_step (y0 T dt : Q) (p : Basic.Player) :
  0 <= dt ->
  Basic.isGrounded p = true \/ basicInFlight y0 T p ->
  Basic.isGrounded (Basic.playerUpdate dt p) = true
  \/ basicInFlight y0 (T + dt) (Basic.playerUpdate dt p).
Proof.
  intros Hdt [Hg | (Hv & Hy & Hs)]; unfold Basic.playerUpdate.
  - left. rewrite Hg. reflexivity.
  - destruct (Basic.isGrounded p); [left; reflexivity |]. cbn [negb]. cbv zeta.
    destruct (Qle_bool _ 0.6) eqn:E; [left; reflexivity |]. right.
    apply Qle_bool_false in E. unfold basicInFlight.
    cbn [Basic.velocityY Basic.position vy].
    set (v := Basic.velocityY p) in *. set (y := vy (Basic.position p)) in *.
    assert (Hm : v * dt == (15 - 50 * T) * dt) by (rewrite Hv; reflexivity).
    split; [lra |]. split; [nra | left; exact E].
Qed.

Lemma basic_flight_frames (y0 : Q) :
  forall (dts : list Q) (T : Q) (p : Basic.Player),
    Forall (fun dt => 0 <= dt) dts ->
    Basic.isGrounded p = true \/ basicInFlight y0 T p ->
    Basic.isGrounded (basicPlayerFrames dts p) = true
    \/ exists T', T' == T + total dts /\ basicInFlight y0 T' (basicPlayerFrames dts p).
Proof.
  induction dts as [| dt dts IH]; intros T p Hd Hp.
  - destruct Hp as [Hg | Hf]; [left; exact Hg | right].
    exists T. split; [unfold total; cbn; lra | exact Hf].
  - apply Forall_cons in Hd. destruct Hd as [Hdt Hd].
    unfold basicPlayerFrames. cbn [fold_left].
    destruct (IH (T + dt) (Basic.playerUpdate dt p) Hd
                 (basic_flight_step y0 T dt p Hdt Hp)) as [Hg | (T' & HT & Hf)].
    + left. exact Hg.
    + right. exists T'. split; [rewrite total_cons; lra | exact Hf].
Qed.

Lemma basic_frames_ground (dts : list Q) :
  forall p : Basic.Player, basicGroundOk p -> basicGroundOk (basicPlayerFrames dts p).
Proof.
  induction dts as [| dt dts IH]; intros p Hp; [exact Hp |].
  apply IH. apply basic_playerUpdate_ground. exact Hp.
Qed.

Lemma basic_stillUp_step (d T dt : Q) (p : Basic.Player) :
  0 <= T -> 0 < dt -> dt <= d -> T + dt + d < 0.6 ->
  basicStillUp d T p -> basicStillUp d (T + dt) (Basic.playerUpdate dt p).
Proof.
  intros HT Hdt Hd Hlim (Hg & Hv & Hy). unfold Basic.playerUpdate. rewrite Hg.
  cbn [negb]. cbv zeta.
  set (v := Basic.velocityY p) in *. set (y := vy (Basic.position p)) in *.
  assert (Hm : v * dt == (15 - 50 * T) * dt) by (rewrite Hv; reflexivity).
  assert (Hup : 0.6 + (T + dt) * (15 - 25 * (T + dt) - 25 * d) <= y + (v - 50 * dt) * dt)
    by nra.
  assert (Hpos : 0 < (T + dt) * (15 - 25 * (T + dt) - 25 * d)).
  { apply Qmult_lt_0_compat; lra. }
  destruct (Qle_bool _ 0.6) eqn:E.
  - apply Qle_bool_iff in E. lra.
  - unfold basicStillUp. cbn [Basic.isGrounded Basic.velocityY Basic.position vy].
    split; [reflexivity |]. split; [lra | exact Hup].
Qed.

Lemma basic_stillUp_frames (d : Q) :
  forall (dts : list Q) (T : Q) (p : Basic.Player),
    0 <= T ->
    Forall (fun dt => 0 < dt /\ dt <= d) dts ->
    T + total dts + d < 0.6 ->
    basicStillUp d T p ->
    exists T', T' == T + total dts /\ basicStillUp d T' (basicPlayerFrames dts p).
Proof.
  induction dts as [| dt dts IH]; intros T p HT Hd Hlim Hp.
  - exists T. split; [unfold total; cbn; lra | exact Hp].
  - apply Forall_cons in Hd. destruct Hd as [[Hdt Hle] Hd].
    rewrite total_cons in Hlim.
    assert (Hrest : 0 <= total dts).
    { apply total_nonneg_list. eapply Forall_impl; [exact Hd |]. cbn. intros x [Hx _]. lra. }
    unfold basicPlayerFrames. cbn [fold_left].
    destruct (IH (T + dt) (Basic.playerUpdate dt p)) as (T' & HT' & Hf).
    + lra.
    + exact Hd.
    + lra.
    + apply basic_stillUp_step; try assumption; lra.
    + exists T'. split; [rewrite total_cons; lra | exact Hf].
Qed.

Lemma enhanced_flight_step (y0 T dt : Q) (p : Enhanced.EnhancedPlayer) :
  0 <= dt ->
  Enhanced.isGrounded p = true \/ enhancedInFlight y0 T p ->
  Enhanced.isGrounded (Enhanced.playerUpdate dt p) = true
  \/ enhancedInFlight y0 (T + dt) (Enhanced.playerUpdate dt p).
Proof.
  intros Hdt [Hg | (Hv & Hy & Hs)]; unfold Enhanced.playerUpdate.
  - left. rewrite Hg. reflexivity.
  - destruct (Enhanced.isGrounded p); [left; reflexivity |]. cbn [negb]. cbv zeta.
    destruct (Qle_bool _ (Enhanced.groundY + 0.6)) eqn:E; [left; reflexivity |]. right.
    apply Qle_bool_false in E. unfold enhancedInFlight.
    cbn [Enhanced.velocityY Enhanced.position vy].
    unfold Enhanced.gravity, Enhanced.groundY in *.
    set (v := Enhanced.velocityY p) in *. set (y := vy (Enhanced.position p)) in *.
    assert (Hm : v * dt == (15 - 50 * T) * dt) by (rewrite Hv; reflexivity).
    split; [lra |]. split; [nra | left; lra].
Qed.

Lemma enhanced_flight_frames (y0 : Q) :
  forall (dts : list Q) (T : Q) (p : Enhanced.EnhancedPlayer),
    Forall (fun dt => 0 <= dt) dts ->
    Enhanced.isGrounded p = true \/ enhancedInFlight y0 T p ->
    Enhanced.isGrounded (enhancedPlayerFrames dts p) = true
    \/ exists T', T' == T + total dts /\ enhancedInFlight y0 T' (enhancedPlayerFrames dts p).
Proof.
  induction dts as [| dt dts IH]; intros T p Hd Hp.
  - destruct Hp as [Hg | Hf]; [left; exact Hg | right].
    exists T. split; [unfold total; cbn; lra | exact Hf].
  - apply Forall_cons in Hd. destruct Hd as [Hdt Hd].
    unfold enhancedPlayerFrames. cbn [fold_left].
    destruct (IH (T + dt) (Enhanced.playerUpdate dt p) Hd
                 (enhanced_flight_step y0 T dt p Hdt Hp)) as [Hg | (T' & HT & Hf)].
    + left. exact Hg.
    + right. exists T'. split; [rewrite total_cons; lra | exact Hf].
Qed.

Lemma enhanced_frames_ground (dts : list Q) :
  forall p : Enhanced.EnhancedPlayer,
    enhancedGroundOk p -> enhancedGroundOk (enhancedPlayerFrames dts p).
Proof.
  induction dts as [| dt dts IH]; intros p Hp; [exact Hp |].
  apply IH. apply enhanced_playerUpdate_ground. exact Hp.
Qed.

Lemma enhanced_stillUp_step (d T dt : Q) (p : Enhanced.EnhancedPlayer) :
  0 <= T -> 0 < dt -> dt <= d -> T + dt + d < 0.6 ->
  enhancedStillUp d T p -> enhancedStillUp d (T + dt) (Enhanced.playerUpdate dt p).
Proof.
  intros HT Hdt Hd Hlim (Hg & Hv & Hy). unfold Enhanced.playerUpdate. rewrite Hg.
  cbn [negb]. cbv zeta. unfold Enhanced.gravity, Enhanced.groundY.
  set (v := Enhanced.velocityY p) in *. set (y := vy (Enhanced.position p)) in *.
  assert (Hm : v * dt == (15 - 50 * T) * dt) by (rewrite Hv; reflexivity).
  assert (Hup : 0.6 + (T + dt) * (15 - 25 * (T + dt) - 25 * d) <= y + (v + -50 * dt) * dt)
    by nra.
  assert (Hpos : 0 < (T + dt) * (15 - 25 * (T + dt) - 25 * d)).
  { apply Qmult_lt_0_compat; lra. }
  destruct (Qle_bool _ (0 + 0.6)) eqn:E.
  - apply Qle_bool_iff in E. lra.
  - unfold enhancedStillUp. cbn [Enhanced.isGrounded Enhanced.velocityY Enhanced.position vy].
    split; [reflexivity |]. split; [lra | exact Hup].
Qed.

Lemma enhanced_stillUp_frames (d : Q) :
  forall (dts : list Q) (T : Q) (p : Enhanced.EnhancedPlayer),
    0 <= T ->
    Forall (fun dt => 0 < dt /\ dt <= d) dts ->
    T + total dts + d < 0.6 ->
    enhancedStillUp d T p ->
    exists T', T' == T + total dts /\ enhancedStillUp d T' (enhancedPlayerFrames dts p).
Proof.
  induction dts as [| dt dts IH]; intros T p HT Hd Hlim Hp.
  - exists T. split; [unfold total; cbn; lra | exact Hp].
  - apply Forall_cons in Hd. destruct Hd as [[Hdt Hle] Hd].
    rewrite total_cons in Hlim.
    assert (Hrest : 0 <= total dts).
    { apply total_nonneg_list. eapply Forall_impl; [exact Hd |]. cbn. intros x [Hx _]. lra. }
    unfold enhancedPlayerFrames. cbn [fold_left].
    destruct (IH (T + dt) (Enhanced.playerUpdate dt p)) as (T' & HT' & Hf).
    + lra.
    + exact Hd.
    + lra.
    + apply enhanced_stillUp_step; try assumption; lra.
    + exists T'. split; [rewrite total_cons; lra | exact Hf].
Qed.

(** X17.  A jump from the ground, followed by frames of any lengths that
    are not negative: the player never rises more than 2.25 above its
    take-off height (which is 0.6 in the basic game, and 1 or 0.6 in the
    enhanced game, whose player starts at height 1 and lands at 0.6), and
    it is back on the ground, at rest, once the frames add up to 0.6
    seconds (0.64 for the enhanced player that takes off from height 1),
    whatever the frame rate.  It is still in the air, where a second jump does
    nothing, after frames that are positive, no longer than [d], and add up
    to a time [T] less than [0.6 - d]; its height is then at least
    [0.6 + T (15 - 25 T - 25 d)]. *)
Theorem jump_lands_in_time :
  (forall (p : Basic.Player) (dts : list Q),
      basicGroundOk p -> Basic.isGrounded p = true ->
      Forall (fun dt => 0 <= dt) dts ->
      let p' := basicPlayerFrames dts (Basic.jump p) in
      vy (Basic.position p') <= 2.85
      /\ vy (Basic.position p') <= vy (Basic.position p) + 2.25
      /\ (0.6 <= total dts ->
          Basic.isGrounded p' = true
          /\ vy (Basic.position p') = 0.6 /\ Basic.velocityY p' = 0))
  /\ (forall (p : Basic.Player) (dts : list Q) (d : Q),
      basicGroundOk p -> Basic.isGrounded p = true ->
      Forall (fun dt => 0 < dt /\ dt <= d) dts ->
      total dts + d < 0.6 ->
      let p' := basicPlayerFrames dts (Basic.jump p) in
      Basic.isGrounded p' = false /\ Basic.jump p' = p'
      /\ 0.6 + total dts * (15 - 25 * total dts - 25 * d) <= vy (Basic.position p'))
  /\ (forall (p : Enhanced.EnhancedPlayer) (dts : list Q),
      enhancedGroundOk p -> Enhanced.isGrounded p = true ->
      Forall (fun dt => 0 <= dt) dts ->
      let p' := enhancedPlayerFrames dts (Enhanced.jump p) in
      vy (Enhanced.position p') <= vy (Enhanced.position p) + 2.25
      /\ vy (Enhanced.position p') <= 3.25
      /\ (0.64 <= total dts ->
          Enhanced.isGrounded p' = true /\ Enhanced.velocityY p' = 0)
      /\ (vy (Enhanced.position p) = Enhanced.groundY + 0.6 -> 0.6 <= total dts ->
          Enhanced.isGrounded p' = true /\ Enhanced.velocityY p' = 0))
  /\ (forall (p : Enhanced.EnhancedPlayer) (dts : list Q) (d : Q),
      enhancedGroundOk p -> Enhanced.isGrounded p = true ->
      Forall (fun dt => 0 < dt /\ dt <= d) dts ->
      total dts + d < 0.6 ->
      let p' := enhancedPlayerFrames dts (Enhanced.jump p) in
      Enhanced.isGrounded p' = false /\ Enhanced.jump p' = p'
      /\ 0.6 + total dts * (15 - 25 * total dts - 25 * d) <= vy (Enhanced.position p')).
Proof.
  split; [| split; [| split]].
  - intros p dts Hok Hg Hd p'.
    destruct (Hok) as [Hy Hgr]. destruct (Hgr Hg) as [_ Hy0].
    assert (Hj : basicGroundOk (Basic.jump p)).
    { unfold Basic.jump. rewrite Hg. split; [exact Hy | discriminate]. }
    pose proof (basic_frames_ground dts _ Hj) as [Hy' Hgr'].
    assert (H0 : Basic.isGrounded (Basic.jump p) = true
                 \/ basicInFlight 0.6 0 (Basic.jump p)).
    { right. unfold Basic.jump. rewrite Hg. unfold basicInFlight. cbn.
      rewrite Hy0. split; [lra |]. split; lra. }
    pose proof (total_nonneg_list dts Hd) as Ht.
    destruct (basic_flight_frames 0.6 dts 0 _ Hd H0) as [Hl | (T' & HT & Hv & Hh & Hs)];
      fold p' in Hy', Hgr' |- *.
    + fold p' in Hl. destruct (Hgr' Hl) as [Hv0 Hy1]. rewrite Hy1, Hy0.
      split; [lra |]. split; [lra |]. intros _. auto.
    + fold p' in Hh, Hs.
      pose proof (Qsquare_nonneg (T' - 0.3)) as Hsq.
      split; [lra |]. split; [rewrite Hy0; lra |]. intros Hlong. exfalso.
      destruct Hs as [Hs | Hs]; [nra | lra].
  - intros p dts d Hok Hg Hd Hlim p'.
    destruct (Hok) as [Hy Hgr]. destruct (Hgr Hg) as [_ Hy0].
    assert (H0 : basicStillUp d 0 (Basic.jump p)).
    { unfold Basic.jump. rewrite Hg. unfold basicStillUp. cbn. rewrite Hy0.
      split; [reflexivity |]. split; lra. }
    destruct (basic_stillUp_frames d dts 0 (Basic.jump p) (Qle_refl 0) Hd)
      as (T' & HT & Hu & _ & Hlow); [lra | exact H0 |].
    fold p' in Hu, Hlow. split; [exact Hu |].
    split; [unfold Basic.jump; rewrite Hu; reflexivity |].
    assert (HT1 : T' == total dts) by lra.
    assert (HT2 : T' * T' == total dts * total dts) by (rewrite HT1; reflexivity).
    assert (HT3 : T' * d == total dts * d) by (rewrite HT1; reflexivity).
    lra.
  - intros p dts Hok Hg Hd p'.
    destruct (Hok) as [Hy Hgr]. destruct (Hgr Hg) as [_ Hy0].
    assert (Hy1 : vy (Enhanced.position p) <= 1).
    { destruct Hy0 as [-> | ->]; unfold Enhanced.groundY; lra. }
    assert (Hj : enhancedGroundOk (Enhanced.jump p)).
    { unfold Enhanced.jump. rewrite Hg. split; [exact Hy | discriminate]. }
    pose proof (enhanced_frames_ground dts _ Hj) as [Hy' Hgr'].
    set (y0 := vy (Enhanced.position p)) in *.
    assert (H0 : Enhanced.isGrounded (Enhanced.jump p) = true
                 \/ enhancedInFlight y0 0 (Enhanced.jump p)).
    { right. unfold Enhanced.jump. rewrite Hg. unfold enhancedInFlight, Enhanced.jumpForce.
      cbn. fold y0. split; [lra |]. split; lra. }
    pose proof (total_nonneg_list dts Hd) as Ht.
    destruct (enhanced_flight_frames y0 dts 0 _ Hd H0) as [Hl | (T' & HT & Hv & Hh & Hs)];
      fold p' in Hy', Hgr' |- *.
    + fold p' in Hl. destruct (Hgr' Hl) as [Hv0 Hy2].
      assert (Hy3 : vy (Enhanced.position p') <= 1).
      { destruct Hy2 as [-> | ->]; unfold Enhanced.groundY; lra. }
      split; [lra |]. split; [lra |]. split; intros; auto.
    + fold p' in Hh, Hs.
      pose proof (Qsquare_nonneg (T' - 0.3)) as Hsq.
      split; [lra |]. split; [lra |]. split.
      * intros Hlong. exfalso.
        assert (Hp : 0 <= (T' - 0.64) * (25 * T' - 15)) by (apply Qmult_le_0_compat; lra).
        destruct Hs as [Hs | Hs]; lra.
      * intros Hlow Hlong. exfalso.
        assert (Hy4 : y0 == 0.6) by (rewrite Hlow; unfold Enhanced.groundY; lra).
        assert (Hp : 0 <= (T' - 0.6) * (25 * T')) by (apply Qmult_le_0_compat; lra).
        destruct Hs as [Hs | Hs]; lra.
  - intros p dts d Hok Hg Hd Hlim p'.
    destruct (Hok) as [Hy Hgr].
    assert (H0 : enhancedStillUp d 0 (Enhanced.jump p)).
    { unfold Enhanced.jump. rewrite Hg. unfold enhancedStillUp, Enhanced.jumpForce. cbn.
      split; [reflexivity |]. split; lra. }
    destruct (enhanced_stillUp_frames d dts 0 (Enhanced.jump p) (Qle_refl 0) Hd)
      as (T' & HT & Hu & _ & Hlow); [lra | exact H0 |].
    fold p' in Hu, Hlow. split; [exact Hu |].
    split; [unfold Enhanced.jump; rewrite Hu; reflexivity |].
    assert (HT1 : T' == total dts) by lra.
    assert (HT2 : T' * T' == total dts * total dts) by (rewrite HT1; reflexivity).
    assert (HT3 : T' * d == total dts * d) by (rewrite HT1; reflexivity).
    lra.
Qed.

(** ** Where entities come from *)

Lemma basicNewObstacles_shape (speed : Q) (ds : list Basic.Spawn) (o : Basic.Obstacle) :
  In o (basicNewObstacles speed ds) ->
  exists lane, o = Basic.mkObstacle (mkPosition (laneCoord lane) 0.75 (-50)) speed.
Proof.
  unfold basicNewObstacles. rewrite in_flat_map. intros (s & _ & Hs).
  destruct s as [lane | lane]; cbn in Hs; [| tauto].
  destruct Hs as [<- | []]. exists lane. reflexivity.
Qed.

Lemma basicNewCollectibles_shape (speed : Q) (ds : list Basic.Spawn)
      (c : Basic.Collectible) :
  In c (basicNewCollectibles speed ds) ->
  exists lane, c = Basic.mkCollectible (mkPosition (laneCoord (Some lane)) 1 (-50)) speed.
Proof.
  unfold basicNewCollectibles. rewrite in_flat_map. intros (s & _ & Hs).
  destruct s as [lane | lane]; cbn in Hs; [tauto |].
  destruct Hs as [<- | []]. exists lane. reflexivity.
Qed.

Lemma enhancedNewObstacles_shape (speed : Q) (ds : list Enhanced.Spawn)
      (o : Enhanced.DiwaliObstacle) :
  In o (enhancedNewObstacles speed ds) ->
  exists lane, o = Enhanced.mkObstacle (mkPosition (laneCoord lane) 0.75 (-50)) speed.
Proof.
  unfold enhancedNewObstacles. rewrite in_flat_map. intros (s & _ & Hs).
  destruct s as [lane | lane type]; cbn in Hs; [| tauto].
  destruct Hs as [<- | []]. exists lane. reflexivity.
Qed.

Section BasicProvenance.

Variable P : Basic.Obstacle -> Prop.
Variable C : Basic.Collectible -> Prop.
Hypothesis P_update : forall dt o, P o -> P (Basic.obstacleUpdate dt o).
Hypothesis P_new :
  forall lane v, P (Basic.mkObstacle (mkPosition (laneCoord lane) 0.75 (-50)) v).
Hypothesis C_update : forall dt c, C c -> C (Basic.collectibleUpdate dt c).
Hypothesis C_new :
  forall lane v, C (Basic.mkCollectible (mkPosition (laneCoord (Some lane)) 1 (-50)) v).

Lemma basic_before_provenance (dt : Q) (rnd : nat -> Q) (w : Basic.World) :
  Forall P (Basic.obstacles w) /\ Forall C (Basic.collectibles w) ->
  Forall P (Basic.obstacles (basicBeforeCollisions dt rnd w))
  /\ Forall C (Basic.collectibles (basicBeforeCollisions dt rnd w)).
Proof.
  intros (Ho & Hc). unfold basicBeforeCollisions.
  set (w1 := Basic.setPlayer _ w).
  assert (H1 : Forall P (Basic.obstacles w1) /\ Forall C (Basic.collectibles w1))
    by (split; assumption).
  clearbody w1. clear Ho Hc.
  assert (H2 : Forall P (Basic.obstacles (Basic.cullObstacles dt w1))
               /\ Forall C (Basic.collectibles (Basic.cullObstacles dt w1))).
  { destruct H1 as (Ho & Hc). rewrite basic_cullObstacles_outcome. cbv zeta.
    split; [| exact Hc]. cbn [Basic.setObstacles Basic.obstacles].
    apply forEachOutcome_Forall with (n := length (Basic.obstacles w1));
      [apply P_update | lia | exact Ho]. }
  set (w2 := Basic.cullObstacles dt w1) in *. clearbody w2. clear H1.
  assert (H3 : Forall P (Basic.obstacles (Basic.cullCollectibles dt w2))
               /\ Forall C (Basic.collectibles (Basic.cullCollectibles dt w2))).
  { destruct H2 as (Ho & Hc). rewrite basic_cullCollectibles_outcome. cbv zeta.
    split; [exact Ho |]. cbn [Basic.setCollectibles Basic.collectibles].
    apply forEachOutcome_Forall with (n := length (Basic.collectibles w2));
      [apply C_update | lia | exact Hc]. }
  set (w3 := Basic.cullCollectibles dt w2) in *. clearbody w3. clear H2.
  destruct H3 as (Ho & Hc). rewrite basic_spawnPhase_eq.
  destruct (Qgeb _ _); [| split; assumption].
  cbv zeta. cbn [Basic.obstacles Basic.collectibles].
  split; apply Forall_app; split; try assumption.
  - apply Forall_forall. intros o Hin. apply list_elem_of_In in Hin.
    apply basicNewObstacles_shape in Hin. destruct Hin as [lane ->]. apply P_new.
  - apply Forall_forall. intros c Hin. apply list_elem_of_In in Hin.
    apply basicNewCollectibles_shape in Hin. destruct Hin as [lane ->]. apply C_new.
Qed.

Lemma basic_frame_provenance (dt : Q) (rnd : nat -> Q) (w : Basic.World) :
  Forall P (Basic.obstacles w) /\ Forall C (Basic.collectibles w) ->
  Forall P (Basic.obstacles (stateOf (Basic.frame dt rnd w)))
  /\ Forall C (Basic.collectibles (stateOf (Basic.frame dt rnd w))).
Proof.
  intros Hv. unfold Basic.frame. destruct (Basic.playing w); [| exact Hv].
  change (Basic.spawnPhase dt rnd _) with (basicBeforeCollisions dt rnd w).
  pose proof (basic_before_provenance dt rnd w Hv) as (Ho & Hc).
  set (w4 := basicBeforeCollisions dt rnd w) in *. clearbody w4.
  unfold Basic.checkCollisions.
  pose proof (basic_checkObstacles_spec (length (Basic.obstacles w4)) w4 (le_n _)) as Hsp.
  destruct (Basic.checkObstacles _ w4) as [w5 | w5 | w5]; [| | contradiction].
  - destruct Hsp as ((F1 & F2 & F3 & F4 & F5 & F6 & F7 & F8 & F9 & F10) & _).
    destruct (basic_checkCollectibles_spec (length (Basic.collectibles w5)) w5 (le_n _))
      as (w6 & -> & P0).
    destruct P0 as (P1 & P2 & P3 & P4 & P5 & P6 & P7 & P8 & P9 & P10 & P11 & P12 & P13).
    cbn [stateOf Basic.addScore Basic.setGameState Basic.obstacles Basic.collectibles].
    rewrite P2. split.
    + apply Forall_forall. intros o Hin. apply list_elem_of_In, F10 in Hin.
      rewrite Forall_forall in Ho. apply Ho. apply list_elem_of_In. exact Hin.
    + apply Forall_forall. intros c Hin. apply list_elem_of_In, P13 in Hin.
      rewrite F2 in Hin.
      rewrite Forall_forall in Hc. apply Hc. apply list_elem_of_In. exact Hin.
  - destruct Hsp as ((F1 & F2 & F3 & F4 & F5 & F6 & F7 & F8 & F9 & F10) & _).
    cbn [stateOf Basic.addScore Basic.setGameState Basic.obstacles Basic.collectibles].
    rewrite F2. split; [| exact Hc].
    apply Forall_forall. intros o Hin. apply list_elem_of_In, F10 in Hin.
    rewrite Forall_forall in Ho. apply Ho. apply list_elem_of_In. exact Hin.
Qed.

Lemma basic_reachable_provenance (w : Basic.World) :
  Basic.reachable w -> Forall P (Basic.obstacles w) /\ Forall C (Basic.collectibles w).
Proof.
  revert w.
  apply (basic_run_induction
           (fun w => Forall P (Basic.obstacles w) /\ Forall C (Basic.collectibles w))).
  - cbn. split; constructor.
  - intros w c _ Hv.
    destruct c as [| | | | currentTime rnd]; cbn [Basic.step];
      try (unfold Basic.control; destruct (_ || _); exact Hv).
    + cbn. split; constructor.
    + unfold Basic.animate. apply basic_frame_provenance. exact Hv.
Qed.

End BasicProvenance.

Section EnhancedProvenance.

Variable P : Enhanced.DiwaliObstacle -> Prop.
Hypothesis P_update : forall dt o, P o -> P (Enhanced.obstacleUpdate dt o).
Hypothesis P_new :
  forall lane v, P (Enhanced.mkObstacle (mkPosition (laneCoord lane) 0.75 (-50)) v).

Lemma enhanced_update_provenance (dt : Q) (rnd sine : nat -> Q) (w : Enhanced.World) :
  Forall P (Enhanced.obstacles w) ->
  Forall P (Enhanced.obstacles (stateOf (Enhanced.update dt rnd sine w))).
Proof.
  intros Ho.
  destruct (Enhanced.isPlaying (Enhanced.gameState w)) eqn:Hp.
  2: { unfold Enhanced.update. rewrite Hp. exact Ho. }
  destruct (Enhanced.isPaused (Enhanced.gameState w)) eqn:Hq.
  1: { unfold Enhanced.update. rewrite Hp, Hq. exact Ho. }
  rewrite (enhanced_update_unfold dt rnd sine w Hp Hq).
  assert (H4 : Forall P (Enhanced.obstacles (enhancedBeforeCollisions dt rnd sine w))).
  { unfold enhancedBeforeCollisions. cbv zeta.
    set (os := kept _ (allUpdated _ (Enhanced.obstacles w))).
    assert (Hos : Forall P os).
    { apply Forall_kept. unfold allUpdated. apply Forall_imap_keeps; [| exact Ho].
      intros i a H. apply P_update. exact H. }
    clearbody os. rewrite enhanced_spawnPhase_eq.
    cbn [Enhanced.spawnTimer Enhanced.spawnInterval Enhanced.gameState Enhanced.obstacles].
    destruct (Qgeb _ _); [| exact Hos].
    cbv zeta. cbn [Enhanced.obstacles]. apply Forall_app. split; [exact Hos |].
    apply Forall_forall. intros o Hin. apply list_elem_of_In in Hin.
    apply enhancedNewObstacles_shape in Hin. destruct Hin as [lane ->]. apply P_new. }
  set (w4 := enhancedBeforeCollisions dt rnd sine w) in *. clearbody w4.
  destruct (enhanced_collisions_subset w4) as (_ & C2 & _). cbv zeta in C2.
  assert (H5 : Forall P (Enhanced.obstacles (stateOf (Enhanced.checkCollisions w4)))).
  { apply Forall_forall. intros o Hin. apply list_elem_of_In, C2 in Hin.
    rewrite Forall_forall in H4. apply H4. apply list_elem_of_In. exact Hin. }
  destruct (Enhanced.checkCollisions w4) as [w5 | w5]; exact H5.
Qed.

Lemma enhanced_reachable_provenance (w : Enhanced.World) :
  Enhanced.reachable w -> Forall P (Enhanced.obstacles w).
Proof.
  revert w.
  apply (enhanced_run_induction (fun w => Forall P (Enhanced.obstacles w))).
  - cbn. constructor.
  - intros w c _ Hv.
    destruct c as [| | | | | | | dt rnd sine]; cbn [Enhanced.step];
      try (unfold Enhanced.control; destruct (_ || _); exact Hv);
      try (cbn; constructor).
    + exact Hv.
    + apply enhanced_update_provenance. exact Hv.
Qed.

End EnhancedProvenance.

(** ** A player high enough is out of reach *)

Lemma above_out_of_reach (r : Q) (p : Vector3) (q : Position) :
  0 <= r -> r <= vy p - posy q -> closerThan r p q = false.
Proof.
  intros H0 Hr. unfold closerThan. destruct (posx q) as [x |]; [| reflexivity].
  apply Qltb_ge. unfold sq.
  pose proof (Qsquare_nonneg (vx p - x)) as Hx.
  pose proof (Qsquare_nonneg (vz p - posz q)) as Hz.
  set (a := vx p - x) in *. set (b := vz p - posz q) in *.
  set (d := vy p - posy q) in *. nra.
Qed.

(** X18.  In every reachable state the obstacles of either game stand at
    height 0.75 and the collectibles of the basic game at height 1, as
    they were created.  Hence a player at height 1.75 or more cannot be hit:
    the obstacle loop of [checkCollisions] ends without a change, whatever
    the lanes and distances; and at height 1.8 or more the basic player
    picks up nothing either, so that [checkCollisions] leaves the state as
    it is. *)
Theorem high_player_is_safe :
  (forall b : Basic.World, Basic.reachable b -> basicHeightsOk b)
  /\ (forall e : Enhanced.World, Enhanced.reachable e -> enhancedHeightsOk e)
  /\ (forall b : Basic.World,
      Basic.reachable b ->
      1.75 <= vy (Basic.position (Basic.player b)) ->
      Basic.checkObstacles (length (Basic.obstacles b)) b = Basic.Finished b)
  /\ (forall b : Basic.World,
      Basic.reachable b ->
      1.8 <= vy (Basic.position (Basic.player b)) ->
      Basic.checkCollisions b = Normal b)
  /\ (forall e : Enhanced.World,
      Enhanced.reachable e ->
      1.75 <= vy (Enhanced.position (Enhanced.player e)) ->
      Enhanced.checkObstacles (length (Enhanced.obstacles e)) e = Normal e).
Proof.
  assert (Hb : forall b : Basic.World, Basic.reachable b -> basicHeightsOk b).
  { intros b Hr.
    apply (basic_reachable_provenance (fun o => posy (Basic.omesh o) = 0.75)
                                      (fun c => posy (Basic.cmesh c) = 1));
      [intros dt o H; exact H | reflexivity | intros dt c H; exact H | reflexivity
      | exact Hr]. }
  assert (He : forall e : Enhanced.World, Enhanced.reachable e -> enhancedHeightsOk e).
  { intros e Hr.
    apply (enhanced_reachable_provenance (fun o => posy (Enhanced.omesh o) = 0.75));
      [intros dt o H; exact H | reflexivity | exact Hr]. }
  assert (Hhit : forall b : Basic.World,
             Basic.reachable b ->
             1.75 <= vy (Basic.position (Basic.player b)) ->
             Basic.checkObstacles (length (Basic.obstacles b)) b = Basic.Finished b).
  { intros b Hr Hy. destruct (Hb b Hr) as [Ho _].
    apply basic_no_hit; [| lia]. intros o Hin.
    rewrite Forall_forall in Ho. apply list_elem_of_In, Ho in Hin.
    apply above_out_of_reach; [lra | rewrite Hin; lra]. }
  split; [exact Hb |]. split; [exact He |]. split; [exact Hhit |]. split.
  - intros b Hr Hy. unfold Basic.checkCollisions. rewrite (Hhit b Hr) by lra.
    destruct (Hb b Hr) as [_ Hc].
    apply basic_no_pick; [| lia]. intros c Hin.
    rewrite Forall_forall in Hc. apply list_elem_of_In, Hc in Hin.
    apply above_out_of_reach; [lra | rewrite Hin; lra].
  - intros e Hr Hy. pose proof (He e Hr) as Ho.
    apply enhanced_no_hit; [| lia]. intros o Hin.
    unfold enhancedHeightsOk in Ho. rewrite Forall_forall in Ho.
    apply list_elem_of_In, Ho in Hin.
    apply above_out_of_reach; [lra | rewrite Hin; lra].
Qed.

(** ** Touch gestures *)

Lemma Qabs_sign (t : Q) : (t < 0 /\ Qabs t == - t) \/ (0 <= t /\ Qabs t == t).
Proof.
  destruct (Qlt_le_dec t 0) as [H | H].
  - left. split; [exact H |]. apply Qabs_neg. lra.
  - right. split; [exact H |]. apply Qabs_pos. exact H.
Qed.

Ltac decide_tests :=
  repeat match goal with
         | |- context [Qgtb ?x ?y] =>
             let E := fresh "E" in
             destruct (Qgtb x y) eqn:E;
             [unfold Qgtb in E; apply Qltb_lt in E | apply Qgtb_le in E]
         | |- context [Qltb ?x ?y] =>
             let E := fresh "E" in
             destruct (Qltb x y) eqn:E; [apply Qltb_lt in E | apply Qltb_ge in E]
         end.

Lemma half_is_half (w : Q) : w / 2 == w * 0.5.
Proof. field. Qed.

(** X19.  Touch input.  In the basic game a gesture and its mirror image
    (the end point reflected about the vertical line through the start
    point) ask for mirrored moves; the only gesture that does nothing is a
    downward swipe, longer than 30 and at least as long as it is wide; a tap
    and an upward swipe jump, and a diagonal swipe counts as vertical.  In
    the enhanced game every touch acts: the upper half of the target jumps,
    and in the lower half a touch and its mirror image about the centre
    line ask for opposite moves, except on the centre line itself, which
    moves right.  A gesture made while no game is running changes
    nothing. *)
Theorem touch_gestures :
  (forall sx sy ex ey : Q,
      touchEnd sx sy (sx - (ex - sx)) ey = mirror (touchEnd sx sy ex ey))
  /\ (forall sx sy ex ey : Q,
      touchEnd sx sy ex ey = None
      <-> 30 < ey - sy /\ Qabs (ex - sx) <= ey - sy)
  /\ (forall sx sy ex ey : Q,
      touchEnd sx sy ex ey = Some ActJump
      <-> (Qabs (ex - sx) <= 30 /\ Qabs (ey - sy) <= 30)
          \/ (ey - sy < - (30) /\ Qabs (ex - sx) <= - (ey - sy)))
  /\ (forall cx cy l t w h : Q,
      ~ cx - l == w / 2 ->
      Some (handleTouch (l + (w - (cx - l))) cy l t w h)
      = mirror (Some (handleTouch cx cy l t w h)))
  /\ (forall cx cy l t w h : Q,
      handleTouch cx cy l t w h = ActJump <-> cy - t < h / 2)
  /\ (forall cx cy l t w h : Q,
      cx - l == w / 2 -> h / 2 <= cy - t -> handleTouch cx cy l t w h = ActRight)
  /\ (forall (a : option Action) (w : Basic.World),
      Basic.playing w = false -> basicAct a w = w).
Proof.
  repeat match goal with |- _ /\ _ => split end.
  - intros sx sy ex ey. unfold touchEnd. cbv zeta.
    set (dx := ex - sx). set (dy := ey - sy). set (dx' := sx - dx - sx).
    assert (Hdx : dx' == - dx) by (unfold dx'; ring).
    destruct (Qabs_sign dx) as [[S1 A1] | [S1 A1]],
             (Qabs_sign dy) as [[S2 A2] | [S2 A2]],
             (Qabs_sign dx') as [[S3 A3] | [S3 A3]];
      set (a := Qabs dx) in *; set (b := Qabs dy) in *; set (a' := Qabs dx') in *;
      clearbody a b a' dx' dx dy;
      decide_tests; cbn; try reflexivity; exfalso; lra.
  - intros sx sy ex ey. unfold touchEnd. cbv zeta.
    set (dx := ex - sx). set (dy := ey - sy).
    destruct (Qabs_sign dx) as [[S1 A1] | [S1 A1]],
             (Qabs_sign dy) as [[S2 A2] | [S2 A2]];
      set (a := Qabs dx) in *; set (b := Qabs dy) in *;
      clearbody a b dx dy;
      decide_tests; cbn; split; intros H; try discriminate; try reflexivity;
      try (split; lra); try (exfalso; lra).
  - intros sx sy ex ey. unfold touchEnd. cbv zeta.
    set (dx := ex - sx). set (dy := ey - sy).
    destruct (Qabs_sign dx) as [[S1 A1] | [S1 A1]],
             (Qabs_sign dy) as [[S2 A2] | [S2 A2]];
      set (a := Qabs dx) in *; set (b := Qabs dy) in *;
      clearbody a b dx dy;
      decide_tests; cbn; split; intros H; try discriminate; try reflexivity;
      try (left; split; lra); try (right; split; lra);
      try (exfalso; destruct H as [[? ?] | [? ?]]; lra).
  - intros cx cy l t w h Hne. unfold handleTouch. cbv zeta.
    pose proof (half_is_half w) as Hw. pose proof (half_is_half h) as Hh.
    set (cw := w / 2) in *. set (ch := h / 2) in *. clearbody cw ch.
    decide_tests; cbn; try reflexivity; exfalso; lra.
  - intros cx cy l t w h. unfold handleTouch. cbv zeta.
    set (ch := h / 2). clearbody ch.
    decide_tests; cbn; split; intros H; try discriminate; try reflexivity;
      try assumption; exfalso; lra.
  - intros cx cy l t w h Hx Hy. unfold handleTouch. cbv zeta.
    set (cw := w / 2) in *. set (ch := h / 2) in *. clearbody cw ch.
    decide_tests; cbn; try reflexivity; exfalso; lra.
  - intros a w Hp. unfold Basic.playing in Hp.
    assert (Hc : forall f, Basic.control f w = w).
    { intros f. unfold Basic.control.
      destruct (Basic.isPlaying (Basic.gameState w)), (Basic.gameOver (Basic.gameState w));
        cbn in *; try reflexivity; discriminate. }
    destruct a as [[| |] |]; cbn [basicAct Basic.step]; try apply Hc. reflexivity.
Qed.
